(** * ParkEase booking engine: a shallow embedding of [src/app.py]

    The Flask handlers of [app.py] operate on MongoDB collections.  Each
    collection is modelled as a list of documents in natural (insertion)
    order, so that [find_one] is the first match, [update_one] rewrites
    the first match, [insert_one] appends and [delete_many] filters.

    Handlers run in a state-and-exception monad [M]: writes committed
    before a Python exception stay in the store, as they do in MongoDB.

    Conventions of the model:
    - [ObjectId]s are [nat]s;
    - datetimes are [Z] microseconds from the Unix epoch ([datetime] has
      microsecond resolution), confined to [datetime]'s range (years 1 to
      9999): leaving it raises [OverflowError]; [timedelta(hours=1)] is
      [hour_us];
    - prices and amounts are Python numbers [pynum]: an [int] is a [Z], a
      [float] an IEEE 754 binary64 value [float64] with round-to-nearest-even
      arithmetic; [round(x, 2)] is [py_round2]; numbers stored in MongoDB
      obey BSON (64-bit integers) and the server's [$inc];
    - a request's form fields are explicit arguments; the two random
      tokens of [uuid4] are explicit arguments too. *)

From Stdlib Require Import List String Ascii Bool ZArith QArith Lia.
From Stdlib Require Import Qround Qpower Qabs Lqa Sorted.
Import ListNotations.
Open Scope Z_scope.

(** ** Time *)

Definition second_us : Z := 1000000.
Definition minute_us : Z := 60 * second_us.
Definition hour_us : Z := 3600 * second_us.

(** [math.ceil(x / d)] for integer microseconds and a positive divisor. *)
Definition ceil_div (x d : Z) : Z := - ((- x) / d).

(** [datetime.min] (0001-01-01T00:00) and [datetime.max]
    (9999-12-31T23:59:59.999999). *)
Definition dt_min : Z := -62135596800 * second_us.
Definition dt_max : Z := 253402300800 * second_us - 1.

Definition dt_ok (t : Z) : bool := (dt_min <=? t) && (t <=? dt_max).

(** [timedelta(hours=h)] needs [|days| <= 999999999], [days] being
    [floor(h / 24)]. *)
Definition td_hours_ok (h : Z) : bool := Z.abs (h / 24) <=? 999999999.

(** [t + timedelta(hours=h)]: [None] when Python raises [OverflowError]. *)
Definition add_hours (t h : Z) : option Z :=
  if td_hours_ok h && dt_ok (t + h * hour_us) then Some (t + h * hour_us) else None.

(** ** Exact rounding to an integer and to 2 decimal places *)

Definition Qltb (x y : Q) : bool := negb (Qle_bool y x).

(** Round half to even, on an exact value. *)
Definition rne (y : Q) : Z :=
  let f := Qfloor y in
  let r := (y - inject_Z f)%Q in
  if Qltb r (1 # 2) then f
  else if Qltb (1 # 2) r then f + 1
  else if Z.even f then f else f + 1.

(** The decimal with 2 places nearest to [q], ties to even. *)
Definition round2 (q : Q) : Q := rne (q * (100 # 1)) # 100.

(** ** Python numbers *)

(** An IEEE 754 binary64 value.  [FFin neg m e] is [(-1)^neg * m * 2^e];
    the values built here keep [m] odd (see [mk_float]), so that equal
    numbers are equal terms. *)
Inductive float64 :=
| FZero (neg : bool)
| FFin (neg : bool) (m e : Z)
| FInf (neg : bool)
| FNaN.

Fixpoint pos_odd (p : positive) : positive :=
  match p with xO q => pos_odd q | _ => p end.

Fixpoint pos_twos (p : positive) : Z :=
  match p with xO q => Z.succ (pos_twos q) | _ => 0 end.

(** [m * 2^e] with the factors 2 of [m] moved into the exponent. *)
Definition mk_float (neg : bool) (m e : Z) : float64 :=
  match m with
  | Zpos p => FFin neg (Zpos (pos_odd p)) (e + pos_twos p)
  | _ => FZero neg
  end.

Definition pow2 (z : Z) : Q := ((2 # 1) ^ z)%Q.

(** The exact value of a finite float. *)
Definition fval (f : float64) : Q :=
  match f with
  | FFin neg m e => if neg then (- (inject_Z m * pow2 e))%Q else (inject_Z m * pow2 e)%Q
  | _ => 0%Q
  end.

Definition fneg (f : float64) : bool :=
  match f with FZero n | FFin n _ _ | FInf n => n | FNaN => false end.

(** [floor(log2 a)] for [a > 0]. *)
Definition flog2 (a : Q) : Z :=
  let L := Z.log2 (Qnum a) - Z.log2 (Zpos (Qden a)) in
  if Qle_bool (pow2 L) a then L else L - 1.

(** The binary64 value nearest to [x] (ties to an even significand): 53
    significant bits, subnormals down to [2^-1074], infinity from [2^1024]
    on. *)
Definition f64_of_Q (x : Q) : float64 :=
  let a := Qabs x in
  let neg := Qltb x 0 in
  if Qeq_bool a 0 then FZero false else
  let e := Z.max (flog2 a - 52) (-1074) in
  let m := rne (a / pow2 e) in
  if m =? 0 then FZero neg
  else if 1024 <=? Z.log2 m + e then FInf neg
  else mk_float neg m e.

(** A float literal of the source, such as [0.5] or [0.90]. *)
Definition float_lit (q : Q) : float64 := f64_of_Q q.

Definition f64_mul (x y : float64) : float64 :=
  match x, y with
  | FNaN, _ | _, FNaN => FNaN
  | FInf _, FZero _ | FZero _, FInf _ => FNaN
  | FInf _, _ | _, FInf _ => FInf (xorb (fneg x) (fneg y))
  | FZero _, _ | _, FZero _ => FZero (xorb (fneg x) (fneg y))
  | _, _ => let v := (fval x * fval y)%Q in
            if Qeq_bool v 0 then FZero (xorb (fneg x) (fneg y)) else f64_of_Q v
  end.

(** An exact zero sum of nonzero operands is [+0.0]. *)
Definition f64_add (x y : float64) : float64 :=
  match x, y with
  | FNaN, _ | _, FNaN => FNaN
  | FInf a, FInf b => if Bool.eqb a b then FInf a else FNaN
  | FInf a, _ => FInf a
  | _, FInf b => FInf b
  | FZero a, FZero b => FZero (a && b)
  | _, _ => let v := (fval x + fval y)%Q in
            if Qeq_bool v 0 then FZero false else f64_of_Q v
  end.

(** [x / k] for a float [x] and a positive [int] [k]. *)
Definition f64_div_int (x : float64) (k : Z) : float64 :=
  match x with
  | FFin _ _ _ => f64_of_Q (fval x / inject_Z k)
  | _ => x
  end.

(** [a / b] on two [int]s, [b > 0]: the correctly rounded quotient. *)
Definition py_truediv (a b : Z) : float64 := f64_of_Q (inject_Z a / inject_Z b).

(** A Python [int] or [float]. *)
Inductive pynum := PInt (n : Z) | PFloat (f : float64).

(** [float(n)].  Python raises [OverflowError] when [|n|] rounds to
    [2^1024] or more; the [int]s converted by the handlers are prices and
    amounts read from BSON documents (below [2^63]), durations bounded by
    the datetime arithmetic that precedes, or (in [extend_booking]) hours
    whose [timedelta] overflows in the same [try] block, so that case
    leads to the same outcome and is not singled out. *)
Definition float_of_int (n : Z) : float64 := f64_of_Q (inject_Z n).

Definition to_float (x : pynum) : float64 :=
  match x with PInt n => float_of_int n | PFloat f => f end.

(** [x * y] and [x + y]: exact on two [int]s, in binary64 otherwise. *)
Definition py_mul (x y : pynum) : pynum :=
  match x, y with
  | PInt a, PInt b => PInt (a * b)
  | _, _ => PFloat (f64_mul (to_float x) (to_float y))
  end.

Definition py_add (x y : pynum) : pynum :=
  match x, y with
  | PInt a, PInt b => PInt (a + b)
  | _, _ => PFloat (f64_add (to_float x) (to_float y))
  end.

(** [round(x, 2)]: an [int] is returned as it is; a finite [float] goes to
    the nearest 2-place decimal of its exact value (ties to even), then to
    the float nearest that decimal, keeping the sign of a zero; infinities
    and NaN are returned as they are. *)
Definition py_round2 (x : pynum) : pynum :=
  match x with
  | PFloat (FFin neg _ _ as f) =>
      let r := round2 (fval f) in
      if Qeq_bool r 0 then PFloat (FZero neg) else PFloat (f64_of_Q r)
  | _ => x
  end.

(** [x > 0] *)
Definition py_gt0 (x : pynum) : bool :=
  match x with
  | PInt n => 0 <? n
  | PFloat (FFin false _ _) | PFloat (FInf false) => true
  | PFloat _ => false
  end.

(** BSON stores an [int] as a 64-bit integer; PyMongo raises
    [OverflowError] on an [int] outside that range. *)
Definition int64_ok (n : Z) : bool := (- 2 ^ 63 <=? n) && (n <? 2 ^ 63).

Definition bson_ok (x : pynum) : bool :=
  match x with PInt n => int64_ok n | PFloat _ => true end.

(** [x] is a Python number whose value is [v]: an [int] equal to [v], or
    the [float] nearest to [v]. *)
Definition num_is (x : pynum) (v : Q) : Prop :=
  match x with
  | PInt z => (inject_Z z == v)%Q
  | PFloat f => f = f64_of_Q v
  end.

(** [v] is a nonnegative multiple of [1/8] below [2^50]: a binary64 value. *)
Definition repr8 (v : Q) : Prop :=
  exists M, 0 <= M < 2 ^ 53 /\ (v == inject_Z M * (1 # 8))%Q.

(** ** Strings *)

Open Scope char_scope.

Definition is_space (c : ascii) : bool :=
  match c with
  | " " | "009" | "010" | "011" | "012" | "013" => true
  | _ => false
  end.

Fixpoint drop_spaces (cs : list ascii) : list ascii :=
  match cs with
  | c :: r => if is_space c then drop_spaces r else cs
  | [] => []
  end.

(** [str.strip()] on ASCII whitespace. *)
Definition strip_chars (cs : list ascii) : list ascii :=
  rev (drop_spaces (rev (drop_spaces cs))).

Definition py_strip (s : string) : string :=
  string_of_list_ascii (strip_chars (list_ascii_of_string s)).

(** [str.split(sep)]: the pieces between separators, keeping empty ones. *)
Fixpoint split_chars (sep : ascii) (cs : list ascii) : list (list ascii) :=
  match cs with
  | [] => [[]]
  | c :: r =>
      if Ascii.eqb c sep then [] :: split_chars sep r
      else match split_chars sep r with
           | p :: ps => (c :: p) :: ps
           | [] => [[c]]
           end
  end.

Definition py_split (sep : ascii) (s : string) : list string :=
  map string_of_list_ascii (split_chars sep (list_ascii_of_string s)).

(** [sep in s] *)
Definition has_char (c : ascii) (s : string) : bool :=
  existsb (Ascii.eqb c) (list_ascii_of_string s).

(** [s.replace(c, '')] for a one-character [c]. *)
Definition remove_char (c : ascii) (s : string) : string :=
  string_of_list_ascii
    (filter (fun d => negb (Ascii.eqb c d)) (list_ascii_of_string s)).

(** [str.upper()] on ASCII letters. *)
Definition upper_char (c : ascii) : ascii :=
  let n := nat_of_ascii c in
  if andb (Nat.leb 97 n) (Nat.leb n 122) then ascii_of_nat (n - 32) else c.

Definition py_upper (s : string) : string :=
  string_of_list_ascii (map upper_char (list_ascii_of_string s)).

(** [str.startswith(p)] *)
Definition startswith (p s : string) : bool := String.prefix p s.

Definition digit_value (c : ascii) : option Z :=
  let n := nat_of_ascii c in
  if andb (Nat.leb 48 n) (Nat.leb n 57) then Some (Z.of_nat n - 48)%Z
  else None.

(** Digits of a Python integer literal: at least one digit, single
    underscores allowed between digits. [prev_us] records that the last
    character read was an underscore. *)
Fixpoint parse_digits (cs : list ascii) (acc : Z) (seen prev_us : bool)
  : option Z :=
  match cs with
  | [] => if andb seen (negb prev_us) then Some acc else None
  | c :: r =>
      if Ascii.eqb c "_" then
        if andb seen (negb prev_us) then parse_digits r acc seen true
        else None
      else match digit_value c with
           | Some d => parse_digits r (acc * 10 + d)%Z true false
           | None => None
           end
  end.

(** [int(s)] on a [str]: [None] is the [ValueError] Python raises. *)
Definition py_int (s : string) : option Z :=
  match strip_chars (list_ascii_of_string s) with
  | "+" :: r => parse_digits r 0 false false
  | "-" :: r => option_map Z.opp (parse_digits r 0 false false)
  | r => parse_digits r 0 false false
  end.

Close Scope char_scope.

(** ** Documents *)

(** The [status] strings written by the handlers. *)
Inductive status :=
| PendingPayment   (* "Pending Payment" *)
| Confirmed        (* "Confirmed" *)
| Active           (* "Active" *)
| Completed        (* "Completed" *)
| CancelledUser    (* "Cancelled (User)" *)
| CancelledNoShow. (* "Cancelled (No Show)" *)

Definition status_eqb (x y : status) : bool :=
  match x, y with
  | PendingPayment, PendingPayment | Confirmed, Confirmed | Active, Active
  | Completed, Completed | CancelledUser, CancelledUser
  | CancelledNoShow, CancelledNoShow => true
  | _, _ => false
  end.

(** [{"$in": ["Active", "Pending Payment", "Confirmed"]}] *)
Definition is_live (s : status) : bool :=
  match s with
  | PendingPayment | Confirmed | Active => true
  | _ => false
  end.

(** A booking document (display-only fields such as [area_name],
    [coordinates] and [created_at] are left out). *)
Record booking := mkBooking {
  b_id : nat;
  b_user : nat;
  b_area : nat;
  b_start : Z;
  b_end : Z;
  b_grace : Z;
  b_duration : Z;
  b_spots : nat;
  b_status : status;
  b_slot_ids : list string;
  b_amount : pynum;
  b_booking_token : string;
  b_exit_token : string;
  b_vehicle : string;
  b_refund : option pynum;
  b_cancel_reason : option string;
  b_check_in : option Z;
  b_check_out : option Z;
  b_penalty_applied : bool;
  b_overdue_hours : option Z;
  b_reminder_sent : bool
}.

(** A parking area document; [a_price] is [None] when the field is
    absent ([area.get("price", 20)]). *)
Record area := mkArea {
  a_id : nat;
  a_capacity : Z;
  a_occupied : Z;
  a_price : option pynum
}.

Definition area_price (a : area) : pynum :=
  match a_price a with Some p => p | None => PInt 20 end.

(** A [slot_locks] document. *)
Record lock := mkLock {
  l_area : nat;
  l_slot : string;
  l_user : nat;
  l_expires : Z
}.

(** A [slot_preferences] document. *)
Record pref := mkPref {
  p_user : nat;
  p_area : nat;
  p_level : Z
}.

(** A [slots] document. *)
Record slot := mkSlot {
  s_area : nat;
  s_level : Z;
  s_number : string;
  s_is_bike : bool
}.

(** Notification messages, by the handler that writes them. *)
Inductive message :=
| MsgPaymentConfirmed
| MsgNoShowSlot (level : Z)
| MsgReminder
| MsgEntry
| MsgExit.

Record notification := mkNotification {
  n_user : nat;
  n_msg : message
}.

(** The logged-in user ([current_user]). *)
Record user := mkUser {
  u_id : nat;
  u_is_admin : bool;
  u_managed_area : option nat;
  u_vehicle : string
}.

(** [current_user.is_admin or current_user.managed_area_id] *)
Definition is_staff (u : user) : bool :=
  u_is_admin u || match u_managed_area u with Some _ => true | None => false end.

(** [not vehicle_number or vehicle_number == "Not Set"] is the failing test. *)
Definition profile_ok (u : user) : bool :=
  negb (String.eqb (u_vehicle u) "") && negb (String.eqb (u_vehicle u) "Not Set").

(** The database.  [next_id] is the source of fresh [ObjectId]s. *)
Record db := mkDb {
  bookings : list booking;
  areas : list area;
  slot_locks : list lock;
  slot_prefs : list pref;
  notifications : list notification;
  slots : list slot;
  next_id : nat
}.

Definition set_bookings (bs : list booking) (s : db) : db :=
  mkDb bs (areas s) (slot_locks s) (slot_prefs s) (notifications s) (slots s) (next_id s).
Definition set_areas (as_ : list area) (s : db) : db :=
  mkDb (bookings s) as_ (slot_locks s) (slot_prefs s) (notifications s) (slots s) (next_id s).
Definition set_locks (ls : list lock) (s : db) : db :=
  mkDb (bookings s) (areas s) ls (slot_prefs s) (notifications s) (slots s) (next_id s).
Definition set_notifications (ns : list notification) (s : db) : db :=
  mkDb (bookings s) (areas s) (slot_locks s) (slot_prefs s) ns (slots s) (next_id s).
Definition set_next_id (n : nat) (s : db) : db :=
  mkDb (bookings s) (areas s) (slot_locks s) (slot_prefs s) (notifications s) (slots s) n.

(** ** The state-and-exception monad *)

(** Python exceptions the handlers can raise ([WriteError] is PyMongo's
    report of a failed update). *)
Inductive exn := ValueError | AttributeError | OverflowError | WriteError.

(** [math.ceil(x)] *)
Definition py_ceil (x : float64) : Z + exn :=
  match x with
  | FZero _ => inl 0
  | FFin _ _ _ => inl (Qceiling (fval x))
  | FInf _ => inr OverflowError
  | FNaN => inr ValueError
  end.

(** [{"$inc": {field: v}}] on a stored number [cur]: PyMongo encodes [v]
    first; the server adds two integers exactly, failing outside the 64-bit
    range, and otherwise adds in binary64. *)
Definition mongo_inc (cur v : pynum) : pynum + exn :=
  if negb (bson_ok v) then inr OverflowError else
  match cur, v with
  | PInt a, PInt b => if int64_ok (a + b) then inl (PInt (a + b)) else inr WriteError
  | _, _ => inl (PFloat (f64_add (to_float cur) (to_float v)))
  end.

Definition M (A : Type) : Type := db -> (A + exn) * db.

Definition ret {A} (a : A) : M A := fun s => (inl a, s).
Definition bind {A B} (m : M A) (k : A -> M B) : M B :=
  fun s => match m s with
           | (inl a, s') => k a s'
           | (inr e, s') => (inr e, s')
           end.
Definition raise {A} (e : exn) : M A := fun s => (inr e, s).
Definition gets {A} (f : db -> A) : M A := fun s => (inl (f s), s).
Definition modify (f : db -> db) : M unit := fun s => (inl tt, f s).

Notation "x <- m ;; k" := (bind m (fun x => k))
  (at level 61, m at next level, right associativity).
Notation "m ;;; k" := (bind m (fun _ : unit => k))
  (at level 61, right associativity).

Fixpoint iterM {A} (f : A -> M unit) (l : list A) : M unit :=
  match l with
  | [] => ret tt
  | x :: r => f x ;;; iterM f r
  end.

(** ** Collection primitives *)

(** [update_one(filter, ...)]: rewrite the first match. *)
Fixpoint update_first {A} (p : A -> bool) (f : A -> A) (l : list A) : list A :=
  match l with
  | [] => []
  | x :: r => if p x then f x :: r else x :: update_first p f r
  end.

(** [delete_one(filter)]: remove the first match. *)
Fixpoint delete_first {A} (p : A -> bool) (l : list A) : list A :=
  match l with
  | [] => []
  | x :: r => if p x then r else x :: delete_first p r
  end.

Definition find_area (aid : nat) (s : db) : option area :=
  find (fun a => Nat.eqb (a_id a) aid) (areas s).

(** [{"$inc": {"occupied": delta}}] on the area [aid]. *)
Definition inc_occupied (aid : nat) (delta : Z) : M unit :=
  modify (fun s => set_areas
    (update_first (fun a => Nat.eqb (a_id a) aid)
       (fun a => mkArea (a_id a) (a_capacity a) (a_occupied a + delta) (a_price a))
       (areas s)) s).

(** [{"$set": {"occupied": v}}] on the area [aid]. *)
Definition set_occupied (aid : nat) (v : Z) : M unit :=
  modify (fun s => set_areas
    (update_first (fun a => Nat.eqb (a_id a) aid)
       (fun a => mkArea (a_id a) (a_capacity a) v (a_price a))
       (areas s)) s).

Definition update_booking (bid : nat) (f : booking -> booking) : M unit :=
  modify (fun s => set_bookings
    (update_first (fun b => Nat.eqb (b_id b) bid) f (bookings s)) s).

Definition notify (uid : nat) (m : message) : M unit :=
  modify (fun s => set_notifications (notifications s ++ [mkNotification uid m]) s).

Definition with_status (st : status) (b : booking) : booking :=
  mkBooking (b_id b) (b_user b) (b_area b) (b_start b) (b_end b) (b_grace b)
    (b_duration b) (b_spots b) st (b_slot_ids b) (b_amount b)
    (b_booking_token b) (b_exit_token b) (b_vehicle b) (b_refund b) (b_cancel_reason b)
    (b_check_in b) (b_check_out b) (b_penalty_applied b) (b_overdue_hours b)
    (b_reminder_sent b).

(** ** [book_spot]: [POST /book] *)

(** The [booking_time] form field: absent or empty, not accepted by
    [strptime(.., "%Y-%m-%dT%H:%M")], or parsed to a datetime. *)
Inductive time_field :=
| TimeMissing
| TimeUnparsable
| TimeAt (t : Z).

Record book_req := mkBookReq {
  rq_area : option nat;          (* [area_id] *)
  rq_time : time_field;          (* [booking_time] *)
  rq_duration : Z;               (* [int(duration)] *)
  rq_slot_str : option string    (* [slot_id], comma separated *)
}.

Inductive book_error :=
| MissingInput | EmptySelection | ProfileIncomplete | InvalidDate
| AreaNotFound | SlotCollision | SlotLocked.

Inductive book_outcome :=
| BookFail (e : book_error)
| BookOk (bid : nat).

(** [[s.strip() for s in str.split(',') if s.strip()] if str else []] *)
Definition parse_slot_ids (o : option string) : list string :=
  match o with
  | None => []
  | Some str =>
      map py_strip
        (filter (fun p => negb (String.eqb (py_strip p) "")) (py_split "," str))
  end.

Definition mem_string (x : string) (l : list string) : bool :=
  existsb (String.eqb x) l.

(** The collision query of [book_spot]. *)
Definition collides (aid : nat) (start end_ : Z) (sel : list string)
  (b : booking) : bool :=
  Nat.eqb (b_area b) aid && is_live (b_status b)
  && (b_start b <? end_) && (start <? b_end b)
  && existsb (fun sid => mem_string sid sel) (b_slot_ids b).

Definition lock_key (aid : nat) (sid : string) (l : lock) : bool :=
  Nat.eqb (l_area l) aid && String.eqb (l_slot l) sid.

(** Step 4.1: is some selected slot locked by another user? *)
Definition locked_by_other (uid aid : nat) (locks : list lock) (sel : list string)
  : bool :=
  existsb (fun sid =>
             match find (lock_key aid sid) locks with
             | Some l => negb (Nat.eqb (l_user l) uid)
             | None => false
             end) sel.

(** Step 5: the price of one slot per hour, [base_price * 0.5] for a bike
    slot. *)
Definition slot_price (base : pynum) (sid : string) : pynum :=
  if startswith "B-" sid then py_mul base (PFloat (float_lit (1 # 2))) else base.

(** [total_amount = 0], then [total_amount += slot_price * duration]. *)
Definition total_amount (base : pynum) (duration : Z) (sel : list string) : pynum :=
  fold_left (fun acc sid => py_add acc (py_mul (slot_price base sid) (PInt duration)))
    sel (PInt 0).

(** [round(total_amount, 2)], after [total_amount * 0.25] for staff. *)
Definition booking_amount (u : user) (base : pynum) (duration : Z)
  (sel : list string) : pynum :=
  let t := total_amount base duration sel in
  py_round2 (if is_staff u then py_mul t (PFloat (float_lit (1 # 4))) else t).

Definition fresh_id : M nat :=
  n <- gets next_id ;;
  modify (set_next_id (S n)) ;;;
  ret n.

Definition insert_booking (b : booking) : M unit :=
  modify (fun s => set_bookings (bookings s ++ [b]) s).

(** [delete_many({"user_id": uid, "area_id": aid})] on [slot_locks]. *)
Definition release_user_locks (uid aid : nat) : M unit :=
  modify (fun s => set_locks
    (filter (fun l => negb (Nat.eqb (l_user l) uid && Nat.eqb (l_area l) aid))
       (slot_locks s)) s).

Definition book_spot (u : user) (rq : book_req) (tok tok_exit : string)
  : M book_outcome :=
  match rq_area rq, rq_time rq with
  | None, _ | _, TimeMissing => ret (BookFail MissingInput)
  | Some aid, tf =>
    let sel := parse_slot_ids (rq_slot_str rq) in
    let spots := List.length sel in
    if Nat.eqb spots 0 then ret (BookFail EmptySelection) else
    if negb (profile_ok u) then ret (BookFail ProfileIncomplete) else
    match tf with
    | TimeMissing | TimeUnparsable => ret (BookFail InvalidDate)
    | TimeAt start =>
      let duration := rq_duration rq in
      match add_hours start duration with
      | None => raise OverflowError   (* not caught by [except ValueError] *)
      | Some end_ =>
        oa <- gets (find_area aid) ;;
        match oa with
        | None => ret (BookFail AreaNotFound)
        | Some a =>
          coll <- gets (fun s => find (collides aid start end_ sel) (bookings s)) ;;
          match coll with
          | Some _ => ret (BookFail SlotCollision)
          | None =>
            lk <- gets (fun s => locked_by_other (u_id u) aid (slot_locks s) sel) ;;
            if lk then ret (BookFail SlotLocked) else
            let amount := booking_amount u (area_price a) duration sel in
            (* [start_time + timedelta(minutes=15)] *)
            if negb (dt_ok (start + 15 * minute_us)) then raise OverflowError else
            (* [insert_one] encodes the document *)
            if negb (bson_ok amount) then raise OverflowError else
            bid <- fresh_id ;;
            insert_booking
              (mkBooking bid (u_id u) aid start end_ (start + 15 * minute_us)
                 duration spots PendingPayment sel amount tok tok_exit
                 (u_vehicle u) None None None None false None false) ;;;
            set_occupied aid (a_occupied a + Z.of_nat spots) ;;;
            release_user_locks (u_id u) aid ;;;
            ret (BookOk bid)
          end
        end
      end
    end
  end.

(** ** [pay_booking]: [POST /pay/<booking_id>]

    [find_one_and_update({"_id": id, "user_id": me}, {"$set": {"status":
    "Confirmed"}})]; a notification is written when a document matched.
    The handler then always flashes "Payment successful!". *)

Definition owned (uid bid : nat) (b : booking) : bool :=
  Nat.eqb (b_id b) bid && Nat.eqb (b_user b) uid.

Definition pay_booking (u : user) (bid : nat) : M unit :=
  ob <- gets (fun s => find (owned (u_id u) bid) (bookings s)) ;;
  modify (fun s => set_bookings
    (update_first (owned (u_id u) bid) (with_status Confirmed) (bookings s)) s) ;;;
  match ob with
  | Some _ => notify (u_id u) MsgPaymentConfirmed
  | None => ret tt
  end.

(** ** [cancel_booking]: [POST /cancel_booking/<booking_id>] *)

Inductive cancel_outcome :=
| CancelNotFound | CancelDeleted | CancelFee | CancelBadStatus.

(** [{"$set": {"status": st, "refund_amount": r, "cancellation_reason":
    reason}}] *)
Definition with_refund (st : status) (r : pynum) (reason : string) (b : booking)
  : booking :=
  mkBooking (b_id b) (b_user b) (b_area b) (b_start b) (b_end b) (b_grace b)
    (b_duration b) (b_spots b) st (b_slot_ids b) (b_amount b)
    (b_booking_token b) (b_exit_token b) (b_vehicle b) (Some r) (Some reason)
    (b_check_in b) (b_check_out b) (b_penalty_applied b) (b_overdue_hours b)
    (b_reminder_sent b).

Definition cancel_booking (u : user) (bid : nat) : M cancel_outcome :=
  ob <- gets (fun s => find (owned (u_id u) bid) (bookings s)) ;;
  match ob with
  | None => ret CancelNotFound
  | Some b =>
    match b_status b with
    | PendingPayment =>
      modify (fun s => set_bookings
        (delete_first (fun x => Nat.eqb (b_id x) bid) (bookings s)) s) ;;;
      inc_occupied (b_area b) (- Z.of_nat (b_spots b)) ;;;
      ret CancelDeleted
    | Confirmed =>
      let refund := py_mul (b_amount b) (PFloat (float_lit (9 # 10))) in
      update_booking (b_id b)
        (with_refund CancelledUser (py_round2 refund) "User cancelled after payment.") ;;;
      inc_occupied (b_area b) (- Z.of_nat (b_spots b)) ;;;
      ret CancelFee
    | _ => ret CancelBadStatus
    end
  end.

(** ** [extend_booking]: [POST /extend_booking/<booking_id>]

    The body sits in [try: ... except Exception]: a missing area
    ([None.get]), a [timedelta] or datetime overflow, and a failed update
    all end in the [except] branch with no write. *)

Inductive extend_outcome :=
| ExtendNotFound | ExtendFailed | ExtendCollision | ExtendOk.

(** [{"$set": {"end_time": new_end}, "$inc": {"amount": .., "duration":
    hours}}], [amount] being the result of the [$inc]. *)
Definition with_extension (new_end : Z) (amount : pynum) (hours : Z) (b : booking)
  : booking :=
  mkBooking (b_id b) (b_user b) (b_area b) (b_start b) new_end (b_grace b)
    (b_duration b + hours) (b_spots b) (b_status b) (b_slot_ids b) amount
    (b_booking_token b) (b_exit_token b) (b_vehicle b) (b_refund b) (b_cancel_reason b)
    (b_check_in b) (b_check_out b) (b_penalty_applied b) (b_overdue_hours b)
    (b_reminder_sent b).

Definition extend_collides (b : booking) (new_end : Z) (x : booking) : bool :=
  Nat.eqb (b_area x) (b_area b)
  && existsb (fun sid => mem_string sid (b_slot_ids b)) (b_slot_ids x)
  && is_live (b_status x)
  && negb (Nat.eqb (b_id x) (b_id b))
  && (b_start x <? new_end) && (b_end b <? b_end x).

Definition extend_booking (u : user) (bid : nat) (hours : Z) : M extend_outcome :=
  ob <- gets (fun s => find (owned (u_id u) bid) (bookings s)) ;;
  match ob with
  | None => ret ExtendNotFound
  | Some b =>
    oa <- gets (find_area (b_area b)) ;;
    match oa with
    | None => ret ExtendFailed
    | Some a =>
      let cost := fold_left
        (fun acc sid => py_add acc (py_mul (slot_price (area_price a) sid) (PInt hours)))
        (b_slot_ids b) (PInt 0) in
      match add_hours (b_end b) hours with
      | None => ret ExtendFailed
      | Some new_end =>
        coll <- gets (fun s => find (extend_collides b new_end) (bookings s)) ;;
        match coll with
        | Some _ => ret ExtendCollision
        | None =>
          match mongo_inc (b_amount b) (py_round2 cost),
                mongo_inc (PInt (b_duration b)) (PInt hours) with
          | inl amount, inl _ =>
            update_booking bid (with_extension new_end amount hours) ;;;
            ret ExtendOk
          | _, _ => ret ExtendFailed
          end
        end
      end
    end
  end.

(** ** [verify_booking]: [POST /admin/verify_booking] (check-in and check-out) *)

Inductive verify_outcome :=
| VNotManager | VInvalid | VUnauthorized
| VCheckedIn | VAlreadyActive | VCannotCheckIn
| VCheckedOut (penalty : pynum) | VNotYetActive | VNotActive.

Definition with_check_in (t : Z) (b : booking) : booking :=
  mkBooking (b_id b) (b_user b) (b_area b) (b_start b) (b_end b) (b_grace b)
    (b_duration b) (b_spots b) Active (b_slot_ids b) (b_amount b)
    (b_booking_token b) (b_exit_token b) (b_vehicle b) (b_refund b) (b_cancel_reason b)
    (Some t) (b_check_out b) (b_penalty_applied b) (b_overdue_hours b)
    (b_reminder_sent b).

(** The [$set] of the check-out, with, for a positive penalty, the
    [$inc] result [amount] and the overdue hours. *)
Definition with_check_out (t : Z) (pen : option (pynum * Z)) (b : booking)
  : booking :=
  match pen with
  | Some (amount, overdue) =>
    mkBooking (b_id b) (b_user b) (b_area b) (b_start b) (b_end b) (b_grace b)
      (b_duration b) (b_spots b) Completed (b_slot_ids b) amount
      (b_booking_token b) (b_exit_token b) (b_vehicle b) (b_refund b) (b_cancel_reason b)
      (b_check_in b) (Some t) true (Some overdue) (b_reminder_sent b)
  | None =>
    mkBooking (b_id b) (b_user b) (b_area b) (b_start b) (b_end b) (b_grace b)
      (b_duration b) (b_spots b) Completed (b_slot_ids b) (b_amount b)
      (b_booking_token b) (b_exit_token b) (b_vehicle b) (b_refund b) (b_cancel_reason b)
      (b_check_in b) (Some t) (b_penalty_applied b) (b_overdue_hours b)
      (b_reminder_sent b)
  end.

(** The hourly rate of the check-out flow. *)
Definition hourly_rate (base : pynum) (sids : list string) : pynum :=
  fold_left (fun acc sid => py_add acc (slot_price base sid)) sids (PInt 0).

(** The overstay computation: [(penalty_amount, overdue_hours)], with
    [overdue_seconds = (check_out_time - end_time).total_seconds()] and
    [overdue_hours = math.ceil(overdue_seconds / 3600)]. *)
Definition overstay (now : Z) (b : booking) : M (pynum * Z) :=
  if b_end b <? now then
    oa <- gets (find_area (b_area b)) ;;
    match oa with
    | None => raise AttributeError   (* [None.get("price", 20)] *)
    | Some a =>
      let rate := hourly_rate (area_price a) (b_slot_ids b) in
      let secs := py_truediv (now - b_end b) second_us in
      match py_ceil (f64_div_int secs 3600) with
      | inr e => raise e
      | inl hours => ret (py_mul (py_mul (PInt hours) rate) (PInt 2), hours)
      end
    end
  else ret (PInt 0, 0).

Definition check_out (now : Z) (b : booking) : M verify_outcome :=
  po <- overstay now b ;;
  let (penalty, hours) := po in
  pen <- (if py_gt0 penalty then
            match mongo_inc (b_amount b) penalty with
            | inl amount => ret (Some (amount, hours))
            | inr e => raise e
            end
          else ret None) ;;
  update_booking (b_id b) (with_check_out now pen) ;;;
  inc_occupied (b_area b) (- Z.of_nat (b_spots b)) ;;;
  notify (b_user b) MsgExit ;;;
  ret (VCheckedOut penalty).

Definition token_match (vehicle token : string) (b : booking) : bool :=
  String.eqb (b_vehicle b) vehicle
  && (String.eqb (b_booking_token b) token || String.eqb (b_exit_token b) token).

Definition verify_booking (u : user) (now : Z) (token_in vehicle_in : string)
  : M verify_outcome :=
  match u_managed_area u with
  | None => ret VNotManager
  | Some m =>
    let token := py_upper (py_strip token_in) in
    let vehicle := py_upper (py_strip vehicle_in) in
    ob <- gets (fun s => find (token_match vehicle token) (bookings s)) ;;
    match ob with
    | None => ret VInvalid
    | Some b =>
      if negb (Nat.eqb (b_area b) m) then ret VUnauthorized else
      if String.eqb (b_booking_token b) token then
        match b_status b with
        | Confirmed | PendingPayment =>
          update_booking (b_id b) (with_check_in now) ;;;
          notify (b_user b) MsgEntry ;;;
          ret VCheckedIn
        | Active => ret VAlreadyActive
        | _ => ret VCannotCheckIn
        end
      else if String.eqb (b_exit_token b) token then
        match b_status b with
        | Active => check_out now b
        | Confirmed | PendingPayment => ret VNotYetActive
        | _ => ret VNotActive
        end
      else ret VInvalid
    end
  end.

(** ** The reconciliation sweeps *)

(** [int(slot_id.split('-')[0].replace('L', '')) if '-' in slot_id else 1] *)
Definition level_of (sid : string) : M Z :=
  if has_char "-"%char sid then
    match py_int (remove_char "L"%char (hd ""%string (py_split "-"%char sid))) with
    | Some z => ret z
    | None => raise ValueError
    end
  else ret 1.

Definition notify_level (aid : nat) (sid : string) : M unit :=
  level <- level_of sid ;;
  ps <- gets (fun s => filter (fun p => Nat.eqb (p_area p) aid && (p_level p =? level))
                          (slot_prefs s)) ;;
  iterM (fun p => notify (p_user p) (MsgNoShowSlot level)) ps.

(** One iteration of the loop of [check_no_shows]. *)
Definition no_show_one (b : booking) : M unit :=
  let refund := py_mul (b_amount b) (PFloat (float_lit (9 # 10))) in
  update_booking (b_id b) (with_refund CancelledNoShow refund "Grace period expired") ;;;
  inc_occupied (b_area b) (- Z.of_nat (b_spots b)) ;;;
  iterM (notify_level (b_area b)) (b_slot_ids b).

Definition expired (area_filter : option nat) (now : Z) (b : booking) : bool :=
  status_eqb (b_status b) Confirmed && (b_grace b <? now)
  && match area_filter with
     | Some aid => Nat.eqb (b_area b) aid
     | None => true
     end.

Definition check_no_shows (area_filter : option nat) (now : Z) : M unit :=
  bs <- gets (fun s => filter (expired area_filter now) (bookings s)) ;;
  iterM no_show_one bs.

Definition with_reminder (b : booking) : booking :=
  mkBooking (b_id b) (b_user b) (b_area b) (b_start b) (b_end b) (b_grace b)
    (b_duration b) (b_spots b) (b_status b) (b_slot_ids b) (b_amount b)
    (b_booking_token b) (b_exit_token b) (b_vehicle b) (b_refund b) (b_cancel_reason b)
    (b_check_in b) (b_check_out b) (b_penalty_applied b) (b_overdue_hours b)
    true.

Definition check_expiry_reminders (now : Z) : M unit :=
  bs <- gets (fun s => filter (fun b => status_eqb (b_status b) Active
                                   && (b_end b <=? now + 15 * minute_us)
                                   && (now <? b_end b)
                                   && negb (b_reminder_sent b)) (bookings s)) ;;
  iterM (fun b => notify (b_user b) MsgReminder ;;;
                  update_booking (b_id b) with_reminder) bs.

(** ** The slot lock manager *)

Definition cleanup_locks (now : Z) : M unit :=
  modify (fun s => set_locks (filter (fun l => negb (l_expires l <? now)) (slot_locks s)) s).

Inductive lock_outcome := LockHeld | LockOk.

(** [update_one(key, {"$set": ...}, upsert=True)] *)
Definition upsert_lock (aid : nat) (sid : string) (uid : nat) (exp : Z)
  (ls : list lock) : list lock :=
  match find (lock_key aid sid) ls with
  | Some _ => update_first (lock_key aid sid) (fun _ => mkLock aid sid uid exp) ls
  | None => ls ++ [mkLock aid sid uid exp]
  end.

Definition lock_slot (u : user) (now : Z) (aid : nat) (sid : string)
  : M lock_outcome :=
  cleanup_locks now ;;;
  ex <- gets (fun s => find (lock_key aid sid) (slot_locks s)) ;;
  match ex with
  | Some l => if negb (Nat.eqb (l_user l) (u_id u)) then ret LockHeld
              else modify (fun s => set_locks
                     (upsert_lock aid sid (u_id u) (now + 5 * minute_us) (slot_locks s)) s) ;;;
                   ret LockOk
  | None => modify (fun s => set_locks
              (upsert_lock aid sid (u_id u) (now + 5 * minute_us) (slot_locks s)) s) ;;;
            ret LockOk
  end.

Definition unlock_slot (u : user) (aid : nat) (sid : string) : M unit :=
  modify (fun s => set_locks
    (delete_first (fun l => lock_key aid sid l && Nat.eqb (l_user l) (u_id u))
       (slot_locks s)) s).

(** ** Whole-store operations *)

(** Every lifecycle and sweeper handler, with its request arguments. *)
Inductive op :=
| OpBook (u : user) (rq : book_req) (tok tok_exit : string)
| OpPay (u : user) (bid : nat)
| OpCancel (u : user) (bid : nat)
| OpExtend (u : user) (bid : nat) (hours : Z)
| OpVerify (u : user) (now : Z) (token vehicle : string)
| OpNoShows (area_filter : option nat) (now : Z)
| OpReminders (now : Z).

(** The store once the handler has returned or raised. *)
Definition exec (o : op) (s : db) : db :=
  match o with
  | OpBook u rq t1 t2 => snd (book_spot u rq t1 t2 s)
  | OpPay u bid => snd (pay_booking u bid s)
  | OpCancel u bid => snd (cancel_booking u bid s)
  | OpExtend u bid h => snd (extend_booking u bid h s)
  | OpVerify u now t v => snd (verify_booking u now t v s)
  | OpNoShows f now => snd (check_no_shows f now s)
  | OpReminders now => snd (check_expiry_reminders now s)
  end.

(** ** Occupancy accounting *)

(** The spots a booking holds in area [aid]: its [spots] while its status
    is live, nothing otherwise. *)
Definition contrib (aid : nat) (b : booking) : Z :=
  if Nat.eqb (b_area b) aid && is_live (b_status b) then Z.of_nat (b_spots b)
  else 0.

(** The sum of [spots] over the live bookings of area [aid]. *)
Definition live_sum (aid : nat) (bs : list booking) : Z :=
  fold_right (fun b acc => contrib aid b + acc) 0 bs.

(** The occupancy invariant, with the well-formedness of identifiers that
    [find_one]/[update_one] by [_id] rely on. *)
Definition accounting (as_ : list area) (bs : list booking) (n : nat) : Prop :=
  NoDup (map a_id as_)
  /\ NoDup (map b_id bs)
  /\ Forall (fun b => (b_id b < n)%nat) bs
  /\ Forall (fun a => a_occupied a = live_sum (a_id a) bs) as_.

Definition occ_inv (s : db) : Prop := accounting (areas s) (bookings s) (next_id s).

(** [ConfirmPayment] applied to a booking that is live (or to none). *)
Definition pay_on_live (o : op) (s : db) : Prop :=
  match o with
  | OpPay u bid =>
      match find (owned (u_id u) bid) (bookings s) with
      | Some b => is_live (b_status b) = true
      | None => True
      end
  | _ => True
  end.

(** ** The overlap rule of the availability resolver (spec 4.2 step 3) *)

(** Spec reading: [b.start < window.end AND effectiveEnd > window.start],
    [effectiveEnd = max(b.end, now)] for an Active booking. *)
Definition spec_overlaps (now start end_ : Z) (b : booking) : bool :=
  let eff := if status_eqb (b_status b) Active then Z.max (b_end b) now
             else b_end b in
  (b_start b <? end_) && (start <? eff).

(** Spec reading of [SlotCollision] for a Create request. *)
Definition spec_slot_collision (now : Z) (aid : nat) (start end_ : Z)
  (sel : list string) (bs : list booking) : bool :=
  existsb (fun b => Nat.eqb (b_area b) aid && is_live (b_status b)
                    && existsb (fun sid => mem_string sid sel) (b_slot_ids b)
                    && spec_overlaps now start end_ b) bs.

(** ** Lock keys *)

(** The key of a [slot_locks] document, [(area_id, slot_id)]. *)
Definition lock_id (l : lock) : nat * string := (l_area l, l_slot l).

(** No two lock documents share a key. *)
Definition lock_inv (s : db) : Prop := NoDup (map lock_id (slot_locks s)).

(** ** Spec readings of the pricing rules (spec 4.3) *)

(** "bike-category slots bill at 50% of the area base rate and all other
    categories bill at 100%"; a slot id names a bike slot when it has the
    [B-] prefix that [seed.py] and [add_parking_area] give bike slots. *)
Definition spec_rate (p : Q) (sid : string) : Q :=
  if startswith "B-" sid then ((1 # 2) * p)%Q else p.

(** "amount = Σ over slots of (categoryRate(slot) × durationHours)", times
    0.25 for staff, rounded to 2 decimal places. *)
Definition spec_amount (staff : bool) (p : Q) (d : Z) (sel : list string) : Q :=
  round2 ((if staff then 1 # 4 else 1)
          * fold_right (fun sid acc => spec_rate p sid * inject_Z d + acc) 0 sel)%Q.


(** Twice the cost of a slot for [d] hours at base price [p]. *)
Definition half_units (p d : Z) (sid : string) : Z :=
  if startswith "B-" sid then p * d else 2 * p * d.

Fixpoint sumZ (c : string -> Z) (l : list string) : Z :=
  match l with [] => 0 | x :: r => c x + sumZ c r end.

(** ** Sample stores used by the concrete runs *)

Definition t_2026 : Z := 1767225600 * second_us.   (* 2026-01-01T00:00 *)

Definition rider : user := mkUser 1 false None "MH01AB1234".
Definition other_rider : user := mkUser 2 false None "MH02CD5678".
Definition area_manager : user := mkUser 3 false (Some 1%nat) "MH03EF9012".

Definition area20 : area := mkArea 1 50 0 (Some (PInt 20)).
Definition db_area20 : db := mkDb [] [area20] [] [] [] [] 0.

Definition req (slot_str : string) (duration : Z) : book_req :=
  mkBookReq (Some 1%nat) (TimeAt t_2026) duration (Some slot_str).

(** A booking document of area 1 with the given fields. *)
Definition mk_sample (bid uid : nat) (st : status) (start end_ : Z)
  (sids : list string) (amount : pynum) (tok tok_exit : string) : booking :=
  mkBooking bid uid 1 start end_ (start + 15 * minute_us)
    ((end_ - start) / hour_us) (List.length sids) st sids amount tok tok_exit
    "MH01AB1234" None None None None false None false.

(** An area with a single place, and the Create that books two slots in it. *)
Definition area_cap1 : area := mkArea 1 1 0 (Some (PInt 20)).
Definition db_cap1 : db := mkDb [] [area_cap1] [] [] [] [] 0.
Definition overbook : op := OpBook rider (req "C-01,C-02" 1) "A1B2C3D4" "E5F6A7B8".

(** An Active booking of slot [C-01] whose window ended an hour ago, and a
    Create for that slot starting half an hour after its end. *)
Definition parked : booking :=
  mk_sample 0 2 Active t_2026 (t_2026 + hour_us) ["C-01"%string] (PInt 20) "P0Q1R2S3" "T4U5V6W7".
Definition db_parked : db := mkDb [parked] [mkArea 1 50 1 (Some (PInt 20))] [] [] [] [] 1.
Definition req_after_parked : book_req :=
  mkBookReq (Some 1%nat) (TimeAt (t_2026 + 90 * minute_us)) 1 (Some "C-01"%string).

(** A Completed booking of [rider]. *)
Definition finished : booking :=
  mk_sample 0 1 Completed t_2026 (t_2026 + hour_us) ["C-01"%string] (PInt 20) "P0Q1R2S3" "T4U5V6W7".
Definition db_finished : db := mkDb [finished] [area20] [] [] [] [] 1.

(** Two expired Confirmed bookings: a staff booking of bike slot [B-01]
    (base price 50, 1 hour, so 25 × 0.25 = 6.25), then a car booking. *)
Definition bike_noshow : booking :=
  mk_sample 0 3 Confirmed t_2026 (t_2026 + hour_us) ["B-01"%string]
    (PFloat (float_lit (625 # 100))) "P0Q1R2S3" "T4U5V6W7".
Definition car_noshow : booking :=
  mk_sample 1 1 Confirmed t_2026 (t_2026 + hour_us) ["L1-C01"%string] (PInt 50) "A1B2C3D4" "E5F6A7B8".
Definition db_noshow : db :=
  mkDb [bike_noshow; car_noshow] [mkArea 1 50 2 (Some (PInt 50))] [] [mkPref 2 1 1] [] [] 2.

(** A lock of [other_rider] on [C-01] that expired at [t_2026]. *)
Definition stale_lock : lock := mkLock 1 "C-01"%string 2 t_2026.
Definition db_stale : db := mkDb [] [area20] [stale_lock] [] [] [] 0.


(** An area whose base price is the float 10.7. *)
Definition db_price107 : db :=
  mkDb [] [mkArea 1 50 0 (Some (PFloat (float_lit (107 # 10))))] [] [] [] [] 0.




(** ** Sorting for [find(...).sort(...)]

    A stable insertion sort: [le x y] says [x] may come before [y]. *)

Fixpoint insert_by {A} (le : A -> A -> bool) (x : A) (l : list A) : list A :=
  match l with
  | [] => [x]
  | y :: r => if le x y then x :: y :: r else y :: insert_by le x r
  end.

Definition sort_by {A} (le : A -> A -> bool) (l : list A) : list A :=
  fold_right (insert_by le) [] l.

(** ** [get_area_slots]: [GET /api/area/<area_id>/slots] *)

Inductive slot_status := StOccupied | StLocked | StSelected | StAvailable.

(** The requested window: [strptime] failing (or no [start_time]), or the
    end overflowing, falls back to [utcnow()] and [utcnow() + 1h] (the bare
    [except] catches everything). *)
Definition view_window (tf : time_field) (duration now : Z) : Z * Z :=
  match tf with
  | TimeAt t =>
      match add_hours t duration with
      | Some e => (t, e)
      | None => (now, now + hour_us)
      end
  | TimeMissing | TimeUnparsable => (now, now + hour_us)
  end.

(** [sort([("level", 1), ("slot_number", 1)])] *)
Definition slot_le (x y : slot) : bool :=
  (s_level x <? s_level y)
  || ((s_level x =? s_level y)
      && match String.compare (s_number x) (s_number y) with
         | Gt => false
         | _ => true
         end).

(** The booking query of the view. *)
Definition view_query (aid : nat) (start end_ : Z) (b : booking) : bool :=
  Nat.eqb (b_area b) aid
  && (status_eqb (b_status b) Active
      || ((status_eqb (b_status b) PendingPayment || status_eqb (b_status b) Confirmed)
          && (b_start b <? end_) && (start <? b_end b))).

(** The overlap test of the loop, with [max(end_time, utcnow())] for an
    Active booking. *)
Definition view_overlaps (now start end_ : Z) (b : booking) : bool :=
  let b_end' := if status_eqb (b_status b) Active then Z.max (b_end b) now
                else b_end b in
  (b_start b <? end_) && (start <? b_end').

Definition slot_status_of (occupied mine others : list string) (sl : slot)
  : slot_status :=
  if mem_string (s_number sl) occupied then StOccupied
  else if mem_string (s_number sl) others then StLocked
  else if mem_string (s_number sl) mine then StSelected
  else StAvailable.

(** [viewer] is [current_user.id], [None] for an anonymous request. *)
Definition get_area_slots (viewer : option nat) (aid : nat) (tf : time_field)
  (duration now : Z) : M (list (slot * slot_status)) :=
  let (start, end_) := view_window tf duration now in
  cleanup_locks now ;;;
  sls <- gets (fun s => sort_by slot_le
                          (filter (fun x => Nat.eqb (s_area x) aid) (slots s))) ;;
  occ <- gets (fun s => flat_map b_slot_ids
                          (filter (view_overlaps now start end_)
                             (filter (view_query aid start end_) (bookings s)))) ;;
  lks <- gets (fun s => filter (fun l => Nat.eqb (l_area l) aid) (slot_locks s)) ;;
  let mine := match viewer with
              | Some uid => map l_slot (filter (fun l => Nat.eqb (l_user l) uid) lks)
              | None => []
              end in
  let others := match viewer with
                | Some uid => map l_slot (filter (fun l => negb (Nat.eqb (l_user l) uid)) lks)
                | None => map l_slot lks
                end in
  ret (map (fun x => (x, slot_status_of occ mine others x)) sls).

(** ** [set_preference]: [POST /set_preference] *)






(** ** [user_dashboard] ([GET /dashboard]) *)

(** [sort("start_time", -1)] *)
Definition start_desc (x y : booking) : bool := b_start y <=? b_start x.

(** [sort=[("check_in_time", -1)]]: a missing check-in time sorts last. *)
Definition check_in_desc (x y : booking) : bool :=
  match b_check_in x, b_check_in y with
  | _, None => true
  | None, Some _ => false
  | Some a, Some b => b <=? a
  end.

(** [None] is the redirect of a staff user. *)
Definition user_dashboard (u : user) (now : Z)
  : M (option (list booking * option booking)) :=
  if is_staff u then ret None else
  check_no_shows None now ;;;
  check_expiry_reminders now ;;;
  bs <- gets (fun s => sort_by start_desc
                         (filter (fun b => Nat.eqb (b_user b) (u_id u)) (bookings s))) ;;
  la <- gets (fun s => hd_error (sort_by check_in_desc
                         (filter (fun b => Nat.eqb (b_user b) (u_id u)
                                           && status_eqb (b_status b) Active)
                            (bookings s)))) ;;
  ret (Some (bs, la)).

(** ** [int(n * 0.7)]

    Python converts [n] to a double (rounding to nearest, ties to even, and
    raising [OverflowError] when the result is not finite), multiplies by
    the double nearest to 0.7, which is [double_07 / 2^52], rounds the
    product the same way, and [int] truncates toward zero. *)

Definition double_07 : Z := 3152519739159347.

(** [x / 2^e] rounded to nearest, ties to even ([0 <= x], [0 < e]). *)
Definition round_shift (x e : Z) : Z :=
  let q := Z.shiftr x e in
  let r := x - Z.shiftl q e in
  let half := Z.shiftl 1 (e - 1) in
  if r <? half then q
  else if half <? r then q + 1
  else if Z.even q then q else q + 1.

(** [x >= 0] rounded to 53 significant bits: [m * 2^e]. *)
Definition round53 (x : Z) : Z * Z :=
  let e := Z.log2 x - 52 in
  if e <=? 0 then (x, 0) else (round_shift x e, e).

(** [int(n * 0.7)] for [n >= 0]; [None] is the [OverflowError]. *)
Definition int_times_07_nonneg (n : Z) : option Z :=
  let (m1, e1) := round53 n in
  if 2 ^ 1024 <=? m1 * 2 ^ e1 then None
  else let (m2, e2) := round53 (m1 * double_07) in
       Some (m2 * 2 ^ (e1 + e2) / 2 ^ 52).

Definition int_times_07 (n : Z) : option Z :=
  if n <? 0 then option_map Z.opp (int_times_07_nonneg (- n))
  else int_times_07_nonneg n.

(** ** Decimal formatting: [str(n)] and [f"{n:02d}"] *)

Definition digit_char (d : Z) : ascii := ascii_of_nat (48 + Z.to_nat d).

(** The decimal digits of [n >= 0] in front of [acc]. *)
Fixpoint digits_fuel (fuel : nat) (n : Z) (acc : list ascii) : list ascii :=
  match fuel with
  | O => acc
  | S f =>
      let acc' := digit_char (n mod 10) :: acc in
      if n / 10 =? 0 then acc' else digits_fuel f (n / 10) acc'
  end.

(** [n] has at most [Z.log2 n + 1] binary, hence decimal, digits. *)
Definition decimal (n : Z) : list ascii := digits_fuel (S (Z.to_nat (Z.log2 n))) n [].

Definition py_str (n : Z) : string :=
  string_of_list_ascii
    (if n <? 0 then "-"%char :: decimal (- n) else decimal n).

Definition fmt02 (n : Z) : string :=
  string_of_list_ascii
    (if n <? 0 then "-"%char :: decimal (- n)
     else let ds := decimal n in
          if (List.length ds <? 2)%nat then "0"%char :: ds else ds).

(** [range(1, n + 1)] *)
Definition range1 (n : Z) : list Z := map (fun i => Z.of_nat i + 1) (seq 0 (Z.to_nat n)).

(** ** The slots that [add_parking_area] ([POST /admin/add_area]) creates *)

(** The slots of a new area: [car] car slots [C-NN], then [bike] bike
    slots [B-NN], all on level 1. *)
Definition new_area_slots (aid : nat) (car bike : Z) : list slot :=
  map (fun num => mkSlot aid 1 ("C-" ++ fmt02 num)%string false) (range1 car)
  ++ map (fun num => mkSlot aid 1 ("B-" ++ fmt02 num)%string true) (range1 bike).

(** ** The slots of [seed.py]'s [seed_data] for one area *)

(** [levels] from the capacity. *)
Definition seed_levels (capacity : Z) : Z :=
  if capacity <? 70 then 1
  else if capacity <? 120 then 2
  else if capacity <? 180 then 3
  else 4.

Definition seed_car_slots (aid : nat) (car_cap levels : Z) : list slot :=
  let car_per_level := car_cap / levels in
  flat_map (fun level =>
              let count := car_per_level
                           + (if level =? levels then car_cap mod levels else 0) in
              map (fun num => mkSlot aid level
                                ("L" ++ py_str level ++ "-C" ++ fmt02 num)%string false)
                  (range1 count))
           (range1 levels).

Definition seed_area_slots (aid : nat) (capacity : Z) : option (list slot) :=
  match int_times_07 capacity with
  | None => None
  | Some car_cap =>
    Some (seed_car_slots aid car_cap (seed_levels capacity)
          ++ map (fun num => mkSlot aid 1 ("B-" ++ fmt02 num)%string true)
                 (range1 (capacity - car_cap)))
  end.

(** ** Admin analytics: the peak hour *)

(** [hourly_data[k] = v] on a dict kept in insertion order. *)
Fixpoint dict_set (k v : Z) (d : list (Z * Z)) : list (Z * Z) :=
  match d with
  | [] => [(k, v)]
  | (k', v') :: r => if k' =? k then (k', v) :: r else (k', v') :: dict_set k v r
  end.

(** [{h: 0 for h in range(24)}] updated with the [(hour, count)] pairs of
    the aggregation. *)
Definition hourly_data (raw : list (Z * Z)) : list (Z * Z) :=
  fold_left (fun d it => dict_set (fst it) (snd it) d) raw
    (map (fun h => (Z.of_nat h, 0)) (seq 0 24)).

(** [max(d, key=d.get)]: the first key of greatest value. *)
Definition max_key (d : list (Z * Z)) : Z :=
  match d with
  | [] => 0
  | kv :: r => fst (fold_left (fun best kv' => if snd best <? snd kv' then kv' else best) r kv)
  end.

Definition sum_values (d : list (Z * Z)) : Z := fold_right (fun kv acc => snd kv + acc) 0 d.

Definition peak_hour (raw : list (Z * Z)) : Z :=
  let d := hourly_data raw in
  if 0 <? sum_values d then max_key d else 0.

(** ** The [users] collection

    A user document with the fields the handlers read back: [email] ([None]
    for a [null] email), [is_admin], [vehicle_number] (absent, [null] or a
    string) and [managed_area_id] ([None] when absent or unset).  Names,
    password hashes and display fields are left out. *)

Inductive vfield := VMissing | VNull | VStr (v : string).

Record user_doc := mkUserDoc {
  ud_id : nat;
  ud_email : option string;
  ud_is_admin : bool;
  ud_vehicle : vfield;
  ud_managed : option nat
}.

Record ustore := mkUstore {
  users : list user_doc;
  next_uid : nat
}.

Definition email_eqb (x y : option string) : bool :=
  match x, y with
  | Some a, Some b => String.eqb a b
  | None, None => true
  | _, _ => false
  end.

(** [User.vehicle_number]: [user_data.get("vehicle_number", "Not Set")]. *)
Definition vehicle_number (d : user_doc) : option string :=
  match ud_vehicle d with
  | VMissing => Some "Not Set"%string
  | VNull => None
  | VStr v => Some v
  end.

(** [current_user.is_admin or current_user.managed_area_id] *)
Definition doc_is_staff (d : user_doc) : bool :=
  ud_is_admin d || match ud_managed d with Some _ => true | None => false end.

Definition insert_user (d : user_doc) (s : ustore) : ustore :=
  mkUstore (users s ++ [d]) (S (next_uid s)).

Inductive create_outcome := CreateDenied | CreateDuplicate | CreateError | CreateOk.

(** [register_page] (POST): [None] for a password is the [TypeError] of
    [generate_password_hash(None)]. *)
Definition register (email password : option string) (s : ustore)
  : create_outcome * ustore :=
  if existsb (fun d => email_eqb (ud_email d) email) (users s) then (CreateDuplicate, s)
  else match password with
       | None => (CreateError, s)
       | Some _ => (CreateOk, insert_user (mkUserDoc (next_uid s) email false VMissing None) s)
       end.

(** [admin_create_user] *)
Definition admin_create_user (u : user) (email password role : option string)
  (s : ustore) : create_outcome * ustore :=
  if negb (u_is_admin u) then (CreateDenied, s) else
  if existsb (fun d => email_eqb (ud_email d) email) (users s) then (CreateDuplicate, s)
  else match password with
       | None => (CreateError, s)
       | Some _ =>
         let is_admin := match role with
                         | Some r => String.eqb r "admin"
                         | None => false
                         end in
         (CreateOk, insert_user
            (mkUserDoc (next_uid s) email is_admin (VStr "Not Set") None) s)
       end.

Definition set_managed (m : option nat) (d : user_doc) : user_doc :=
  mkUserDoc (ud_id d) (ud_email d) (ud_is_admin d) (ud_vehicle d) m.

Definition update_users (p : user_doc -> bool) (f : user_doc -> user_doc) (s : ustore)
  : ustore :=
  mkUstore (update_first p f (users s)) (next_uid s).

Inductive assign_outcome := AssignDenied | AssignNotFound | AssignOk.

(** [assign_manager] *)
Definition assign_manager (u : user) (aid : nat) (email : option string)
  (s : ustore) : assign_outcome * ustore :=
  if negb (u_is_admin u) then (AssignDenied, s) else
  match find (fun d => email_eqb (ud_email d) email) (users s) with
  | None => (AssignNotFound, s)
  | Some d =>
    let s1 := update_users (fun x => match ud_managed x with
                                     | Some a => Nat.eqb a aid
                                     | None => false
                                     end) (set_managed None) s in
    (AssignOk, update_users (fun x => Nat.eqb (ud_id x) (ud_id d))
                 (set_managed (Some aid)) s1)
  end.

(** The manager step of [add_parking_area]: a [manager_email] that names a
    user makes that user the manager of the new area. *)
Definition assign_area_manager (aid : nat) (email : option string) (s : ustore)
  : ustore :=
  match email with
  | None | Some EmptyString => s
  | Some _ =>
    match find (fun d => email_eqb (ud_email d) email) (users s) with
    | None => s
    | Some d => update_users (fun x => Nat.eqb (ud_id x) (ud_id d))
                  (set_managed (Some aid)) s
    end
  end.

Definition set_vehicle (v : vfield) (d : user_doc) : user_doc :=
  mkUserDoc (ud_id d) (ud_email d) (ud_is_admin d) v (ud_managed d).

(** [profile] (POST) of the logged-in user [uid] ([load_user] reads the
    document first; an unknown id is not logged in). *)
Definition profile (uid : nat) (vehicle_in : option string) (s : ustore) : ustore :=
  match find (fun d => Nat.eqb (ud_id d) uid) (users s) with
  | None => s
  | Some d =>
    let keep := doc_is_staff d
                && match vehicle_number d with
                   | Some v => negb (String.eqb v "") && negb (String.eqb v "Not Set")
                   | None => false
                   end in
    let new_v := if keep then vehicle_number d else vehicle_in in
    update_users (fun x => Nat.eqb (ud_id x) uid)
      (set_vehicle (match new_v with Some v => VStr v | None => VNull end)) s
  end.


(** ** Sample stores for the further properties *)

(** Slot [C-01] of area 1, and a store that lists it. *)
Definition slot_c01 : slot := mkSlot 1 1 "C-01"%string false.
Definition db_slots : db := mkDb [] [area20] [] [] [] [slot_c01] 0.

(** A Confirmed booking of [rider] for slot [C-01], paid 20. *)
Definition booked : booking :=
  mk_sample 0 1 Confirmed t_2026 (t_2026 + hour_us) ["C-01"%string] (PInt 20)
    "P0Q1R2S3" "T4U5V6W7".
Definition db_booked : db :=
  mkDb [booked] [mkArea 1 50 1 (Some (PInt 20))] [] [] [] [slot_c01] 1.

(** The users written by [seed_data]: the admin, the demo user and the
    manager of the first area (id 0). *)
Definition seed_users : ustore :=
  mkUstore
    [mkUserDoc 0 (Some "admin@parkease.com"%string) true (VStr "MH-01-AD-0001") None;
     mkUserDoc 1 (Some "demo1@gmail.com"%string) false (VStr "MH-03-BK-9999") None;
     mkUserDoc 2 (Some "manager@parkease.com"%string) false (VStr "MH-04-MG-5555")
       (Some 0%nat)]
    3.
Definition admin_user : user := mkUser 0 true None "MH-01-AD-0001".

(** * Proofs *)

(** ** Binary64 rounding *)


Lemma Qltb_true x y : Qltb x y = true <-> (x < y)%Q.
Proof.
  unfold Qltb. rewrite negb_true_iff. split; intros H.
  - apply Qnot_le_lt. intros H'. apply Qle_bool_iff in H'. congruence.
  - destruct (Qle_bool y x) eqn:E; [|reflexivity]. apply Qle_bool_iff in E. lra.
Qed.

Lemma Qltb_false x y : Qltb x y = false <-> (y <= x)%Q.
Proof.
  unfold Qltb. rewrite negb_false_iff. apply Qle_bool_iff.
Qed.

Lemma pow2_pos z : (0 < pow2 z)%Q.
Proof. unfold pow2. apply Qpower_0_lt. reflexivity. Qed.

Lemma pow2_add a b : (pow2 (a + b) == pow2 a * pow2 b)%Q.
Proof. unfold pow2. apply Qpower_plus. discriminate. Qed.

Lemma pow2_Z z : 0 <= z -> (pow2 z == inject_Z (2 ^ z))%Q.
Proof. intros H. unfold pow2. rewrite Zpower_Qpower by exact H. reflexivity. Qed.

Lemma pow2_le a b : a <= b -> (pow2 a <= pow2 b)%Q.
Proof.
  intros H. unfold pow2. apply Qpower_le_compat_l; [exact H|]. unfold Qle. simpl. lia.
Qed.

Lemma pow2_lt a b : a < b -> (pow2 a < pow2 b)%Q.
Proof.
  intros H. unfold pow2. apply Qpower_lt_compat_l; [exact H|]. unfold Qlt. simpl. lia.
Qed.

Lemma pow2_eq a b : a = b -> (pow2 a == pow2 b)%Q.
Proof. intros ->. reflexivity. Qed.

Lemma pow2_succ z : (pow2 (z + 1) == pow2 z * 2)%Q.
Proof. rewrite pow2_add. reflexivity. Qed.

Lemma Z_of_Q_near a b :
  (inject_Z a - inject_Z b < 1)%Q -> (inject_Z b - inject_Z a < 1)%Q -> a = b.
Proof.
  unfold Qlt, Qminus, Qplus, Qopp, inject_Z. simpl. intros H1 H2. lia.
Qed.

Lemma rne_spec y :
  (- (1 # 2) <= inject_Z (rne y) - y <= 1 # 2)%Q.
Proof.
  pose proof (Qfloor_le y) as H1. pose proof (Qlt_floor y) as H2.
  rewrite inject_Z_plus in H2. change (inject_Z 1) with (1 # 1)%Q in H2. unfold rne.
  destruct (Qltb (y - inject_Z (Qfloor y)) (1 # 2)) eqn:E1.
  - apply Qltb_true in E1. split; lra.
  - apply Qltb_false in E1.
    destruct (Qltb (1 # 2) (y - inject_Z (Qfloor y))) eqn:E2.
    + apply Qltb_true in E2. rewrite inject_Z_plus. change (inject_Z 1) with (1 # 1)%Q.
      split; lra.
    + apply Qltb_false in E2.
      destruct (Z.even (Qfloor y));
        [|rewrite inject_Z_plus; change (inject_Z 1) with (1 # 1)%Q]; split; lra.
Qed.

Lemma rne_near y k :
  (inject_Z k - y < 1 # 2)%Q -> (y - inject_Z k < 1 # 2)%Q -> rne y = k.
Proof.
  intros H1 H2. pose proof (rne_spec y). apply Z_of_Q_near; lra.
Qed.

Lemma rne_Z k : rne (inject_Z k) = k.
Proof. apply rne_near; lra. Qed.

Lemma rne_compat y y' : (y == y')%Q -> rne y = rne y'.
Proof.
  intros H. unfold rne. rewrite (Qfloor_comp y y' H).
  set (f := Qfloor y').
  destruct (Qltb (y - inject_Z f) (1 # 2)) eqn:E1;
  destruct (Qltb (y' - inject_Z f) (1 # 2)) eqn:E2;
  try (apply Qltb_true in E1); try (apply Qltb_false in E1);
  try (apply Qltb_true in E2); try (apply Qltb_false in E2); try lra.
  - reflexivity.
  - destruct (Qltb (1 # 2) (y - inject_Z f)) eqn:E3;
    destruct (Qltb (1 # 2) (y' - inject_Z f)) eqn:E4;
    try (apply Qltb_true in E3); try (apply Qltb_false in E3);
    try (apply Qltb_true in E4); try (apply Qltb_false in E4); try lra; reflexivity.
Qed.

Lemma pos_odd_twos p : Zpos (pos_odd p) * 2 ^ pos_twos p = Zpos p /\ 0 <= pos_twos p.
Proof.
  induction p as [p IH|p IH|]; cbn [pos_odd pos_twos].
  - rewrite Z.pow_0_r. split; lia.
  - destruct IH as [IH1 IH2]. split; [|lia].
    rewrite Z.pow_succ_r by exact IH2. change (Z.pos p~0) with (2 * Z.pos p). rewrite <- IH1. ring.
  - rewrite Z.pow_0_r. split; lia.
Qed.

Lemma mk_float_double neg m e :
  0 < m -> mk_float neg (m * 2) (e - 1) = mk_float neg m e.
Proof.
  intros Hm. destruct m as [|p|p]; try lia.
  change (Zpos p * 2) with (Zpos (p * 2)). rewrite Pos.mul_xO_r, Pos.mul_1_r.
  simpl. f_equal. lia.
Qed.

Lemma mk_float_shift neg m e k :
  0 < m -> 0 <= k -> mk_float neg (m * 2 ^ k) (e - k) = mk_float neg m e.
Proof.
  intros Hm Hk. revert e. pattern k. apply natlike_ind; [| |exact Hk].
  - intros e. rewrite Z.mul_1_r, Z.sub_0_r. reflexivity.
  - intros j Hj IH e. rewrite Z.pow_succ_r by exact Hj.
    replace (m * (2 * 2 ^ j)) with (m * 2 ^ j * 2) by ring.
    replace (e - Z.succ j) with ((e - j) - 1) by lia.
    rewrite mk_float_double; [apply IH|]. pose proof (Z.pow_pos_nonneg 2 j). lia.
Qed.

Lemma fval_mk_float neg m e :
  0 < m -> (fval (mk_float neg m e) ==
            if neg then - (inject_Z m * pow2 e) else inject_Z m * pow2 e)%Q.
Proof.
  intros Hm. destruct m as [|p|p]; try lia. simpl.
  destruct (pos_odd_twos p) as [H1 H2].
  assert (E : (inject_Z (Zpos (pos_odd p)) * pow2 (e + pos_twos p)
               == inject_Z (Zpos p) * pow2 e)%Q).
  { rewrite pow2_add, (pow2_Z (pos_twos p) H2), <- H1, inject_Z_mult. ring. }
  destruct neg; rewrite E; reflexivity.
Qed.

Lemma flog2_spec a :
  (0 < a)%Q -> (pow2 (flog2 a) <= a < pow2 (flog2 a + 1))%Q.
Proof.
  intros Ha. destruct a as [n d].
  assert (Hn : 0 < n) by (unfold Qlt in Ha; simpl in Ha; lia).
  unfold flog2. simpl Qnum. simpl Qden.
  set (ln := Z.log2 n). set (ld := Z.log2 (Zpos d)).
  pose proof (Z.log2_spec n Hn) as [Hn1 Hn2].
  pose proof (Z.log2_spec (Zpos d) eq_refl) as [Hd1 Hd2].
  pose proof (Z.log2_nonneg n) as Hln. pose proof (Z.log2_nonneg (Zpos d)) as Hld.
  fold ln in Hn1, Hn2, Hln. fold ld in Hd1, Hd2, Hld.
  rewrite <- Z.add_1_r in Hn2, Hd2.
  assert (Edq : ((n # d) * inject_Z (Zpos d) == inject_Z n)%Q).
  { rewrite Qmake_Qdiv. field. unfold inject_Z. intros H. discriminate H. }
  assert (Hdq : (0 < inject_Z (Zpos d))%Q) by (unfold Qlt; simpl; lia).
  assert (Lo : (pow2 (ln - ld - 1) < n # d)%Q).
  { assert (E : (pow2 (ln - ld - 1) * pow2 (ld + 1) == pow2 ln)%Q)
      by (rewrite <- pow2_add; apply pow2_eq; ring).
    rewrite (pow2_Z (ld + 1)) in E by lia. rewrite (pow2_Z ln) in E by lia.
    assert (H1 : (inject_Z (2 ^ ln) <= inject_Z n)%Q) by (rewrite <- Zle_Qle; lia).
    assert (H2 : (inject_Z (Zpos d) < inject_Z (2 ^ (ld + 1)))%Q) by (rewrite <- Zlt_Qlt; lia).
    pose proof (pow2_pos (ln - ld - 1)). nra. }
  assert (Hi : (n # d < pow2 (ln - ld + 1))%Q).
  { assert (E : (pow2 (ln - ld + 1) * pow2 ld == pow2 (ln + 1))%Q)
      by (rewrite <- pow2_add; apply pow2_eq; ring).
    rewrite (pow2_Z ld) in E by lia. rewrite (pow2_Z (ln + 1)) in E by lia.
    assert (H1 : (inject_Z n < inject_Z (2 ^ (ln + 1)))%Q) by (rewrite <- Zlt_Qlt; lia).
    assert (H2 : (inject_Z (2 ^ ld) <= inject_Z (Zpos d))%Q) by (rewrite <- Zle_Qle; lia).
    pose proof (pow2_pos (ln - ld + 1)). nra. }
  destruct (Qle_bool (pow2 (ln - ld)) (n # d)) eqn:E.
  - apply Qle_bool_iff in E. split; [exact E|exact Hi].
  - split.
    + replace (ln - ld - 1) with (ln - ld - 1) in Lo by reflexivity. lra.
    + replace (ln - ld - 1 + 1) with (ln - ld) by ring.
      apply Qnot_le_lt. intros H. apply Qle_bool_iff in H. congruence.
Qed.

Lemma flog2_unique a F :
  (pow2 F <= a < pow2 (F + 1))%Q -> flog2 a = F.
Proof.
  intros [H1 H2].
  assert (Ha : (0 < a)%Q) by (pose proof (pow2_pos F); lra).
  destruct (flog2_spec a Ha) as [H3 H4].
  destruct (Z.lt_trichotomy (flog2 a) F) as [Hl|[Hl|Hl]]; [|exact Hl|].
  - pose proof (pow2_le (flog2 a + 1) F ltac:(lia)). lra.
  - pose proof (pow2_le (F + 1) (flog2 a) ltac:(lia)). lra.
Qed.

Lemma Qltb_compat x x' y y' : (x == x')%Q -> (y == y')%Q -> Qltb x y = Qltb x' y'.
Proof.
  intros Hx Hy. destruct (Qltb x y) eqn:E1; destruct (Qltb x' y') eqn:E2; try reflexivity.
  - apply Qltb_true in E1. apply Qltb_false in E2. lra.
  - apply Qltb_false in E1. apply Qltb_true in E2. lra.
Qed.

Lemma f64_of_Q_compat x y : (x == y)%Q -> f64_of_Q x = f64_of_Q y.
Proof.
  intros H. unfold f64_of_Q.
  assert (Ha : (Qabs x == Qabs y)%Q) by (rewrite H; reflexivity).
  rewrite (Qltb_compat x y 0 0 H (Qeq_refl 0)).
  destruct (Qeq_bool (Qabs x) 0) eqn:E1; destruct (Qeq_bool (Qabs y) 0) eqn:E2;
    try reflexivity.
  - apply Qeq_bool_iff in E1. apply Qeq_bool_neq in E2. exfalso. apply E2. lra.
  - apply Qeq_bool_iff in E2. apply Qeq_bool_neq in E1. exfalso. apply E1. lra.
  - apply Qeq_bool_neq in E1.
    assert (Hp : (0 < Qabs x)%Q).
    { pose proof (Qabs_nonneg x). apply Qle_lteq in H0 as [H0|H0]; [exact H0|].
      exfalso. apply E1. symmetry. exact H0. }
    assert (Hf : flog2 (Qabs x) = flog2 (Qabs y)).
    { symmetry. apply flog2_unique. rewrite <- Ha. apply flog2_spec. exact Hp. }
    rewrite Hf.
    rewrite (rne_compat (Qabs x / pow2 (Z.max (flog2 (Qabs y) - 52) (-1074)))
                        (Qabs y / pow2 (Z.max (flog2 (Qabs y) - 52) (-1074))))
      by (rewrite Ha; reflexivity).
    reflexivity.
Qed.

(** A positive value [M * 2^E] with [M < 2^53] in the binary64 range is
    rounded to itself. *)
Lemma f64_of_Q_exact x M E :
  0 < M < 2 ^ 53 -> -1074 <= E -> Z.log2 M + E < 1024 ->
  (x == inject_Z M * pow2 E)%Q ->
  f64_of_Q x = mk_float false M E.
Proof.
  intros HM HE Hov Hx.
  assert (Hp : (0 < x)%Q).
  { rewrite Hx. pose proof (pow2_pos E).
    assert (0 < inject_Z M)%Q by (unfold Qlt; simpl; lia). nra. }
  assert (Habs : (Qabs x == x)%Q) by (apply Qabs_pos; lra).
  pose proof (Z.log2_spec M (proj1 HM)) as [Hl1 Hl2].
  pose proof (Z.log2_nonneg M) as Hl0.
  assert (Hl53 : Z.log2 M < 53).
  { apply Z.log2_lt_pow2; lia. }
  assert (Hfl : flog2 (Qabs x) = Z.log2 M + E).
  { apply flog2_unique. rewrite Habs, Hx.
    replace (Z.log2 M + E + 1) with ((Z.log2 M + 1) + E) by ring.
    rewrite (pow2_add (Z.log2 M) E), (pow2_add (Z.log2 M + 1) E).
    rewrite (pow2_Z (Z.log2 M)), (pow2_Z (Z.log2 M + 1)) by lia.
    pose proof (pow2_pos E).
    assert (inject_Z (2 ^ Z.log2 M) <= inject_Z M)%Q by (rewrite <- Zle_Qle; lia).
    assert (inject_Z M < inject_Z (2 ^ (Z.log2 M + 1)))%Q
      by (rewrite <- Zlt_Qlt; rewrite Z.add_1_r; lia).
    split; nra. }
  unfold f64_of_Q. rewrite Hfl.
  set (e := Z.max (Z.log2 M + E - 52) (-1074)).
  assert (He : e <= E) by (unfold e; lia).
  assert (Hm : rne (Qabs x / pow2 e) = M * 2 ^ (E - e)).
  { rewrite <- rne_Z. apply rne_compat. rewrite Habs, Hx.
    rewrite inject_Z_mult, <- (pow2_Z (E - e)) by lia.
    replace E with ((E - e) + e) at 1 by ring. rewrite pow2_add.
    field. pose proof (pow2_pos e). lra. }
  rewrite Hm.
  assert (Hpos : 0 < M * 2 ^ (E - e)) by (pose proof (Z.pow_pos_nonneg 2 (E - e)); lia).
  destruct (Qeq_bool (Qabs x) 0) eqn:Ez.
  { apply Qeq_bool_iff in Ez. lra. }
  assert (Hneg : Qltb x 0 = false) by (apply Qltb_false; lra).
  rewrite Hneg.
  destruct (Z.eqb_spec (M * 2 ^ (E - e)) 0) as [Hz|_]; [lia|].
  rewrite Z.log2_mul_pow2 by lia.
  destruct (1024 <=? _) eqn:Eb; [apply Z.leb_le in Eb; lia|].
  rewrite <- (mk_float_shift false M E (E - e)) by lia. f_equal. ring.
Qed.

(** In the normal range, rounding to binary64 has a relative error of at
    most [2^-53]. *)
Lemma f64_of_Q_rel x :
  (pow2 (-1022) <= x)%Q -> (x < pow2 1023)%Q ->
  exists m e, f64_of_Q x = FFin false m e /\ 0 < m
    /\ (x - x * pow2 (-53) <= fval (f64_of_Q x) <= x + x * pow2 (-53))%Q.
Proof.
  intros Hlo Hhi.
  assert (Hp : (0 < x)%Q) by (pose proof (pow2_pos (-1022)); lra).
  assert (Habs : (Qabs x == x)%Q) by (apply Qabs_pos; lra).
  set (fl := flog2 (Qabs x)).
  assert (Hfl : (pow2 fl <= x < pow2 (fl + 1))%Q)
    by (rewrite <- Habs; apply flog2_spec; lra).
  assert (Hfl1 : -1022 <= fl).
  { destruct (Z.le_gt_cases (-1022) fl) as [H|H]; [exact H|].
    pose proof (pow2_le (fl + 1) (-1022) ltac:(lia)). lra. }
  assert (Hfl2 : fl <= 1022).
  { destruct (Z.le_gt_cases fl 1022) as [H|H]; [exact H|].
    pose proof (pow2_le 1023 fl ltac:(lia)). lra. }
  unfold f64_of_Q. fold fl.
  replace (Z.max (fl - 52) (-1074)) with (fl - 52) by lia.
  set (e := fl - 52).
  assert (Hpe : (0 < pow2 e)%Q) by apply pow2_pos.
  set (y := (Qabs x / pow2 e)%Q).
  assert (Hy : (y * pow2 e == x)%Q) by (unfold y; rewrite Habs; field; lra).
  assert (E52 : (pow2 fl == inject_Z (2 ^ 52) * pow2 e)%Q).
  { unfold e. rewrite <- pow2_Z by lia. rewrite <- pow2_add. apply pow2_eq. ring. }
  assert (E53 : (pow2 (fl + 1) == inject_Z (2 ^ 53) * pow2 e)%Q).
  { unfold e. rewrite <- pow2_Z by lia. rewrite <- pow2_add. apply pow2_eq. ring. }
  assert (Hy1 : (inject_Z (2 ^ 52) <= y)%Q) by nra.
  assert (Hy2 : (y < inject_Z (2 ^ 53))%Q) by nra.
  pose proof (rne_spec y) as Hr. set (m := rne y) in *.
  assert (Hm0 : 0 < m).
  { destruct (Z.lt_ge_cases 0 m) as [H|H]; [exact H|].
    assert (inject_Z m <= 0)%Q by (unfold Qle; simpl; lia).
    change (inject_Z (2 ^ 52)) with (4503599627370496 # 1)%Q in Hy1. lra. }
  assert (Hm1 : m <= 2 ^ 53).
  { destruct (Z.le_gt_cases m (2 ^ 53)) as [H|H]; [exact H|].
    assert (inject_Z (2 ^ 53 + 1) <= inject_Z m)%Q by (rewrite <- Zle_Qle; lia).
    rewrite inject_Z_plus in H0. change (inject_Z 1) with (1 # 1)%Q in H0. lra. }
  assert (Hlm : Z.log2 m <= 53).
  { rewrite <- (Z.log2_pow2 53) by lia. apply Z.log2_le_mono. exact Hm1. }
  destruct (Qeq_bool (Qabs x) 0) eqn:Ez.
  { apply Qeq_bool_iff in Ez. lra. }
  assert (Hneg : Qltb x 0 = false) by (apply Qltb_false; lra).
  rewrite Hneg.
  destruct (Z.eqb_spec m 0) as [Hz|_]; [lia|].
  destruct (1024 <=? _) eqn:Eb; [apply Z.leb_le in Eb; unfold e in Eb; lia|].
  assert (Hv : (fval (mk_float false m e) == inject_Z m * pow2 e)%Q)
    by exact (fval_mk_float false m e Hm0).
  destruct m as [|p|p]; try lia.
  exists (Zpos (pos_odd p)), (e + pos_twos p). split; [reflexivity|]. split; [lia|].
  rewrite Hv.
  assert (Hq : (pow2 e == pow2 fl * pow2 (-52))%Q).
  { rewrite <- pow2_add. unfold e. apply pow2_eq. ring. }
  assert (Hq2 : (pow2 (-52) == 2 * pow2 (-53))%Q).
  { replace (-52) with (-53 + 1) by ring. rewrite pow2_add. reflexivity. }
  pose proof (pow2_pos (-53)). pose proof (pow2_pos fl).
  assert (Hd : (- (1 # 2) * pow2 e <= inject_Z (Zpos p) * pow2 e - x <= (1 # 2) * pow2 e)%Q)
    by (rewrite <- Hy; split; nra).
  assert (Hb : (pow2 e <= x * pow2 (-52))%Q) by (rewrite Hq; nra).
  split; nra.
Qed.



(** ** Collection lemmas *)

Section Collections.
Context {A : Type}.

Lemma update_first_none (p : A -> bool) (f : A -> A) (l : list A) :
  find p l = None -> update_first p f l = l.
Proof.
  induction l as [|x r IH]; simpl; [reflexivity|].
  destruct (p x); [discriminate|]. intros H. now rewrite IH.
Qed.

Lemma delete_first_none (p : A -> bool) (l : list A) :
  find p l = None -> delete_first p l = l.
Proof.
  induction l as [|x r IH]; simpl; [reflexivity|].
  destruct (p x); [discriminate|]. intros H. now rewrite IH.
Qed.

Lemma map_update_first {B} (k : A -> B) (p : A -> bool) (f : A -> A) l :
  (forall x, k (f x) = k x) -> map k (update_first p f l) = map k l.
Proof.
  intros Hk. induction l as [|x r IH]; simpl; [reflexivity|].
  destruct (p x); simpl; now rewrite ?Hk, ?IH.
Qed.

Lemma in_update_first (p : A -> bool) (f : A -> A) l y :
  In y (update_first p f l) -> In y l \/ exists x, In x l /\ y = f x.
Proof.
  induction l as [|x r IH]; simpl; [tauto|].
  destruct (p x); simpl.
  - intros [<-|H]; [right; exists x; auto | left; auto].
  - intros [<-|H]; [left; auto|].
    destruct (IH H) as [H1|[z [H1 H2]]]; [left; auto | right; exists z; auto].
Qed.

Lemma in_delete_first (p : A -> bool) l y :
  In y (delete_first p l) -> In y l.
Proof.
  induction l as [|x r IH]; simpl; [tauto|].
  destruct (p x); simpl; [auto|]. intros [<-|H]; auto.
Qed.

Lemma NoDup_map_delete_first {B} (k : A -> B) (p : A -> bool) l :
  NoDup (map k l) -> NoDup (map k (delete_first p l)).
Proof.
  induction l as [|x r IH]; simpl; [auto|].
  intros Hnd. inversion Hnd as [|? ? Hni Hnd']; subst.
  destruct (p x); [assumption|]. simpl. constructor; [|auto].
  intros Hin. apply Hni. apply in_map_iff in Hin as [z [Hz Hin]].
  apply in_map_iff. exists z. split; [assumption|].
  eapply in_delete_first; eauto.
Qed.

(** With distinct keys, the element of key [k b] is [b]. *)
Lemma find_key_unique (k : A -> nat) l b :
  NoDup (map k l) -> In b l -> find (fun x => Nat.eqb (k x) (k b)) l = Some b.
Proof.
  induction l as [|x r IH]; simpl; [tauto|].
  intros Hnd Hin. inversion Hnd as [|? ? Hni Hnd']; subst.
  destruct Hin as [<-|Hin].
  - now rewrite Nat.eqb_refl.
  - destruct (Nat.eqb_spec (k x) (k b)) as [E|E]; [|auto].
    exfalso. apply Hni. rewrite E. now apply in_map.
Qed.

Lemma in_key_unique (k : A -> nat) l x y :
  NoDup (map k l) -> In x l -> In y l -> k x = k y -> x = y.
Proof.
  induction l as [|z r IH]; simpl; [tauto|].
  intros Hnd Hx Hy E. inversion Hnd as [|? ? Hni Hnd']; subst.
  destruct Hx as [<-|Hx], Hy as [<-|Hy]; auto.
  - exfalso. apply Hni. rewrite E. now apply in_map.
  - exfalso. apply Hni. rewrite <- E. now apply in_map.
Qed.

Lemma find_in (p : A -> bool) l x : find p l = Some x -> In x l /\ p x = true.
Proof.
  intros H. split; [eapply find_some; eauto | eapply find_some; eauto].
Qed.
End Collections.

(** ** Live sums *)

Lemma live_sum_app aid l1 l2 :
  live_sum aid (l1 ++ l2) = live_sum aid l1 + live_sum aid l2.
Proof.
  induction l1 as [|x r IH]; simpl; [reflexivity|]. rewrite IH. lia.
Qed.

Lemma live_sum_update_first aid p f l x :
  find p l = Some x ->
  live_sum aid (update_first p f l) = live_sum aid l - contrib aid x + contrib aid (f x).
Proof.
  induction l as [|y r IH]; simpl; [discriminate|].
  destruct (p y).
  - intros [= <-]. simpl. lia.
  - intros H. simpl. rewrite (IH H). lia.
Qed.

Lemma live_sum_delete_first aid p l x :
  find p l = Some x ->
  live_sum aid (delete_first p l) = live_sum aid l - contrib aid x.
Proof.
  induction l as [|y r IH]; simpl; [discriminate|].
  destruct (p y).
  - intros [= <-]. lia.
  - intros H. simpl. rewrite (IH H). lia.
Qed.

Lemma live_sum_nonneg aid l : 0 <= live_sum aid l.
Proof.
  induction l as [|x r IH]; simpl; [lia|]. unfold contrib.
  destruct (_ && _); lia.
Qed.

(** Updating the first area of id [aid] keeps the accounting, provided the
    new occupancy of that area is its new live sum and no other area's live
    sum moved. *)
Lemma areas_update aid g (as_ : list area) bs bs' :
  NoDup (map a_id as_) ->
  Forall (fun a => a_occupied a = live_sum (a_id a) bs) as_ ->
  (forall a, a <> aid -> live_sum a bs' = live_sum a bs) ->
  (forall x, In x as_ -> a_id x = aid -> a_occupied (g x) = live_sum aid bs') ->
  (forall x, a_id (g x) = a_id x) ->
  Forall (fun a => a_occupied a = live_sum (a_id a) bs')
    (update_first (fun a => Nat.eqb (a_id a) aid) g as_).
Proof.
  intros Hnd Hinv Hother Hnew Hid.
  induction as_ as [|x r IH]; simpl; [constructor|].
  inversion Hnd as [|? ? Hni Hnd']; subst. inversion Hinv as [|? ? Hx Hr]; subst.
  destruct (Nat.eqb_spec (a_id x) aid) as [E|E].
  - constructor.
    + rewrite Hid, E. apply Hnew; simpl; auto.
    + apply Forall_forall. intros y Hy.
      rewrite Forall_forall in Hr. rewrite (Hr y Hy). symmetry. apply Hother.
      intros E'. apply Hni. rewrite E, <- E'. now apply in_map.
  - constructor.
    + rewrite Hx. symmetry. now apply Hother.
    + apply IH; auto. intros y Hy. apply Hnew. simpl; auto.
Qed.

(** ** Accounting steps *)

Definition add_occupied (d : Z) (a : area) : area :=
  mkArea (a_id a) (a_capacity a) (a_occupied a + d) (a_price a).

Lemma contrib_same aid x y :
  b_area y = b_area x -> b_spots y = b_spots x -> is_live (b_status y) = is_live (b_status x) ->
  contrib aid y = contrib aid x.
Proof. intros E1 E2 E3. unfold contrib. now rewrite E1, E2, E3. Qed.

Lemma contrib_other aid x : b_area x <> aid -> contrib aid x = 0.
Proof.
  intros E. unfold contrib. apply Nat.eqb_neq in E. now rewrite E.
Qed.

(** A booking update that does not move the booking in or out of the
    live statuses leaves the accounting as it is. *)
Lemma accounting_neutral as_ bs n p f :
  accounting as_ bs n ->
  (forall y, b_id (f y) = b_id y) ->
  (forall x, find p bs = Some x -> forall aid, contrib aid (f x) = contrib aid x) ->
  accounting as_ (update_first p f bs) n.
Proof.
  intros (H1 & H2 & H3 & H4) Hid Hc.
  destruct (find p bs) as [x|] eqn:Ex.
  2:{ rewrite update_first_none by assumption. repeat split; assumption. }
  repeat split.
  - assumption.
  - now rewrite map_update_first.
  - apply Forall_forall. intros y Hy.
    destruct (in_update_first _ _ _ _ Hy) as [Hy'|[z [Hz ->]]];
      rewrite Forall_forall in H3; [auto|rewrite Hid; auto].
  - apply Forall_forall. intros a Ha. rewrite Forall_forall in H4.
    rewrite (H4 a Ha). rewrite (live_sum_update_first _ _ _ _ x Ex).
    rewrite (Hc x eq_refl). lia.
Qed.

(** A booking update followed by the matching [$inc] of its area. *)
Lemma accounting_transition as_ bs n x f d :
  accounting as_ bs n -> In x bs ->
  (forall y, b_id (f y) = b_id y) ->
  b_area (f x) = b_area x -> b_spots (f x) = b_spots x ->
  d = contrib (b_area x) (f x) - contrib (b_area x) x ->
  accounting
    (update_first (fun a => Nat.eqb (a_id a) (b_area x)) (add_occupied d) as_)
    (update_first (fun y => Nat.eqb (b_id y) (b_id x)) f bs) n.
Proof.
  intros (H1 & H2 & H3 & H4) Hin Hid Ha Hs Hd.
  assert (Ex : find (fun y => Nat.eqb (b_id y) (b_id x)) bs = Some x)
    by (apply find_key_unique; assumption).
  repeat split.
  - rewrite map_update_first; [assumption | reflexivity].
  - now rewrite map_update_first.
  - apply Forall_forall. intros y Hy.
    destruct (in_update_first _ _ _ _ Hy) as [Hy'|[z [Hz ->]]];
      rewrite Forall_forall in H3; [auto|rewrite Hid; auto].
  - apply areas_update with (bs := bs); auto.
    + intros a Hne. rewrite (live_sum_update_first _ _ _ _ x Ex).
      rewrite !(contrib_other a); [lia | | ]; congruence.
    + intros y Hy Hya. unfold add_occupied; simpl.
      rewrite (live_sum_update_first _ _ _ _ x Ex).
      rewrite Forall_forall in H4. rewrite (H4 y Hy), Hya. lia.
Qed.

(** Deleting a booking followed by the matching [$inc] of its area. *)
Lemma accounting_delete as_ bs n x d :
  accounting as_ bs n -> In x bs ->
  d = - contrib (b_area x) x ->
  accounting
    (update_first (fun a => Nat.eqb (a_id a) (b_area x)) (add_occupied d) as_)
    (delete_first (fun y => Nat.eqb (b_id y) (b_id x)) bs) n.
Proof.
  intros (H1 & H2 & H3 & H4) Hin Hd.
  assert (Ex : find (fun y => Nat.eqb (b_id y) (b_id x)) bs = Some x)
    by (apply find_key_unique; assumption).
  repeat split.
  - rewrite map_update_first; [assumption | reflexivity].
  - now apply NoDup_map_delete_first.
  - apply Forall_forall. intros y Hy. rewrite Forall_forall in H3.
    apply H3. eapply in_delete_first; eauto.
  - apply areas_update with (bs := bs); auto.
    + intros a Hne. rewrite (live_sum_delete_first _ _ _ x Ex).
      rewrite (contrib_other a); [lia | congruence].
    + intros y Hy Hya. unfold add_occupied; simpl.
      rewrite (live_sum_delete_first _ _ _ x Ex).
      rewrite Forall_forall in H4. rewrite (H4 y Hy), Hya. lia.
Qed.
Lemma accounting_insert as_ bs n a aid nb v :
  accounting as_ bs n -> In a as_ -> a_id a = aid -> b_area nb = aid ->
  is_live (b_status nb) = true -> b_id nb = n ->
  v = a_occupied a + Z.of_nat (b_spots nb) ->
  accounting
    (update_first (fun x => Nat.eqb (a_id x) aid)
       (fun x => mkArea (a_id x) (a_capacity x) v (a_price x)) as_)
    (bs ++ [nb]) (S n).
Proof.
  intros (H1 & H2 & H3 & H4) Ha Haid Hnb Hl Hid Hv.
  repeat split.
  - rewrite map_update_first; [assumption | reflexivity].
  - rewrite map_app. simpl. apply NoDup_app; auto.
    + repeat constructor. simpl; tauto.
    + intros i Hi [<-|[]]. apply in_map_iff in Hi as [y [Hy Hin]].
      rewrite Forall_forall in H3. specialize (H3 y Hin). lia.
  - apply Forall_app. split; [|constructor; [lia|constructor]].
    eapply Forall_impl; [|exact H3]. simpl. intros; lia.
  - apply areas_update with (bs := bs); auto.
    + intros c Hne. rewrite live_sum_app. simpl.
      rewrite (contrib_other c nb); [lia | congruence].
    + intros y Hy Hya. simpl. rewrite live_sum_app. simpl.
      rewrite Forall_forall in H4.
      rewrite Hv, (H4 a Ha), Haid. unfold contrib. rewrite Hnb, Nat.eqb_refl, Hl. simpl. lia.
Qed.

Lemma book_spot_inv u rq t1 t2 s :
  occ_inv s -> occ_inv (snd (book_spot u rq t1 t2 s)).
Proof.
  intros Hinv. unfold book_spot.
  destruct (rq_area rq) as [aid|]; [|exact Hinv].
  destruct (rq_time rq) as [| |start]; [exact Hinv| |].
  all: destruct (Nat.eqb _ 0); [exact Hinv|]; destruct (negb (profile_ok u)); [exact Hinv|].
  exact Hinv.
  destruct (add_hours start (rq_duration rq)) as [end_|]; [|exact Hinv].
  unfold bind, gets, ret. cbn -[find_area booking_amount dt_ok bson_ok].
  destruct (find_area aid s) as [a|] eqn:Ea; [|exact Hinv].
  destruct (find _ (bookings s)) as [c|]; [exact Hinv|].
  destruct (locked_by_other _ _ _ _); [exact Hinv|].
  destruct (negb (dt_ok _)); [exact Hinv|].
  destruct (negb (bson_ok _)); [exact Hinv|].
  cbn. unfold occ_inv.
  cbn [set_locks set_areas set_bookings set_next_id areas bookings next_id].
  apply find_in in Ea as [Ea1 Ea2]. apply Nat.eqb_eq in Ea2.
  eapply accounting_insert; eauto; reflexivity.
Qed.

(** ** Monadic framing *)

Definition preserves {A} (P : db -> Prop) (m : M A) : Prop :=
  forall s, P s -> P (snd (m s)).

Lemma preserves_bind {A B} P (m : M A) (k : A -> M B) :
  preserves P m -> (forall a, preserves P (k a)) -> preserves P (bind m k).
Proof.
  intros Hm Hk s Hs. unfold bind. specialize (Hm s Hs).
  destruct (m s) as [[a|e] s']; simpl in *; auto. now apply Hk.
Qed.

Lemma preserves_ret {A} P (a : A) : preserves P (ret a).
Proof. intros s Hs. exact Hs. Qed.

Lemma preserves_raise {A} P e : preserves P (@raise A e).
Proof. intros s Hs. exact Hs. Qed.

Lemma preserves_gets {A} P (f : db -> A) : preserves P (gets f).
Proof. intros s Hs. exact Hs. Qed.

Lemma preserves_iterM {A} P (f : A -> M unit) l :
  (forall x, preserves P (f x)) -> preserves P (iterM f l).
Proof.
  intros Hf. induction l as [|x r IH]; simpl.
  - apply preserves_ret.
  - apply preserves_bind; auto.
Qed.

Lemma preserves_notify uid m : preserves occ_inv (notify uid m).
Proof. intros s Hs. exact Hs. Qed.

Lemma preserves_level_of P sid : preserves P (level_of sid).
Proof.
  unfold level_of. destruct (has_char _ _); [destruct (py_int _)|];
    auto using preserves_ret, preserves_raise.
Qed.

Lemma preserves_notify_level aid sid : preserves occ_inv (notify_level aid sid).
Proof.
  unfold notify_level. apply preserves_bind; [apply preserves_level_of|].
  intros lv. apply preserves_bind; [apply preserves_gets|].
  intros ps. apply preserves_iterM. intros p. apply preserves_notify.
Qed.

Lemma preserves_update_neutral bid f :
  (forall y, b_id (f y) = b_id y) ->
  (forall y aid, contrib aid (f y) = contrib aid y) ->
  preserves occ_inv (update_booking bid f).
Proof.
  intros Hid Hc s Hs. unfold occ_inv in *. simpl.
  apply accounting_neutral; auto.
Qed.

Ltac live_contrib :=
  match goal with
  | |- contrib _ ?x = contrib _ _ => apply contrib_same; simpl; auto
  end.

(** ** Per-handler accounting *)

Lemma pay_booking_inv u bid s :
  occ_inv s ->
  match find (owned (u_id u) bid) (bookings s) with
  | Some b => is_live (b_status b) = true
  | None => True
  end ->
  occ_inv (snd (pay_booking u bid s)).
Proof.
  intros Hinv Hl. unfold pay_booking, bind, gets, modify.
  cbn -[find update_first].
  assert (H : occ_inv (set_bookings
    (update_first (owned (u_id u) bid) (with_status Confirmed) (bookings s)) s)).
  { unfold occ_inv in *. simpl. apply accounting_neutral; auto.
    intros x Ex aid. rewrite Ex in Hl. live_contrib. }
  destruct (find (owned (u_id u) bid) (bookings s)); exact H.
Qed.

Lemma cancel_booking_inv u bid s :
  occ_inv s -> occ_inv (snd (cancel_booking u bid s)).
Proof.
  intros Hinv. unfold cancel_booking, bind, gets, ret.
  cbn -[find update_first delete_first].
  destruct (find (owned (u_id u) bid) (bookings s)) as [b|] eqn:Eb; [|exact Hinv].
  apply find_in in Eb as [Hin Hown]. unfold owned in Hown.
  apply andb_prop in Hown as [Hid _]. apply Nat.eqb_eq in Hid. subst bid.
  destruct (b_status b) eqn:Es; try exact Hinv; unfold occ_inv in *; simpl.
  - apply accounting_delete; auto.
    unfold contrib. rewrite Nat.eqb_refl, Es. simpl. lia.
  - apply accounting_transition; auto.
    unfold contrib. simpl. rewrite Nat.eqb_refl, Es. simpl. lia.
Qed.

Lemma extend_booking_inv u bid h s :
  occ_inv s -> occ_inv (snd (extend_booking u bid h s)).
Proof.
  intros Hinv. unfold extend_booking, bind, gets, ret.
  cbn -[find update_first find_area].
  destruct (find (owned (u_id u) bid) (bookings s)) as [b|]; [|exact Hinv].
  destruct (find_area (b_area b) s) as [a|]; [|exact Hinv].
  destruct (add_hours (b_end b) h) as [ne|]; [|exact Hinv].
  destruct (find _ (bookings s)); [exact Hinv|].
  destruct (mongo_inc (b_amount b) _) as [amt|]; [|exact Hinv].
  destruct (mongo_inc (PInt (b_duration b)) (PInt h)); [|exact Hinv].
  apply (preserves_update_neutral bid); auto.
Qed.

Lemma overstay_state now b s : snd (overstay now b s) = s.
Proof.
  unfold overstay, bind, gets, ret, raise.
  destruct (b_end b <? now); [|reflexivity].
  destruct (find_area (b_area b) s); [|reflexivity].
  destruct (py_ceil _); reflexivity.
Qed.

Lemma check_out_inv now b s :
  occ_inv s -> In b (bookings s) -> b_status b = Active ->
  occ_inv (snd (check_out now b s)).
Proof.
  intros Hinv Hin Hs. unfold check_out, bind, ret, raise.
  pose proof (overstay_state now b s) as E.
  destruct (overstay now b s) as [[[pen h]|e] s'] eqn:Eo; simpl in E; subst s'; [|exact Hinv].
  destruct (py_gt0 pen); [destruct (mongo_inc (b_amount b) pen) as [amt|e]; [|exact Hinv]|].
  all: cbn -[update_first]; unfold occ_inv in *; simpl.
  all: apply accounting_transition; auto;
    unfold contrib, with_check_out; simpl; try reflexivity;
    rewrite ?Nat.eqb_refl, ?Hs; simpl; lia.
Qed.

Lemma verify_booking_inv u now t v s :
  occ_inv s -> occ_inv (snd (verify_booking u now t v s)).
Proof.
  intros Hinv. unfold verify_booking.
  destruct (u_managed_area u) as [m|]; [|exact Hinv].
  unfold bind at 1, gets at 1. cbn -[find].
  destruct (find _ (bookings s)) as [b|] eqn:Eb; [|exact Hinv].
  apply find_in in Eb as [Hin _].
  destruct (negb _); [exact Hinv|].
  destruct (String.eqb (b_booking_token b) _).
  - destruct (b_status b) eqn:Es; try exact Hinv;
      cbn -[update_first]; unfold occ_inv in *; simpl;
      apply accounting_neutral; auto;
      (intros x Ex aid;
       rewrite (find_key_unique b_id _ b) in Ex by (apply Hinv || assumption);
       injection Ex as <-; live_contrib; now rewrite Es).
  - destruct (String.eqb (b_exit_token b) _); [|exact Hinv].
    destruct (b_status b) eqn:Es; try exact Hinv.
    now apply check_out_inv.
Qed.

Lemma in_update_first_other {A} (p : A -> bool) f l y :
  In y l -> p y = false -> In y (update_first p f l).
Proof.
  induction l as [|x r IH]; simpl; [tauto|].
  intros [<-|H] Hp.
  - rewrite Hp. now left.
  - destruct (p x); simpl; auto.
Qed.

(** The notification part of the sweep writes notifications only. *)
Definition same_core (s0 s : db) : Prop :=
  bookings s = bookings s0 /\ areas s = areas s0 /\ next_id s = next_id s0.

Lemma notify_level_core s0 aid sids :
  preserves (same_core s0) (iterM (notify_level aid) sids).
Proof.
  apply preserves_iterM. intros sid. unfold notify_level.
  apply preserves_bind; [apply preserves_level_of|]. intros lv.
  apply preserves_bind; [apply preserves_gets|]. intros ps.
  apply preserves_iterM. intros p s Hs. exact Hs.
Qed.

Lemma no_show_one_core b s :
  let s3 := snd (no_show_one b s) in
  bookings s3 = update_first (fun y => Nat.eqb (b_id y) (b_id b))
                  (with_refund CancelledNoShow
                     (py_mul (b_amount b) (PFloat (float_lit (9 # 10))))
                     "Grace period expired") (bookings s)
  /\ areas s3 = update_first (fun a => Nat.eqb (a_id a) (b_area b))
                  (add_occupied (- Z.of_nat (b_spots b))) (areas s)
  /\ next_id s3 = next_id s.
Proof.
  unfold no_show_one, bind at 1 2, update_booking, inc_occupied, modify.
  cbn zeta beta iota.
  match goal with
  | |- context [iterM ?f ?l ?s2] =>
      pose proof (notify_level_core s2 (b_area b) (b_slot_ids b) s2
                    ltac:(repeat split)) as (H1 & H2 & H3)
  end.
  refine (conj (eq_trans H1 _) (conj (eq_trans H2 _) (eq_trans H3 _))); reflexivity.
Qed.

Lemma no_show_loop bs s :
  occ_inv s -> NoDup (map b_id bs) ->
  (forall b, In b bs -> In b (bookings s) /\ b_status b = Confirmed) ->
  occ_inv (snd (iterM no_show_one bs s)).
Proof.
  revert s. induction bs as [|b r IH]; intros s Hinv Hnd Hall; [exact Hinv|].
  simpl iterM. inversion Hnd as [|? ? Hni Hnd']; subst.
  destruct (Hall b (or_introl eq_refl)) as [Hin Hst].
  pose proof (no_show_one_core b s) as (E1 & E2 & E3).
  assert (Hinv3 : occ_inv (snd (no_show_one b s))).
  { unfold occ_inv. rewrite E1, E2, E3.
    apply accounting_transition; auto.
    unfold contrib; simpl. rewrite Nat.eqb_refl, Hst. simpl. lia. }
  unfold bind at 1.
  destruct (no_show_one b s) as [[[]|e] s3] eqn:Eo; [|exact Hinv3].
  simpl in *. apply IH; auto.
  intros b' Hb'. destruct (Hall b' (or_intror Hb')) as [Hin' Hst'].
  split; [|assumption]. rewrite E1. apply in_update_first_other; auto.
  apply Nat.eqb_neq. intros E. apply Hni. rewrite <- E. now apply in_map.
Qed.

Lemma NoDup_map_filter {A B} (k : A -> B) (p : A -> bool) l :
  NoDup (map k l) -> NoDup (map k (filter p l)).
Proof.
  induction l as [|x r IH]; simpl; [auto|].
  intros Hnd. inversion Hnd as [|? ? Hni Hnd']; subst.
  destruct (p x); simpl; auto. constructor; auto.
  intros Hin. apply Hni. apply in_map_iff in Hin as [z [Hz Hin]].
  apply in_map_iff. exists z. split; auto. eapply filter_In; eauto.
Qed.

Lemma check_no_shows_inv f now s :
  occ_inv s -> occ_inv (snd (check_no_shows f now s)).
Proof.
  intros Hinv. unfold check_no_shows, bind at 1, gets. simpl.
  apply no_show_loop; auto.
  - apply NoDup_map_filter. apply Hinv.
  - intros b Hb. apply filter_In in Hb as [Hin He]. split; auto.
    unfold expired in He. destruct (b_status b); simpl in He; try discriminate; auto.
Qed.

Lemma check_expiry_reminders_inv now s :
  occ_inv s -> occ_inv (snd (check_expiry_reminders now s)).
Proof.
  apply preserves_bind; [apply preserves_gets|]. intros bs.
  apply preserves_iterM. intros b.
  apply preserves_bind; [apply preserves_notify|]. intros [].
  apply preserves_update_neutral; reflexivity.
Qed.

(** ** What a successful [book_spot] writes *)

Lemma book_spot_success u rq t1 t2 s aid start a :
  let sel := parse_slot_ids (rq_slot_str rq) in
  let end_ := start + rq_duration rq * hour_us in
  rq_area rq = Some aid -> rq_time rq = TimeAt start ->
  sel <> [] -> profile_ok u = true ->
  add_hours start (rq_duration rq) = Some end_ ->
  find_area aid s = Some a ->
  find (collides aid start end_ sel) (bookings s) = None ->
  locked_by_other (u_id u) aid (slot_locks s) sel = false ->
  dt_ok (start + 15 * minute_us) = true ->
  bson_ok (booking_amount u (area_price a) (rq_duration rq) sel) = true ->
  let r := book_spot u rq t1 t2 s in
  fst r = inl (BookOk (next_id s))
  /\ (exists b, bookings (snd r) = bookings s ++ [b]
        /\ b_id b = next_id s /\ b_user b = u_id u /\ b_area b = aid
        /\ b_start b = start /\ b_end b = end_
        /\ b_slot_ids b = sel /\ b_spots b = List.length sel
        /\ b_status b = PendingPayment
        /\ b_amount b = booking_amount u (area_price a) (rq_duration rq) sel)
  /\ areas (snd r) = update_first (fun x => Nat.eqb (a_id x) aid)
       (fun x => mkArea (a_id x) (a_capacity x)
                   (a_occupied a + Z.of_nat (List.length sel)) (a_price x)) (areas s)
  /\ next_id (snd r) = S (next_id s)
  /\ slots (snd r) = slots s.
Proof.
  intros sel end_ Ha Ht Hsel Hp He Hfa Hc Hl Hd Hb r. subst r.
  unfold book_spot. rewrite Ha, Ht. fold sel.
  destruct (Nat.eqb_spec (List.length sel) 0) as [E|_].
  { exfalso. apply Hsel. now apply length_zero_iff_nil. }
  rewrite Hp. simpl negb. cbv iota. rewrite He.
  unfold bind, gets, ret.
  cbn -[find_area find locked_by_other update_first hour_us minute_us Z.mul booking_amount dt_ok bson_ok].
  rewrite Hfa. rewrite Hc, Hl, Hd, Hb.
  cbn -[update_first booking_amount].
  split; [reflexivity|]. split; [|repeat split].
  eexists. repeat split.
Qed.

(** ** Pricing *)

Lemma round2_compat x y : (x == y)%Q -> round2 x = round2 y.
Proof.
  intros E. unfold round2. rewrite (rne_compat (x * (100 # 1)) (y * (100 # 1))); [reflexivity|].
  now rewrite E.
Qed.

Lemma f64_of_Q_zero x : (x == 0)%Q -> f64_of_Q x = FZero false.
Proof.
  intros H. unfold f64_of_Q.
  replace (Qeq_bool (Qabs x) 0) with true; [reflexivity|].
  symmetry. apply Qeq_bool_iff. rewrite H. reflexivity.
Qed.

Lemma pow2_m3 : (pow2 (-3) == 1 # 8)%Q.
Proof. reflexivity. Qed.

Lemma repr8_cases v :
  repr8 v ->
  ((v == 0)%Q /\ f64_of_Q v = FZero false)
  \/ ((0 < v)%Q /\ exists m e, f64_of_Q v = FFin false m e /\ (fval (f64_of_Q v) == v)%Q).
Proof.
  intros (M & HM & Hv). destruct (Z.eq_dec M 0) as [->|HM0].
  - left. assert (H0 : (v == 0)%Q) by (rewrite Hv; reflexivity).
    split; [exact H0 | now apply f64_of_Q_zero].
  - right. split.
    + rewrite Hv. unfold Qlt, Qmult. simpl. lia.
    + rewrite (f64_of_Q_exact v M (-3)); [| lia | lia | |].
      * destruct M as [|pM|pM]; try lia.
        pose proof (fval_mk_float false (Zpos pM) (-3) ltac:(lia)) as Hf.
        unfold mk_float in *. eexists _, _. split; [reflexivity|].
        rewrite Hf, Hv, pow2_m3. reflexivity.
      * assert (Z.log2 M < 53) by (apply Z.log2_lt_pow2; lia). lia.
      * rewrite Hv, pow2_m3. reflexivity.
Qed.

Lemma num_is_compat x v v' : (v == v')%Q -> num_is x v -> num_is x v'.
Proof.
  intros E. destruct x as [z|f]; simpl.
  - intros H. now rewrite <- E.
  - intros ->. now apply f64_of_Q_compat.
Qed.

Lemma to_float_num x v : num_is x v -> to_float x = f64_of_Q v.
Proof.
  destruct x as [z|f]; simpl; [|auto].
  intros H. unfold float_of_int. now apply f64_of_Q_compat.
Qed.

Lemma f64_add_repr v1 v2 :
  repr8 v1 -> repr8 v2 -> f64_add (f64_of_Q v1) (f64_of_Q v2) = f64_of_Q (v1 + v2).
Proof.
  intros H1 H2.
  destruct (repr8_cases v1 H1) as [[E1 F1]|[P1 (m1 & e1 & F1 & V1)]];
  destruct (repr8_cases v2 H2) as [[E2 F2]|[P2 (m2 & e2 & F2 & V2)]];
    rewrite F1, F2 in *; cbn [f64_add]; change (fval (FZero false)) with 0%Q.
  - symmetry. apply f64_of_Q_zero. rewrite E1, E2. reflexivity.
  - destruct (Qeq_bool _ 0) eqn:Q0.
    + apply Qeq_bool_iff in Q0. rewrite V2 in Q0. lra.
    + apply f64_of_Q_compat. rewrite E1, V2. ring.
  - destruct (Qeq_bool _ 0) eqn:Q0.
    + apply Qeq_bool_iff in Q0. rewrite V1 in Q0. lra.
    + apply f64_of_Q_compat. rewrite E2, V1. ring.
  - destruct (Qeq_bool _ 0) eqn:Q0.
    + apply Qeq_bool_iff in Q0. rewrite V1, V2 in Q0. lra.
    + apply f64_of_Q_compat. rewrite V1, V2. reflexivity.
Qed.

Lemma f64_mul_repr v1 v2 :
  repr8 v1 -> repr8 v2 -> f64_mul (f64_of_Q v1) (f64_of_Q v2) = f64_of_Q (v1 * v2).
Proof.
  intros H1 H2.
  destruct (repr8_cases v1 H1) as [[E1 F1]|[P1 (m1 & e1 & F1 & V1)]];
  destruct (repr8_cases v2 H2) as [[E2 F2]|[P2 (m2 & e2 & F2 & V2)]];
    rewrite F1, F2 in *; cbn [f64_mul fneg xorb].
  1-3: symmetry; apply f64_of_Q_zero; rewrite ?E1, ?E2; ring.
  destruct (Qeq_bool _ 0) eqn:Q0.
  - apply Qeq_bool_iff in Q0. rewrite V1, V2 in Q0.
    assert (0 < v1 * v2)%Q by (apply Qmult_lt_0_compat; assumption). lra.
  - apply f64_of_Q_compat. rewrite V1, V2. reflexivity.
Qed.

Lemma py_add_num x y v1 v2 :
  num_is x v1 -> num_is y v2 -> repr8 v1 -> repr8 v2 -> num_is (py_add x y) (v1 + v2).
Proof.
  intros Hx Hy R1 R2.
  destruct x as [a|f], y as [b|g];
    [simpl in *; rewrite inject_Z_plus, Hx, Hy; reflexivity|..];
    cbn [py_add num_is]; rewrite (to_float_num _ v1 Hx), (to_float_num _ v2 Hy);
    now apply f64_add_repr.
Qed.

Lemma py_mul_num x y v1 v2 :
  num_is x v1 -> num_is y v2 -> repr8 v1 -> repr8 v2 -> num_is (py_mul x y) (v1 * v2).
Proof.
  intros Hx Hy R1 R2.
  destruct x as [a|f], y as [b|g];
    [simpl in *; rewrite inject_Z_mult, Hx, Hy; reflexivity|..];
    cbn [py_mul num_is]; rewrite (to_float_num _ v1 Hx), (to_float_num _ v2 Hy);
    now apply f64_mul_repr.
Qed.

Lemma repr8_int z : 0 <= z < 2 ^ 50 -> repr8 (inject_Z z).
Proof.
  intros Hz. exists (8 * z). split; [lia|].
  rewrite inject_Z_mult. change (inject_Z 8) with (8 # 1). field.
Qed.

Lemma repr8_half w : 0 <= w < 2 ^ 51 -> repr8 (inject_Z w * (1 # 2)).
Proof.
  intros Hw. exists (4 * w). split; [lia|].
  rewrite inject_Z_mult. change (inject_Z 4) with (4 # 1). field.
Qed.

Lemma py_round2_repr v :
  repr8 v -> py_round2 (PFloat (f64_of_Q v)) = PFloat (f64_of_Q (round2 v)).
Proof.
  intros R. destruct (repr8_cases v R) as [[E F]|[P (m & e & F & V)]].
  - rewrite F. simpl. f_equal. symmetry. apply f64_of_Q_zero.
    rewrite (round2_compat v 0 E). reflexivity.
  - rewrite F in *. cbn [py_round2]. rewrite (round2_compat _ _ V).
    destruct (Qeq_bool (round2 v) 0) eqn:Z0; [|reflexivity].
    apply Qeq_bool_iff in Z0. f_equal. symmetry. now apply f64_of_Q_zero.
Qed.

Lemma sumZ_nonneg c l : (forall sid, In sid l -> 0 <= c sid) -> 0 <= sumZ c l.
Proof.
  induction l as [|x r IH]; intros H; simpl; [lia|].
  specialize (IH (fun s Hs => H s (or_intror Hs))). specialize (H x (or_introl eq_refl)). lia.
Qed.

Lemma sumZ_le c C l : (forall sid, In sid l -> c sid <= C) -> sumZ c l <= C * Z.of_nat (List.length l).
Proof.
  induction l as [|x r IH]; intros H; simpl; [lia|].
  specialize (IH (fun s Hs => H s (or_intror Hs))). specialize (H x (or_introl eq_refl)). lia.
Qed.

Lemma fold_num (F : string -> pynum) (c : string -> Z) l acc w0 :
  (forall sid, In sid l -> num_is (F sid) (inject_Z (c sid) * (1 # 2)) /\ 0 <= c sid) ->
  num_is acc (inject_Z w0 * (1 # 2)) -> 0 <= w0 -> w0 + sumZ c l < 2 ^ 51 ->
  num_is (fold_left (fun a sid => py_add a (F sid)) l acc)
         (inject_Z (w0 + sumZ c l) * (1 # 2)).
Proof.
  revert acc w0. induction l as [|x r IH]; intros acc w0 HF Hacc Hw Hb; simpl.
  - eapply num_is_compat; [|exact Hacc]. now rewrite Z.add_0_r.
  - assert (Hr : 0 <= sumZ c r) by (apply sumZ_nonneg; intros; apply HF; now right).
    destruct (HF x (or_introl eq_refl)) as [Fx Cx].
    replace (w0 + (c x + sumZ c r)) with ((w0 + c x) + sumZ c r) by ring.
    simpl in Hb. apply IH; [intros; apply HF; now right| |lia|lia].
    eapply num_is_compat; [|apply (py_add_num _ _ _ _ Hacc Fx)].
    + rewrite inject_Z_plus. ring.
    + apply repr8_half. lia.
    + apply repr8_half. lia.
Qed.

Lemma fold_int (F : string -> pynum) (k : string -> Z) l a :
  (forall sid, In sid l -> F sid = PInt (k sid)) ->
  fold_left (fun acc sid => py_add acc (F sid)) l (PInt a) = PInt (a + sumZ k l).
Proof.
  revert a. induction l as [|x r IH]; intros a H; simpl; [f_equal; lia|].
  rewrite (H x (or_introl eq_refl)). simpl. rewrite IH by (intros; apply H; now right).
  f_equal. lia.
Qed.

Lemma py_add_float_l f y : exists g, py_add (PFloat f) y = PFloat g.
Proof. destruct y; eexists; reflexivity. Qed.

Lemma py_add_float_r x f : exists g, py_add x (PFloat f) = PFloat g.
Proof. destruct x; eexists; reflexivity. Qed.

Lemma fold_float (F : string -> pynum) l acc :
  (exists f, acc = PFloat f) \/ (exists sid f, In sid l /\ F sid = PFloat f) ->
  exists g, fold_left (fun a sid => py_add a (F sid)) l acc = PFloat g.
Proof.
  revert acc. induction l as [|x r IH]; intros acc H; simpl.
  - destruct H as [H|(sid & f & [] & _)]. exact H.
  - apply IH. destruct H as [(f & ->)|(sid & f & [<-|Hin] & Hf)].
    + left. apply py_add_float_l.
    + left. rewrite Hf. apply py_add_float_r.
    + destruct (py_add acc (F x)) as [z|g] eqn:E.
      * right. now exists sid, f.
      * left. now exists g.
Qed.

Lemma num_is_float f v : num_is (PFloat f) v -> PFloat f = PFloat (f64_of_Q v).
Proof. simpl. now intros ->. Qed.

Lemma repr8_quarter w : 0 <= w < 2 ^ 51 -> repr8 (inject_Z w * (1 # 2) * (1 # 4)).
Proof.
  intros Hw. exists w. split; [lia|]. field.
Qed.

Lemma spec_fold_half p d sel :
  (fold_right (fun sid acc => spec_rate (inject_Z p) sid * inject_Z d + acc) 0 sel
   == inject_Z (sumZ (half_units p d) sel)
      * (1 # 2))%Q.
Proof.
  induction sel as [|x r IH]; simpl; [reflexivity|]. rewrite IH.
  unfold spec_rate, half_units. destruct (startswith "B-" x);
    rewrite inject_Z_plus, ?inject_Z_mult; change (inject_Z 2) with (2 # 1); ring.
Qed.

Lemma total_amount_num p d sel :
  0 < p -> 0 < d -> p * d * Z.of_nat (List.length sel) < 2 ^ 50 ->
  num_is (total_amount (PInt p) d sel)
    (inject_Z (sumZ (half_units p d) sel)
     * (1 # 2))
  /\ 0 <= sumZ (half_units p d) sel < 2 ^ 51.
Proof.
  intros Hp Hd Hb.
  set (c := half_units p d).
  assert (Hn : 1 <= Z.of_nat (List.length sel) \/ sel = []).
  { destruct sel; [now right|left; simpl; lia]. }
  assert (Hpd : p * d < 2 ^ 50 \/ sel = []) by (destruct Hn as [Hn|]; [left; nia|now right]).
  assert (Hs : 0 <= sumZ c sel <= 2 * p * d * Z.of_nat (List.length sel)).
  { split; [apply sumZ_nonneg | apply sumZ_le]; intros sid _; unfold c;
      unfold half_units; destruct (startswith "B-" sid); nia. }
  split; [|lia].
  unfold total_amount.
  replace (sumZ c sel) with (0 + sumZ c sel) by lia.
  apply fold_num; [| reflexivity | lia | lia].
  intros sid Hin. destruct Hpd as [Hpd| ->]; [|destruct Hin].
  unfold c, half_units, slot_price. destruct (startswith "B-" sid); split; try nia.
  - eapply num_is_compat;
      [|apply (py_mul_num _ _ (inject_Z p * (1 # 2)) (inject_Z d));
         [apply (py_mul_num _ _ (inject_Z p) (1 # 2))| | | ]].
    + rewrite inject_Z_mult. ring.
    + reflexivity.
    + reflexivity.
    + apply repr8_int. lia.
    + exists 4. split; [lia|reflexivity].
    + simpl. reflexivity.
    + apply repr8_half. lia.
    + apply repr8_int. nia.
  - cbn [py_mul num_is]. rewrite !inject_Z_mult. change (inject_Z 2) with (2 # 1). ring.
Qed.

Lemma sumZ_const k l : sumZ (fun _ => k) l = k * Z.of_nat (List.length l).
Proof. induction l as [|x r IH]; simpl; [lia|]. rewrite IH. lia. Qed.

Lemma booking_amount_int u p d sel :
  0 < p -> 0 < d -> p * d * Z.of_nat (List.length sel) < 2 ^ 50 ->
  booking_amount u (PInt p) d sel =
    if is_staff u || existsb (startswith "B-") sel
    then PFloat (f64_of_Q (spec_amount (is_staff u) (inject_Z p) d sel))
    else PInt (p * d * Z.of_nat (List.length sel)).
Proof.
  intros Hp Hd Hb. destruct (total_amount_num p d sel Hp Hd Hb) as [Hn Hw].
  set (w := sumZ (half_units p d) sel) in *.
  assert (R : repr8 (inject_Z w * (1 # 2))) by (apply repr8_half; lia).
  assert (R4 : repr8 (1 # 4)) by (exists 2; split; [lia|reflexivity]).
  assert (Hq : num_is (PFloat (float_lit (1 # 4))) (1 # 4)) by reflexivity.
  unfold booking_amount, spec_amount.
  rewrite (round2_compat _ ((if is_staff u then 1 # 4 else 1) * (inject_Z w * (1 # 2))))
    by (now rewrite spec_fold_half).
  destruct (existsb (startswith "B-") sel) eqn:Eb.
  - destruct (fold_float (fun sid => py_mul (slot_price (PInt p) sid) (PInt d)) sel (PInt 0))
      as [g Eg].
    { right. apply existsb_exists in Eb as (sid & Hin & Hs). exists sid. eexists.
      split; [exact Hin|]. unfold slot_price. rewrite Hs. reflexivity. }
    unfold total_amount in Hn |- *. rewrite Eg in Hn |- *. rewrite orb_true_r.
    destruct (is_staff u).
    + pose proof (py_mul_num _ _ _ _ Hn Hq R R4) as Hm. cbn [py_mul num_is] in Hm |- *.
      rewrite Hm, py_round2_repr by (apply repr8_quarter; lia).
      do 2 f_equal. apply round2_compat. ring.
    + rewrite (num_is_float _ _ Hn), py_round2_repr by exact R.
      do 2 f_equal. apply round2_compat. ring.
  - rewrite orb_false_r.
    assert (Ht : total_amount (PInt p) d sel = PInt (p * d * Z.of_nat (List.length sel))).
    { unfold total_amount. rewrite (fold_int _ (fun _ => p * d)).
      - f_equal. rewrite sumZ_const. lia.
      - intros sid Hin. unfold slot_price. destruct (startswith "B-" sid) eqn:Es; [|reflexivity].
        assert (existsb (startswith "B-") sel = true) by (apply existsb_exists; eauto).
        congruence. }
    rewrite Ht in Hn |- *. destruct (is_staff u); [|reflexivity].
    pose proof (py_mul_num _ _ _ _ Hn Hq R R4) as Hm. cbn [py_mul num_is] in Hm |- *.
    rewrite Hm, py_round2_repr by (apply repr8_quarter; lia).
    do 2 f_equal. apply round2_compat. ring.
Qed.











(** A [BookOk] answer passed every check of the handler. *)
Lemma add_hours_some t h e : add_hours t h = Some e -> e = t + h * hour_us.
Proof. unfold add_hours. destruct (_ && _); congruence. Qed.

Lemma book_spot_ok_inv u rq t1 t2 s bid :
  fst (book_spot u rq t1 t2 s) = inl (BookOk bid) ->
  exists aid start a,
    let sel := parse_slot_ids (rq_slot_str rq) in
    rq_area rq = Some aid /\ rq_time rq = TimeAt start
    /\ sel <> [] /\ profile_ok u = true
    /\ add_hours start (rq_duration rq) = Some (start + rq_duration rq * hour_us)
    /\ find_area aid s = Some a
    /\ find (collides aid start (start + rq_duration rq * hour_us) sel) (bookings s) = None
    /\ locked_by_other (u_id u) aid (slot_locks s) sel = false
    /\ dt_ok (start + 15 * minute_us) = true
    /\ bson_ok (booking_amount u (area_price a) (rq_duration rq) sel) = true.
Proof.
  unfold book_spot.
  destruct (rq_area rq) as [aid|]; [|discriminate].
  destruct (rq_time rq) as [| |start]; [discriminate| |].
  all: destruct (Nat.eqb_spec (List.length (parse_slot_ids (rq_slot_str rq))) 0) as [E|E];
    [discriminate|]; destruct (profile_ok u) eqn:Ep; [|discriminate].
  - discriminate.
  - destruct (add_hours start (rq_duration rq)) as [end_|] eqn:Eh; [|discriminate].
    pose proof (add_hours_some _ _ _ Eh) as ->.
    unfold bind, gets, ret, raise.
    cbn -[find_area find locked_by_other update_first hour_us minute_us Z.mul
          booking_amount dt_ok bson_ok].
    destruct (find_area aid s) as [a|] eqn:Ea; [|discriminate].
    destruct (find _ (bookings s)) eqn:Ec; [discriminate|].
    destruct (locked_by_other _ _ _ _) eqn:El; [discriminate|].
    destruct (dt_ok _) eqn:Ed; [|discriminate].
    destruct (bson_ok _) eqn:Eb; [|discriminate].
    intros _. exists aid, start, a. repeat split; auto.
    intros H. apply E. now rewrite H.
Qed.

Lemma find_update_first_same {A} (p : A -> bool) f l x :
  find p l = Some x -> p (f x) = true -> find p (update_first p f l) = Some (f x).
Proof.
  induction l as [|y r IH]; simpl; [discriminate|].
  destruct (p y) eqn:Ey.
  - intros [= <-] Hf. simpl. now rewrite Hf.
  - intros H Hf. simpl. rewrite Ey. auto.
Qed.

Lemma find_none_intro {A} (p : A -> bool) l :
  (forall x, In x l -> p x = false) -> find p l = None.
Proof.
  induction l as [|y r IH]; simpl; [reflexivity|].
  intros H. rewrite (H y (or_introl eq_refl)). auto.
Qed.

Lemma occ_inv_nonneg s :
  occ_inv s -> Forall (fun a => 0 <= a_occupied a) (areas s).
Proof.
  intros (_ & _ & _ & H). eapply Forall_impl; [|exact H].
  intros a ->. apply live_sum_nonneg.
Qed.

Lemma exec_occ_inv o s : occ_inv s -> pay_on_live o s -> occ_inv (exec o s).
Proof.
  intros Hinv Hpay. destruct o; simpl in *.
  - now apply book_spot_inv.
  - now apply pay_booking_inv.
  - now apply cancel_booking_inv.
  - now apply extend_booking_inv.
  - now apply verify_booking_inv.
  - now apply check_no_shows_inv.
  - now apply check_expiry_reminders_inv.
Qed.

Lemma overbook_run :
  occ_inv db_cap1
  /\ Forall (fun a => 0 <= a_occupied a <= a_capacity a) (areas db_cap1)
  /\ areas (exec overbook db_cap1) = [mkArea 1 1 2 (Some (PInt 20))].
Proof.
  split; [|split].
  - unfold occ_inv, accounting. simpl.
    repeat split; repeat constructor; simpl; tauto.
  - repeat constructor; simpl; lia.
  - vm_compute. reflexivity.
Qed.

(** ** Check-out *)

Lemma ceil_div_pos x d : 0 < x -> 0 < d -> 1 <= ceil_div x d.
Proof.
  intros Hx Hd. unfold ceil_div.
  assert (H : (- x) / d < 0) by (apply Z.div_lt_upper_bound; lia).
  lia.
Qed.



(** ** Locks *)

Lemma in_key_unique_gen {A B} (k : A -> B) l x y :
  NoDup (map k l) -> In x l -> In y l -> k x = k y -> x = y.
Proof.
  induction l as [|z r IH]; simpl; [tauto|].
  intros Hnd Hx Hy E. inversion Hnd as [|? ? Hni Hnd']; subst.
  destruct Hx as [<-|Hx], Hy as [<-|Hy]; auto.
  - exfalso. apply Hni. rewrite E. now apply in_map.
  - exfalso. apply Hni. rewrite <- E. now apply in_map.
Qed.

Lemma map_update_first_key {A B} (k : A -> B) (p : A -> bool) f l :
  (forall x, p x = true -> k (f x) = k x) -> map k (update_first p f l) = map k l.
Proof.
  intros Hk. induction l as [|x r IH]; simpl; [reflexivity|].
  destruct (p x) eqn:E; simpl; [now rewrite Hk | now rewrite IH].
Qed.

Lemma NoDup_map_snoc {A B} (k : A -> B) l x :
  NoDup (map k l) -> ~ In (k x) (map k l) -> NoDup (map k (l ++ [x])).
Proof.
  induction l as [|y r IH]; simpl; intros Hnd Hni.
  - constructor; [tauto | constructor].
  - inversion Hnd as [|? ? Hy Hnd']; subst. constructor.
    + rewrite map_app. simpl. intros Hin. apply in_app_or in Hin as [H|[H|[]]].
      * exact (Hy H).
      * apply Hni. now left.
    + apply IH; auto.
Qed.

Lemma find_snoc {A} (p : A -> bool) l x :
  find p l = None -> p x = true -> find p (l ++ [x]) = Some x.
Proof.
  induction l as [|y r IH]; simpl.
  - intros _ H. now rewrite H.
  - destruct (p y); [discriminate|]. auto.
Qed.

Lemma lock_key_id aid sid l : lock_key aid sid l = true <-> lock_id l = (aid, sid).
Proof.
  unfold lock_key, lock_id. rewrite andb_true_iff, Nat.eqb_eq, String.eqb_eq.
  split; [intros [-> ->]; reflexivity | intros H; injection H as -> ->; auto].
Qed.

Lemma lock_key_new aid sid uid e : lock_key aid sid (mkLock aid sid uid e) = true.
Proof. apply lock_key_id. reflexivity. Qed.

Lemma upsert_lock_inv aid sid uid e ls :
  NoDup (map lock_id ls) -> NoDup (map lock_id (upsert_lock aid sid uid e ls)).
Proof.
  intros Hnd. unfold upsert_lock.
  destruct (find (lock_key aid sid) ls) as [x|] eqn:Ef.
  - rewrite map_update_first_key; [exact Hnd|].
    intros y Hy. apply lock_key_id in Hy. rewrite Hy. reflexivity.
  - apply NoDup_map_snoc; [exact Hnd|]. intros Hin.
    apply in_map_iff in Hin as [y [Hy Hin]].
    assert (Hk : lock_key aid sid y = true) by (apply lock_key_id; exact Hy).
    rewrite (find_none _ _ Ef y Hin) in Hk. discriminate.
Qed.

Lemma upsert_lock_find aid sid uid e ls :
  find (lock_key aid sid) (upsert_lock aid sid uid e ls) = Some (mkLock aid sid uid e).
Proof.
  unfold upsert_lock. destruct (find (lock_key aid sid) ls) as [x|] eqn:Ef.
  - apply (find_update_first_same _ (fun _ => mkLock aid sid uid e) _ x); [exact Ef | apply lock_key_new].
  - apply find_snoc; [exact Ef | apply lock_key_new].
Qed.

Lemma cleanup_locks_inv now s : lock_inv s -> lock_inv (snd (cleanup_locks now s)).
Proof. intros H. unfold lock_inv. simpl. now apply NoDup_map_filter. Qed.

Lemma unlock_slot_inv u aid sid s : lock_inv s -> lock_inv (snd (unlock_slot u aid sid s)).
Proof. intros H. unfold lock_inv. simpl. now apply NoDup_map_delete_first. Qed.

Lemma lock_slot_inv u now aid sid s : lock_inv s -> lock_inv (snd (lock_slot u now aid sid s)).
Proof.
  intros H. apply (cleanup_locks_inv now) in H. revert H.
  unfold lock_slot, bind at 1. destruct (cleanup_locks now s) as [[[]|e] s1]; [|auto].
  simpl. intros H. unfold bind, gets, ret, modify. simpl.
  destruct (find (lock_key aid sid) (slot_locks s1)) as [l|];
    [destruct (negb (Nat.eqb (l_user l) (u_id u)))|]; simpl; auto;
    unfold lock_inv; simpl; now apply upsert_lock_inv.
Qed.

(** Handlers other than [lock_slot], [unlock_slot], [cleanup_locks] and
    [book_spot] leave [slot_locks] alone; [book_spot] only filters it. *)
Ltac lock_frame :=
  repeat first
    [ apply preserves_bind; [|intros ?]
    | apply preserves_ret | apply preserves_raise | apply preserves_gets
    | apply preserves_level_of
    | apply preserves_iterM; intros ?
    | match goal with |- preserves _ (match ?x with _ => _ end) => destruct x end
    | match goal with |- preserves _ (if ?x then _ else _) => destruct x end
    | let s := fresh "s" in let H := fresh "H" in intros s H; exact H ].

Lemma exec_lock_inv o s : lock_inv s -> lock_inv (exec o s).
Proof.
  revert s. destruct o; simpl; intros s0 Hs0.
  - revert s0 Hs0. change (preserves lock_inv (book_spot u rq tok tok_exit)).
    unfold book_spot, release_user_locks. lock_frame.
    + intros s H. unfold lock_inv. simpl. now apply NoDup_map_filter.
  - revert s0 Hs0. change (preserves lock_inv (pay_booking u bid)).
    unfold pay_booking. lock_frame.
  - revert s0 Hs0. change (preserves lock_inv (cancel_booking u bid)).
    unfold cancel_booking. lock_frame.
  - revert s0 Hs0. change (preserves lock_inv (extend_booking u bid hours)).
    unfold extend_booking. lock_frame.
  - revert s0 Hs0. change (preserves lock_inv (verify_booking u now token vehicle)).
    unfold verify_booking, check_out, overstay, notify_level. lock_frame.
  - revert s0 Hs0. change (preserves lock_inv (check_no_shows area_filter now)).
    unfold check_no_shows, no_show_one, notify_level. lock_frame.
  - revert s0 Hs0. change (preserves lock_inv (check_expiry_reminders now)).
    unfold check_expiry_reminders. lock_frame.
Qed.

Definition lock_live (now : Z) (l : lock) : bool := negb (l_expires l <? now).

Lemma lock_slot_run u now aid sid s :
  let ls := filter (lock_live now) (slot_locks s) in
  lock_slot u now aid sid s =
  match find (lock_key aid sid) ls with
  | Some l =>
      if negb (Nat.eqb (l_user l) (u_id u)) then (inl LockHeld, set_locks ls s)
      else (inl LockOk, set_locks (upsert_lock aid sid (u_id u) (now + 5 * minute_us) ls)
                          (set_locks ls s))
  | None => (inl LockOk, set_locks (upsert_lock aid sid (u_id u) (now + 5 * minute_us) ls)
                           (set_locks ls s))
  end.
Proof.
  intros ls. unfold lock_slot, cleanup_locks, bind, gets, modify, ret. simpl.
  fold (lock_live now). fold ls.
  destruct (find (lock_key aid sid) ls) as [l|]; [destruct (negb _)|]; reflexivity.
Qed.

(** ** The no-show loop on a bike slot *)

Lemma level_of_bike rest s : level_of ("B-" ++ rest) s = (inr ValueError, s).
Proof. reflexivity. Qed.

Lemma iterM_app {A} (f : A -> M unit) l1 l2 s :
  iterM f (l1 ++ l2) s = bind (iterM f l1) (fun _ => iterM f l2) s.
Proof.
  revert s. induction l1 as [|x r IH]; intros s; simpl.
  - reflexivity.
  - specialize (IH (snd (f x s))). cbv [bind] in *.
    destruct (f x s) as [[[]|e] s1]; [exact IH | reflexivity].
Qed.

(** A loop whose body raises only [ValueError] and always raises on [x]
    raises [ValueError] when [x] is among its items. *)
Lemma iterM_raises {A} (f : A -> M unit) l x :
  (forall y s e, fst (f y s) = inr e -> e = ValueError) ->
  (forall s, exists e, fst (f x s) = inr e) ->
  In x l -> forall s, fst (iterM f l s) = inr ValueError.
Proof.
  intros Honly Hx. induction l as [|y r IH]; [intros []|].
  intros Hin s. simpl. unfold bind.
  destruct (f y s) as [[[]|e] s1] eqn:Ey.
  - destruct Hin as [<-|Hin].
    + destruct (Hx s) as [e He]. rewrite Ey in He. discriminate.
    + now apply IH.
  - simpl. f_equal. apply (Honly y s e). now rewrite Ey.
Qed.

Lemma level_of_only sid s e : fst (level_of sid s) = inr e -> e = ValueError.
Proof.
  unfold level_of. destruct (has_char _ _); [destruct (py_int _)|];
    simpl; congruence.
Qed.

Lemma iterM_only {A} (f : A -> M unit) l :
  (forall y s e, fst (f y s) = inr e -> e = ValueError) ->
  forall s e, fst (iterM f l s) = inr e -> e = ValueError.
Proof.
  intros Hf. induction l as [|y r IH]; intros s e; simpl; [discriminate|].
  unfold bind. destruct (f y s) as [[[]|e'] s1] eqn:Ey; [apply IH|].
  simpl. intros H. injection H as <-. apply (Hf y s). now rewrite Ey.
Qed.

Lemma notify_level_only aid sid s e :
  fst (notify_level aid sid s) = inr e -> e = ValueError.
Proof.
  unfold notify_level, bind at 1. destruct (level_of sid s) as [[lv|e'] s1] eqn:E.
  - unfold bind, gets. apply iterM_only. intros p s2 e2. discriminate.
  - simpl. intros H. injection H as <-. apply (level_of_only sid s). now rewrite E.
Qed.

Lemma no_show_one_only b s e : fst (no_show_one b s) = inr e -> e = ValueError.
Proof.
  unfold no_show_one, bind at 1 2. simpl.
  apply iterM_only. intros sid s1 e1. apply notify_level_only.
Qed.

Lemma no_show_one_bike b rest s :
  In ("B-" ++ rest)%string (b_slot_ids b) -> fst (no_show_one b s) = inr ValueError.
Proof.
  intros Hin. unfold no_show_one, bind at 1 2. simpl.
  apply (iterM_raises _ _ ("B-" ++ rest)%string); [| |exact Hin].
  - intros sid s1 e1. apply notify_level_only.
  - intros s1. exists ValueError. unfold notify_level, bind at 1.
    rewrite level_of_bike. reflexivity.
Qed.

Lemma no_show_one_keeps b b' s :
  In b' (bookings s) -> b_id b' <> b_id b -> In b' (bookings (snd (no_show_one b s))).
Proof.
  intros Hin Hne. rewrite (proj1 (no_show_one_core b s)).
  apply in_update_first_other; [exact Hin|]. now apply Nat.eqb_neq.
Qed.

Lemma no_show_loop_keeps bs b' s :
  In b' (bookings s) -> (forall c, In c bs -> b_id b' <> b_id c) ->
  In b' (bookings (snd (iterM no_show_one bs s))).
Proof.
  revert s. induction bs as [|c r IH]; intros s Hin Hne; simpl; [exact Hin|].
  unfold bind. pose proof (no_show_one_keeps c b' s Hin (Hne c (or_introl eq_refl))) as H.
  destruct (no_show_one c s) as [[[]|e] s1]; simpl in *; [|exact H].
  apply IH; [exact H|]. intros c' Hc'. apply Hne. now right.
Qed.

Lemma NoDup_map_app_disjoint {A B} (k : A -> B) l1 l2 x y :
  NoDup (map k (l1 ++ l2)) -> In x l1 -> In y l2 -> k x <> k y.
Proof.
  induction l1 as [|z r IH]; [intros _ []|].
  simpl. intros Hnd Hx Hy. inversion Hnd as [|? ? Hni Hnd']; subst.
  destruct Hx as [<-|Hx]; [|now apply IH].
  intros E. apply Hni. rewrite map_app. apply in_or_app. right. rewrite E.
  now apply in_map.
Qed.

(** * Claims *)

(** ** C1 *)

(** C1 (amended).  Every lifecycle and sweeper handler (Create, CheckIn,
    CheckOut, Cancel, Extend, the no-show sweep, the reminder sweep, and
    ConfirmPayment applied to a live booking) keeps, for every area,
    [occupied] equal to the sum of [spots] over its bookings in Pending
    Payment, Confirmed or Active, hence [0 <= occupied]; this holds also
    when the no-show sweep stops on an exception.  No handler compares
    [occupied] with [capacity]: Create can take an area past its capacity. *)
Theorem occupancy_accounting :
  (forall o s, occ_inv s -> pay_on_live o s ->
     occ_inv (exec o s) /\ Forall (fun a => 0 <= a_occupied a) (areas (exec o s)))
  /\ (exists o s, occ_inv s
        /\ Forall (fun a => 0 <= a_occupied a <= a_capacity a) (areas s)
        /\ Exists (fun a => a_capacity a < a_occupied a) (areas (exec o s))).
Proof.
  split.
  - intros o s Hinv Hpay. pose proof (exec_occ_inv o s Hinv Hpay) as H.
    split; [exact H | now apply occ_inv_nonneg].
  - exists overbook, db_cap1.
    destruct overbook_run as (H1 & H2 & H3). split; [exact H1|]. split; [exact H2|].
    rewrite H3. constructor. simpl. lia.
Qed.

Lemma occupancy_accounting_witness :
  occ_inv db_area20 /\ pay_on_live (OpBook rider (req "C-01" 2) "A1B2C3D4" "E5F6A7B8") db_area20
  /\ occ_inv (exec (OpBook rider (req "C-01" 2) "A1B2C3D4" "E5F6A7B8") db_area20).
Proof.
  assert (H : occ_inv db_area20).
  { unfold occ_inv, accounting. simpl. repeat split; repeat constructor; simpl; tauto. }
  split; [exact H|]. split; [exact I|].
  exact (proj1 (proj1 occupancy_accounting
    (OpBook rider (req "C-01" 2) "A1B2C3D4" "E5F6A7B8") db_area20 H I)).
Defined.

(** C1 (as stated) fails: from a store where [0 <= occupied <= capacity]
    holds, booking two slots in an area of capacity 1 leaves [occupied = 2]. *)
Lemma occupancy_over_capacity :
  occ_inv db_cap1
  /\ Forall (fun a => 0 <= a_occupied a <= a_capacity a) (areas db_cap1)
  /\ Exists (fun a => a_capacity a < a_occupied a) (areas (exec overbook db_cap1)).
Proof.
  destruct overbook_run as (H1 & H2 & H3).
  split; [exact H1|]. split; [exact H2|].
  rewrite H3. constructor. simpl. lia.
Qed.

(** ** C5 *)

(** C5 (amended).  Whenever Create succeeds, the inserted booking has status
    Pending Payment and [amount = round(t, 2)], where [t] is computed with
    Python numbers: the sum over the selected slots of [rate * duration],
    the rate being [base_price * 0.5] for a bike slot ([B-] prefix) and
    [base_price] otherwise, and [t * 0.25] for staff.  When the base price
    is a positive integer [p], the duration [d] is positive and
    [p * d * n < 2^50] for [n] slots, this is the spec's amount: the
    integer [p * d * n] for a non-staff booking without bike slot, and
    otherwise the binary64 number nearest to the spec's amount rounded to
    2 places.  With base price 20 and 2 hours, one car slot gives 40 and one
    bike slot [B-01] gives 20.0, and occupied goes from 0 to 1. *)
Theorem book_spot_amount :
  (forall u rq t1 t2 s bid,
     fst (book_spot u rq t1 t2 s) = inl (BookOk bid) ->
     exists aid a b,
       rq_area rq = Some aid /\ find_area aid s = Some a
       /\ bookings (snd (book_spot u rq t1 t2 s)) = bookings s ++ [b]
       /\ b_id b = bid /\ b_slot_ids b <> [] /\ b_status b = PendingPayment
       /\ b_amount b = booking_amount u (area_price a) (rq_duration rq) (b_slot_ids b)
       /\ (forall p, area_price a = PInt p -> 0 < p -> 0 < rq_duration rq ->
             p * rq_duration rq * Z.of_nat (List.length (b_slot_ids b)) < 2 ^ 50 ->
             b_amount b =
               if is_staff u || existsb (startswith "B-") (b_slot_ids b)
               then PFloat (f64_of_Q (spec_amount (is_staff u) (inject_Z p)
                                        (rq_duration rq) (b_slot_ids b)))
               else PInt (p * rq_duration rq * Z.of_nat (List.length (b_slot_ids b)))))
  /\ map (fun b => (b_amount b, b_status b))
       (bookings (snd (book_spot rider (req "C-01" 2) "A1B2C3D4" "E5F6A7B8" db_area20)))
     = [(PInt 40, PendingPayment)]
  /\ map a_occupied
       (areas (snd (book_spot rider (req "C-01" 2) "A1B2C3D4" "E5F6A7B8" db_area20)))
     = [1]
  /\ map (fun b => (b_amount b, b_status b))
       (bookings (snd (book_spot rider (req "B-01" 2) "A1B2C3D4" "E5F6A7B8" db_area20)))
     = [(PFloat (float_lit 20), PendingPayment)].
Proof.
  split; [|vm_compute; repeat split].
  intros u rq t1 t2 s bid Hok.
  destruct (book_spot_ok_inv u rq t1 t2 s bid Hok)
    as (aid & start & a & Ha & Ht & Hsel & Hp & Hh & Hfa & Hc & Hl & Hd & Hb).
  destruct (book_spot_success u rq t1 t2 s aid start a Ha Ht Hsel Hp Hh Hfa Hc Hl Hd Hb)
    as (Hr & (b & Hbs & Hid & _ & _ & _ & _ & Hsids & _ & Hst & Ham) & _).
  rewrite Hok in Hr. injection Hr as ->.
  exists aid, a, b. rewrite Hsids. repeat split; auto.
  intros p Ep Hp0 Hd0 Hbound. rewrite Ham, Ep. now apply booking_amount_int.
Qed.

Lemma book_spot_amount_witness :
  fst (book_spot rider (req "C-01" 2) "A1B2C3D4" "E5F6A7B8" db_area20) = inl (BookOk 0)
  /\ exists aid a b,
       rq_area (req "C-01" 2) = Some aid /\ find_area aid db_area20 = Some a
       /\ bookings (snd (book_spot rider (req "C-01" 2) "A1B2C3D4" "E5F6A7B8" db_area20))
          = bookings db_area20 ++ [b]
       /\ b_id b = 0%nat /\ b_slot_ids b <> [] /\ b_status b = PendingPayment
       /\ b_amount b = booking_amount rider (area_price a) (rq_duration (req "C-01" 2))
                         (b_slot_ids b)
       /\ (forall p, area_price a = PInt p -> 0 < p -> 0 < rq_duration (req "C-01" 2) ->
             p * rq_duration (req "C-01" 2) * Z.of_nat (List.length (b_slot_ids b)) < 2 ^ 50 ->
             b_amount b =
               if is_staff rider || existsb (startswith "B-") (b_slot_ids b)
               then PFloat (f64_of_Q (spec_amount (is_staff rider) (inject_Z p)
                                        (rq_duration (req "C-01" 2)) (b_slot_ids b)))
               else PInt (p * rq_duration (req "C-01" 2) * Z.of_nat (List.length (b_slot_ids b)))).
Proof.
  assert (H : fst (book_spot rider (req "C-01" 2) "A1B2C3D4" "E5F6A7B8" db_area20)
              = inl (BookOk 0)) by (vm_compute; reflexivity).
  split; [exact H|].
  exact (proj1 book_spot_amount rider (req "C-01" 2) "A1B2C3D4"%string "E5F6A7B8"%string db_area20 0%nat H).
Defined.

(** C5 (as stated) fails for a base price that is not an integer: with
    base price 10.7, a staff Create of one car slot for one hour stores
    [round(10.7 * 1 * 0.25, 2) = 2.67] (the float product is just below
    2.675), while the spec's amount, [2.675] rounded to 2 places, is 2.68. *)
Lemma book_spot_amount_float_price :
  fst (book_spot area_manager (req "C-01" 1) "A1B2C3D4" "E5F6A7B8" db_price107)
  = inl (BookOk 0)
  /\ map b_amount
       (bookings (snd (book_spot area_manager (req "C-01" 1) "A1B2C3D4" "E5F6A7B8" db_price107)))
     = [PFloat (float_lit (267 # 100))]
  /\ is_staff area_manager = true
  /\ (spec_amount true (107 # 10) 1 ["C-01"%string] == 268 # 100)%Q
  /\ float_lit (267 # 100) <> float_lit (268 # 100).
Proof. vm_compute. repeat split. discriminate. Qed.

(** ** C10 *)




(** ** C2 *)

(** C2 (failing input).  [book_spot] compares a request only with the stored
    [end_time] of a live booking; it takes no clock and does not apply
    [effectiveEnd = max(end_time, now)] to Active bookings, which the
    availability view [get_area_slots] does.  At [now = t_2026 + 2h] an
    Active booking of [C-01] whose window ended at [t_2026 + 1h] still
    holds the slot, and a Create of [C-01] from [t_2026 + 1h30] succeeds
    although the spec's collision rule reports a collision. *)
Theorem book_spot_ignores_overstay :
  fst (book_spot rider req_after_parked "A1B2C3D4" "E5F6A7B8" db_parked) = inl (BookOk 1)
  /\ spec_slot_collision (t_2026 + 2 * hour_us) 1 (t_2026 + 90 * minute_us)
       (t_2026 + 90 * minute_us + 1 * hour_us) ["C-01"%string] (bookings db_parked) = true
  /\ map b_status
       (bookings (snd (book_spot rider req_after_parked "A1B2C3D4" "E5F6A7B8" db_parked)))
     = [Active; PendingPayment].
Proof. vm_compute. repeat split. Qed.

(** ** C3 *)

(** C3 (failing input).  [pay_booking] matches on id and owner only: paying
    for a Completed booking of the caller sets it back to Confirmed (and
    breaks the occupancy accounting), and paying for an id that matches no
    booking returns normally with the store unchanged instead of failing
    with NotFound. *)
Theorem pay_booking_no_status_guard :
  map b_status (bookings (snd (pay_booking rider 0 db_finished))) = [Confirmed]
  /\ occ_inv db_finished
  /\ ~ occ_inv (snd (pay_booking rider 0 db_finished))
  /\ pay_booking rider 7 db_finished = (inl tt, db_finished).
Proof.
  split; [vm_compute; reflexivity|]. split; [|split].
  - unfold occ_inv, accounting. simpl. repeat split; repeat constructor; simpl; tauto.
  - intros (_ & _ & _ & H). vm_compute in H. inversion H as [|a l Ha _].
    discriminate Ha.
  - vm_compute. reflexivity.
Qed.

(** ** C4 *)

(** C4 (failing input).  The no-show sweep stores [amount * 0.9] without
    rounding (6.25 gives 5.625, where rounding to 2 places gives 5.62,
    as [cancel_booking] does), and the level parse of bike slot [B-01]
    raises [ValueError], so the Confirmed booking that follows in the batch
    is neither cancelled nor released. *)
Theorem check_no_shows_unrounded_and_aborts :
  let r := check_no_shows None (t_2026 + 20 * minute_us) db_noshow in
  fst r = inr ValueError
  /\ map (fun b => (b_status b, b_refund b)) (bookings (snd r))
     = [(CancelledNoShow, Some (PFloat (float_lit (5625 # 1000)))); (Confirmed, None)]
  /\ py_round2 (py_mul (b_amount bike_noshow) (PFloat (float_lit (9 # 10))))
     = PFloat (float_lit (562 # 100))
  /\ float_lit (5625 # 1000) <> float_lit (562 # 100)
  /\ map a_occupied (areas (snd r)) = [1]
  /\ map (fun b => expired None (t_2026 + 20 * minute_us) b) (bookings db_noshow)
     = [true; true].
Proof. vm_compute. repeat split. discriminate. Qed.

(** ** C8 *)

(** C8 (failing input).  [book_spot] looks up locks without an expiry
    filter and, unlike [lock_slot] and [get_area_slots], never runs
    [cleanup_locks]: a lock of another user that expired at [t_2026] makes
    Create fail with SlotLocked, whatever the time, while at
    [t_2026 + 10min] [lock_slot] treats the same lock as absent. *)
Theorem book_spot_expired_lock :
  fst (book_spot rider (req "C-01" 1) "A1B2C3D4" "E5F6A7B8" db_stale)
  = inl (BookFail SlotLocked)
  /\ l_expires stale_lock < t_2026 + 10 * minute_us
  /\ l_user stale_lock <> u_id rider
  /\ fst (lock_slot rider (t_2026 + 10 * minute_us) 1 "C-01" db_stale) = inl LockOk.
Proof. vm_compute. repeat split; discriminate. Qed.

(** ** C6 *)




(** ** C7 *)

(** C7.  No two [slot_locks] documents share an [(area, slot)] key, so at
    most one lock (expired or not) exists per key: every handler of the
    store, [lock_slot], [unlock_slot] and [cleanup_locks] keep this.  Given
    it, [lock_slot] answers LockHeld exactly when a lock for the key that
    has not expired ([expires_at] not before [now]) is held by another user;
    otherwise it answers LockOk and the key's lock is then the caller's, with
    [expires_at = now + 5 min], whether it was created or extended. *)
Theorem lock_slot_mutual_exclusion :
  (forall o s, lock_inv s -> lock_inv (exec o s))
  /\ (forall u now aid sid s, lock_inv s -> lock_inv (snd (lock_slot u now aid sid s)))
  /\ (forall u aid sid s, lock_inv s -> lock_inv (snd (unlock_slot u aid sid s)))
  /\ (forall now s, lock_inv s -> lock_inv (snd (cleanup_locks now s)))
  /\ (forall s l1 l2, lock_inv s -> In l1 (slot_locks s) -> In l2 (slot_locks s) ->
        l_area l1 = l_area l2 -> l_slot l1 = l_slot l2 -> l1 = l2)
  /\ (forall u now aid sid s, lock_inv s ->
        let r := lock_slot u now aid sid s in
        (fst r = inl LockHeld <->
           exists l, In l (slot_locks s) /\ l_area l = aid /\ l_slot l = sid
                     /\ ~ (l_expires l < now) /\ l_user l <> u_id u)
        /\ (fst r <> inl LockHeld ->
              fst r = inl LockOk
              /\ find (lock_key aid sid) (slot_locks (snd r))
                 = Some (mkLock aid sid (u_id u) (now + 5 * minute_us)))).
Proof.
  split; [exact exec_lock_inv|]. split; [exact lock_slot_inv|].
  split; [exact unlock_slot_inv|]. split; [exact cleanup_locks_inv|]. split.
  { intros s l1 l2 H H1 H2 Ea Es. apply (in_key_unique_gen lock_id (slot_locks s)); auto.
    unfold lock_id. now rewrite Ea, Es. }
  intros u now aid sid s Hinv r. unfold r. rewrite lock_slot_run.
  set (ls := filter (lock_live now) (slot_locks s)).
  assert (Hnd : NoDup (map lock_id ls)) by (apply NoDup_map_filter; exact Hinv).
  assert (Hls : forall l, In l (slot_locks s) -> ~ (l_expires l < now) -> In l ls).
  { intros l Hin Hne. apply filter_In. split; [exact Hin|].
    unfold lock_live. destruct (Z.ltb_spec (l_expires l) now); [lia | reflexivity]. }
  destruct (find (lock_key aid sid) ls) as [l|] eqn:Ef.
  - apply find_in in Ef as [Hin Hk]. apply lock_key_id in Hk.
    apply filter_In in Hin as Hin'. destruct Hin' as [Hin0 Hlive].
    destruct (Nat.eqb_spec (l_user l) (u_id u)) as [Eu|Eu]; simpl.
    + split.
      * split; [discriminate|]. intros (l' & Hin' & Ea & Es & Hne & Hu).
        assert (E : l' = l).
        { apply (in_key_unique_gen lock_id ls); auto. rewrite Hk.
          unfold lock_id. now rewrite Ea, Es. }
        subst l'. contradiction.
      * intros _. split; [reflexivity|]. apply upsert_lock_find.
    + split.
      * split; [|reflexivity]. intros _. exists l.
        unfold lock_id in Hk. injection Hk as Ea Es.
        repeat split; auto. unfold lock_live in Hlive.
        destruct (Z.ltb_spec (l_expires l) now); [discriminate | lia].
      * intros H. contradiction.
  - simpl. split.
    + split; [discriminate|]. intros (l' & Hin' & Ea & Es & Hne & Hu).
      pose proof (find_none _ _ Ef l' (Hls l' Hin' Hne)) as Hk.
      rewrite (proj2 (lock_key_id aid sid l')) in Hk; [discriminate|].
      unfold lock_id. now rewrite Ea, Es.
    + intros _. split; [reflexivity|]. apply upsert_lock_find.
Qed.

Lemma lock_slot_mutual_exclusion_witness :
  lock_inv db_stale
  /\ fst (lock_slot rider (t_2026 + 10 * minute_us) 1 "C-01" db_stale) = inl LockOk
  /\ find (lock_key 1 "C-01")
       (slot_locks (snd (lock_slot rider (t_2026 + 10 * minute_us) 1 "C-01" db_stale)))
     = Some (mkLock 1 "C-01" (u_id rider) (t_2026 + 10 * minute_us + 5 * minute_us)).
Proof.
  assert (H : lock_inv db_stale) by (vm_compute; repeat constructor; simpl; tauto).
  split; [exact H|].
  destruct lock_slot_mutual_exclusion as (_ & _ & _ & _ & _ & Hl).
  exact (proj2 (Hl rider (t_2026 + 10 * minute_us) 1%nat "C-01"%string db_stale H)
    ltac:(vm_compute; discriminate)).
Defined.

(** ** C9 *)

(** C9.  The level of a bike slot [B-...] is read as
    [int("B-...".split('-')[0].replace('L', ''))] = [int("B")], which raises
    [ValueError].  Hence, if an expired Confirmed booking of the batch has a
    bike slot, the no-show sweep ends with [ValueError], and every booking
    after it in the batch is left as it was, still Confirmed. *)
Theorem check_no_shows_bike_aborts :
  (forall rest s, level_of ("B-" ++ rest) s = (inr ValueError, s))
  /\ (forall f now s pre b post rest,
        NoDup (map b_id (bookings s)) ->
        filter (expired f now) (bookings s) = pre ++ b :: post ->
        In ("B-" ++ rest)%string (b_slot_ids b) ->
        let r := check_no_shows f now s in
        fst r = inr ValueError
        /\ (forall b', In b' post -> In b' (bookings (snd r)) /\ b_status b' = Confirmed)).
Proof.
  split; [exact level_of_bike|].
  intros f now s pre b post rest Hnd Hf Hb r. unfold r.
  change (check_no_shows f now s)
    with (iterM no_show_one (filter (expired f now) (bookings s)) s).
  assert (Hall : forall b', In b' post ->
                   In b' (bookings s) /\ b_status b' = Confirmed).
  { intros b' Hb'.
    assert (H : In b' (filter (expired f now) (bookings s)))
      by (rewrite Hf; apply in_or_app; right; now right).
    apply filter_In in H as [Hin He]. split; [exact Hin|].
    unfold expired in He. destruct (b_status b'); simpl in He; try discriminate; auto. }
  assert (Hids : NoDup (map b_id ((pre ++ [b]) ++ post))).
  { rewrite <- app_assoc. simpl. rewrite <- Hf. now apply NoDup_map_filter. }
  rewrite Hf. split.
  - apply (iterM_raises no_show_one _ b).
    + exact no_show_one_only.
    + intros s1. exists ValueError. now apply (no_show_one_bike b rest).
    + apply in_or_app. right. now left.
  - intros b' Hb'. destruct (Hall b' Hb') as [Hin Hst]. split; [|exact Hst].
    assert (Hne : forall c, In c (pre ++ [b]) -> b_id b' <> b_id c).
    { intros c Hc E. exact (NoDup_map_app_disjoint b_id _ _ c b' Hids Hc Hb' (eq_sym E)). }
    rewrite iterM_app. unfold bind at 1.
    pose proof (no_show_loop_keeps pre b' s Hin
                  (fun c Hc => Hne c (in_or_app _ _ _ (or_introl Hc)))) as Hpre.
    destruct (iterM no_show_one pre s) as [[[]|e] s1]; simpl in Hpre |- *; [|exact Hpre].
    unfold bind. pose proof (no_show_one_bike b rest s1 Hb) as Hr.
    pose proof (no_show_one_keeps b b' s1 Hpre
                  (Hne b (in_or_app pre [b] b (or_intror (or_introl eq_refl))))) as Hk.
    destruct (no_show_one b s1) as [[[]|e] s2]; simpl in *; [discriminate | exact Hk].
Qed.

Lemma check_no_shows_bike_aborts_witness :
  fst (check_no_shows None (t_2026 + 20 * minute_us) db_noshow) = inr ValueError
  /\ In car_noshow (bookings (snd (check_no_shows None (t_2026 + 20 * minute_us) db_noshow))).
Proof.
  assert (Hnd : NoDup (map b_id (bookings db_noshow)))
    by (vm_compute; repeat constructor; simpl; intuition discriminate).
  assert (Hf : filter (expired None (t_2026 + 20 * minute_us)) (bookings db_noshow)
               = [] ++ bike_noshow :: [car_noshow]) by (vm_compute; reflexivity).
  assert (Hb : In ("B-" ++ "01")%string (b_slot_ids bike_noshow))
    by (vm_compute; left; reflexivity).
  destruct (proj2 check_no_shows_bike_aborts None (t_2026 + 20 * minute_us) db_noshow
              [] bike_noshow [car_noshow] "01"%string Hnd Hf Hb) as [H1 H2].
  split; [exact H1|]. exact (proj1 (H2 car_noshow (or_introl eq_refl))).
Defined.

(** * Further properties *)

(** ** Helpers *)

Lemma in_insert_by {A} (le : A -> A -> bool) x y l :
  In x (insert_by le y l) <-> x = y \/ In x l.
Proof.
  induction l as [|z r IH]; simpl; [intuition congruence|].
  destruct (le y z); simpl; rewrite ?IH; intuition congruence.
Qed.

Lemma in_sort_by {A} (le : A -> A -> bool) x l : In x (sort_by le l) <-> In x l.
Proof.
  unfold sort_by. induction l as [|y r IH]; simpl; [tauto|].
  rewrite in_insert_by, IH. intuition congruence.
Qed.

Lemma in_delete_first_other {A} (p : A -> bool) l y :
  In y l -> p y = false -> In y (delete_first p l).
Proof.
  induction l as [|x r IH]; simpl; [tauto|].
  intros [<-|H] Hp.
  - rewrite Hp. now left.
  - destruct (p x); simpl; auto.
Qed.

Lemma mem_string_in x l : mem_string x l = true <-> In x l.
Proof.
  unfold mem_string. rewrite existsb_exists. split.
  - intros [y [Hy E]]. apply String.eqb_eq in E. now subst.
  - intros H. exists x. split; [exact H | apply String.eqb_refl].
Qed.

(** With distinct [_id]s, the first owned booking of id [bid] is any such. *)
Lemma find_owned_unique uid bid l x :
  NoDup (map b_id l) -> In x l -> owned uid bid x = true ->
  find (owned uid bid) l = Some x.
Proof.
  intros Hnd Hin Hx. destruct (find (owned uid bid) l) as [y|] eqn:Ef.
  - apply find_in in Ef as [Hy Hpy]. f_equal.
    apply (in_key_unique b_id l y x Hnd Hy Hin).
    unfold owned in *. apply andb_true_iff in Hx as [Hx _], Hpy as [Hpy _].
    apply Nat.eqb_eq in Hx, Hpy. congruence.
  - rewrite (find_none _ _ Ef x Hin) in Hx. discriminate.
Qed.

Lemma find_owned_id uid bid l x :
  NoDup (map b_id l) -> find (owned uid bid) l = Some x ->
  find (fun y => Nat.eqb (b_id y) bid) l = Some x.
Proof.
  intros Hnd Hf. apply find_in in Hf as [Hin Hx].
  unfold owned in Hx. apply andb_true_iff in Hx as [Hx _]. apply Nat.eqb_eq in Hx.
  subst bid. now apply find_key_unique.
Qed.

Lemma update_first_ids (p : booking -> bool) (f : booking -> booking) l :
  (forall x, b_id (f x) = b_id x) -> map b_id (update_first p f l) = map b_id l.
Proof. intros H. now apply map_update_first. Qed.

(** ** [get_area_slots] *)

Lemma get_area_slots_eq viewer aid tf d now s :
  get_area_slots viewer aid tf d now s =
  let s1 := set_locks (filter (lock_live now) (slot_locks s)) s in
  let w := view_window tf d now in
  let lks := filter (fun l => Nat.eqb (l_area l) aid) (slot_locks s1) in
  (inl (map (fun x => (x, slot_status_of
      (flat_map b_slot_ids (filter (view_overlaps now (fst w) (snd w))
                              (filter (view_query aid (fst w) (snd w)) (bookings s1))))
      (match viewer with
       | Some uid => map l_slot (filter (fun l => Nat.eqb (l_user l) uid) lks)
       | None => [] end)
      (match viewer with
       | Some uid => map l_slot (filter (fun l => negb (Nat.eqb (l_user l) uid)) lks)
       | None => map l_slot lks end) x))
     (sort_by slot_le (filter (fun x => Nat.eqb (s_area x) aid) (slots s1)))), s1).
Proof. unfold get_area_slots. destruct (view_window tf d now). reflexivity. Qed.

Lemma book_spot_collision_inv u rq t1 t2 s :
  fst (book_spot u rq t1 t2 s) = inl (BookFail SlotCollision) ->
  exists aid start b, rq_area rq = Some aid /\ rq_time rq = TimeAt start
    /\ find (collides aid start (start + rq_duration rq * hour_us)
               (parse_slot_ids (rq_slot_str rq))) (bookings s) = Some b.
Proof.
  unfold book_spot.
  destruct (rq_area rq) as [aid|]; [|discriminate].
  destruct (rq_time rq) as [| |start]; [discriminate| |].
  all: destruct (Nat.eqb (List.length (parse_slot_ids (rq_slot_str rq))) 0);
    [discriminate|]; destruct (profile_ok u); [|discriminate].
  - discriminate.
  - destruct (add_hours start (rq_duration rq)) as [end_|] eqn:Eh; [|discriminate].
    pose proof (add_hours_some _ _ _ Eh) as ->.
    unfold bind, gets, ret, raise.
    cbn -[find_area find locked_by_other update_first hour_us minute_us Z.mul
          booking_amount dt_ok bson_ok].
    destruct (find_area aid s) as [a|]; [|discriminate].
    destruct (find _ (bookings s)) as [b|] eqn:Ec.
    + intros _. exists aid, start, b. auto.
    + destruct (locked_by_other _ _ _ _); [discriminate|].
      destruct (dt_ok _); [|discriminate]. destruct (bson_ok _); [|discriminate].
      unfold fresh_id, bind, gets, modify, ret. simpl. discriminate.
Qed.

Lemma book_spot_locked_inv u rq t1 t2 s :
  fst (book_spot u rq t1 t2 s) = inl (BookFail SlotLocked) ->
  exists aid, rq_area rq = Some aid
    /\ locked_by_other (u_id u) aid (slot_locks s) (parse_slot_ids (rq_slot_str rq)) = true.
Proof.
  unfold book_spot.
  destruct (rq_area rq) as [aid|]; [|discriminate].
  destruct (rq_time rq) as [| |start]; [discriminate| |].
  all: destruct (Nat.eqb (List.length (parse_slot_ids (rq_slot_str rq))) 0);
    [discriminate|]; destruct (profile_ok u); [|discriminate].
  - discriminate.
  - destruct (add_hours start (rq_duration rq)) as [end_|] eqn:Eh; [|discriminate].
    unfold bind, gets, ret, raise.
    cbn -[find_area find locked_by_other update_first hour_us minute_us Z.mul
          booking_amount dt_ok bson_ok].
    destruct (find_area aid s) as [a|]; [|discriminate].
    destruct (find _ (bookings s)) as [b|]; [discriminate|].
    destruct (locked_by_other _ _ _ _) eqn:El.
    + intros _. exists aid. auto.
    + destruct (dt_ok _); [|discriminate]. destruct (bson_ok _); [|discriminate].
      unfold fresh_id, bind, gets, modify, ret. simpl. discriminate.
Qed.

Lemma status_available occ mine others sl :
  slot_status_of occ mine others sl = StAvailable ->
  mem_string (s_number sl) occ = false /\ mem_string (s_number sl) others = false.
Proof.
  unfold slot_status_of.
  destruct (mem_string (s_number sl) occ), (mem_string (s_number sl) others),
    (mem_string (s_number sl) mine);
    try discriminate; auto.
Qed.

Theorem get_area_slots_available_bookable u aid start d now s view str tok tok_exit :
  fst (get_area_slots (Some (u_id u)) aid (TimeAt start) d now s) = inl view ->
  (forall sid, In sid (parse_slot_ids (Some str)) ->
     exists sl, In (sl, StAvailable) view /\ s_number sl = sid) ->
  let s1 := snd (get_area_slots (Some (u_id u)) aid (TimeAt start) d now s) in
  let r := fst (book_spot u (mkBookReq (Some aid) (TimeAt start) d (Some str))
                  tok tok_exit s1) in
  r <> inl (BookFail SlotCollision) /\ r <> inl (BookFail SlotLocked).
Proof.
  intros Hv Hav. destruct (add_hours start d) as [e|] eqn:Eh.
  2:{ cbv zeta. unfold book_spot. cbn [rq_area rq_time rq_duration rq_slot_str].
      destruct (Nat.eqb _ 0); [split; discriminate|].
      destruct (negb (profile_ok u)); [split; discriminate|].
      rewrite Eh. unfold raise. split; discriminate. }
  pose proof (add_hours_some _ _ _ Eh) as He. subst e.
  rewrite get_area_slots_eq in Hv |- *. cbv zeta in Hv |- *.
  simpl fst in Hv. simpl snd. injection Hv as <-.
  try unfold view_window in Hav. rewrite Eh in Hav. cbn beta iota delta [fst snd] in Hav.
  set (s1 := set_locks (filter (lock_live now) (slot_locks s)) s) in *.
  set (sel := parse_slot_ids (Some str)) in *.
  assert (Hfree : forall sid, In sid sel ->
    mem_string sid (flat_map b_slot_ids
      (filter (view_overlaps now start (start + d * hour_us))
         (filter (view_query aid start (start + d * hour_us)) (bookings s1)))) = false
    /\ mem_string sid (map l_slot (filter (fun l => negb (Nat.eqb (l_user l) (u_id u)))
         (filter (fun l => Nat.eqb (l_area l) aid) (slot_locks s1)))) = false).
  { intros sid Hsid. destruct (Hav sid Hsid) as [sl [Hin <-]].
    apply in_map_iff in Hin as [x [Ex _]]. injection Ex as -> Est.
    exact (status_available _ _ _ _ Est). }
  split.
  - intros Hc. apply book_spot_collision_inv in Hc as (aid' & start' & b & Ha & Ht & Hf).
    simpl in Ha, Ht, Hf. injection Ha as <-. injection Ht as <-. fold sel in Hf.
    apply find_in in Hf as [Hin Hcol]. unfold collides in Hcol.
    apply andb_true_iff in Hcol as [Hcol Hsid].
    apply andb_true_iff in Hcol as [Hcol Hend].
    apply andb_true_iff in Hcol as [Hcol Hstart].
    apply andb_true_iff in Hcol as [Harea Hlive].
    apply existsb_exists in Hsid as [sid [Hsb Hsel]].
    apply mem_string_in in Hsel.
    destruct (Hfree sid Hsel) as [Hocc _].
    assert (Hq : view_query aid start (start + d * hour_us) b = true).
    { unfold view_query. rewrite Harea. simpl.
      destruct (b_status b); simpl in Hlive |- *; try discriminate;
        rewrite ?Hstart, ?Hend; reflexivity. }
    assert (Ho : view_overlaps now start (start + d * hour_us) b = true).
    { unfold view_overlaps. rewrite Hstart. simpl.
      apply Z.ltb_lt in Hend. apply Z.ltb_lt.
      destruct (status_eqb (b_status b) Active); lia. }
    assert (Hm : mem_string sid (flat_map b_slot_ids
      (filter (view_overlaps now start (start + d * hour_us))
         (filter (view_query aid start (start + d * hour_us)) (bookings s1)))) = true).
    { apply mem_string_in. apply in_flat_map. exists b. split; [|exact Hsb].
      apply filter_In. split; [apply filter_In; split|]; assumption. }
    congruence.
  - intros Hl. apply book_spot_locked_inv in Hl as (aid' & Ha & Hl).
    cbn [rq_area rq_slot_str] in Ha, Hl. injection Ha as <-. fold sel in Hl.
    unfold locked_by_other in Hl. apply existsb_exists in Hl as [sid [Hsel Hl]].
    revert Hl. destruct (find (lock_key aid sid) _) as [l|] eqn:Ef; [intros Hl|discriminate].
    apply find_in in Ef as [Hin Hk]. apply lock_key_id in Hk. unfold lock_id in Hk.
    injection Hk as Hla Hls.
    destruct (Hfree sid Hsel) as [_ Hoth].
    assert (Hm : mem_string sid (map l_slot (filter (fun l => negb (Nat.eqb (l_user l) (u_id u)))
         (filter (fun l => Nat.eqb (l_area l) aid) (slot_locks s1)))) = true).
    { apply mem_string_in. apply in_map_iff. exists l. split; [exact Hls|].
      apply filter_In. split; [apply filter_In; split; [exact Hin | now apply Nat.eqb_eq] | exact Hl]. }
    congruence.
Qed.

Lemma lock_slot_ok_locks u now aid sid s :
  fst (lock_slot u now aid sid s) = inl LockOk ->
  slot_locks (snd (lock_slot u now aid sid s))
  = upsert_lock aid sid (u_id u) (now + 5 * minute_us) (filter (lock_live now) (slot_locks s)).
Proof.
  rewrite lock_slot_run. cbv zeta.
  destruct (find _ _) as [l|]; [destruct (negb _)|]; simpl; congruence.
Qed.

Theorem lock_slot_then_view u now aid sid s viewer tf d view sl st :
  lock_inv s ->
  fst (lock_slot u now aid sid s) = inl LockOk ->
  fst (get_area_slots viewer aid tf d now (snd (lock_slot u now aid sid s))) = inl view ->
  In (sl, st) view -> s_number sl = sid ->
  st = StOccupied
  \/ (viewer = Some (u_id u) /\ st = StSelected)
  \/ (viewer <> Some (u_id u) /\ st = StLocked).
Proof.
  intros Hinv Hok Hv Hin Hsl.
  pose proof (lock_slot_ok_locks u now aid sid s Hok) as HL.
  set (s1 := snd (lock_slot u now aid sid s)) in *.
  set (e := now + 5 * minute_us) in *.
  set (L := upsert_lock aid sid (u_id u) e (filter (lock_live now) (slot_locks s))) in *.
  set (lk := mkLock aid sid (u_id u) e).
  assert (HndL : NoDup (map lock_id L)).
  { apply upsert_lock_inv. now apply NoDup_map_filter. }
  assert (HinL : In lk L) by (apply (find_in (lock_key aid sid)); apply upsert_lock_find).
  assert (Hlive : lock_live now lk = true).
  { unfold lock_live, lk, e, minute_us, second_us. simpl.
    apply negb_true_iff, Z.ltb_ge. lia. }
  rewrite get_area_slots_eq in Hv. cbv zeta in Hv. simpl fst in Hv.
  injection Hv as <-. apply in_map_iff in Hin as [x [Ex _]].
  injection Ex as -> Est. rewrite HL in Est. simpl slot_locks in Est.
  set (lks := filter (fun l => Nat.eqb (l_area l) aid) (filter (lock_live now) L)) in Est.
  assert (Hlk : In lk lks).
  { apply filter_In. split; [apply filter_In; auto | apply Nat.eqb_refl]. }
  assert (Huniq : forall l, In l lks -> l_slot l = sid -> l = lk).
  { intros l Hl Hs. apply filter_In in Hl as [Hl Ha]. apply filter_In in Hl as [Hl _].
    apply Nat.eqb_eq in Ha. apply (in_key_unique_gen lock_id L); auto.
    unfold lock_id. simpl. now rewrite Ha, Hs. }
  unfold slot_status_of in Est. rewrite Hsl in Est.
  set (occ := flat_map b_slot_ids _) in Est.
  destruct (mem_string sid occ) eqn:Eocc; [left; congruence|right].
  destruct viewer as [v|]; cbv beta iota in Est.
  - destruct (Nat.eq_dec v (u_id u)) as [->|Hne].
    + left. split; [reflexivity|].
      destruct (mem_string sid (map l_slot (filter (fun l => negb (Nat.eqb (l_user l) (u_id u))) lks))) eqn:Eo.
      * apply mem_string_in, in_map_iff in Eo as [l [Hs Hl]].
        apply filter_In in Hl as [Hl Hu]. rewrite (Huniq l Hl Hs) in Hu.
        simpl in Hu. rewrite Nat.eqb_refl in Hu. discriminate.
      * assert (Hm : mem_string sid (map l_slot (filter (fun l => Nat.eqb (l_user l) (u_id u)) lks)) = true).
        { apply mem_string_in, in_map_iff. exists lk. split; [reflexivity|].
          apply filter_In. split; [exact Hlk | apply Nat.eqb_refl]. }
        rewrite Hm in Est. congruence.
    + right. split; [congruence|].
      assert (Hm : mem_string sid (map l_slot (filter (fun l => negb (Nat.eqb (l_user l) v)) lks)) = true).
      { apply mem_string_in, in_map_iff. exists lk. split; [reflexivity|].
        apply filter_In. split; [exact Hlk|]. simpl.
        apply negb_true_iff, Nat.eqb_neq. congruence. }
      rewrite Hm in Est. congruence.
  - right. split; [discriminate|].
    assert (Hm : mem_string sid (map l_slot lks) = true).
    { apply mem_string_in, in_map_iff. exists lk. split; [reflexivity | exact Hlk]. }
    rewrite Hm in Est. congruence.
Qed.

(** ** [cancel_booking] *)

Lemma cancel_booking_run u bid s :
  cancel_booking u bid s =
  match find (owned (u_id u) bid) (bookings s) with
  | None => (inl CancelNotFound, s)
  | Some b =>
    match b_status b with
    | PendingPayment =>
      (inl CancelDeleted,
       snd (inc_occupied (b_area b) (- Z.of_nat (b_spots b))
              (set_bookings (delete_first (fun x => Nat.eqb (b_id x) bid) (bookings s)) s)))
    | Confirmed =>
      (inl CancelFee,
       snd (inc_occupied (b_area b) (- Z.of_nat (b_spots b))
              (set_bookings (update_first (fun x => Nat.eqb (b_id x) (b_id b))
                 (with_refund CancelledUser
                    (py_round2 (py_mul (b_amount b) (PFloat (float_lit (9 # 10)))))
                    "User cancelled after payment.")
                 (bookings s)) s)))
    | _ => (inl CancelBadStatus, s)
    end
  end.
Proof.
  unfold cancel_booking, bind, gets, ret, modify, update_booking. simpl.
  destruct (find _ _) as [b|]; [|reflexivity]. destruct (b_status b); reflexivity.
Qed.

Lemma delete_first_key_gone {A} (k : A -> nat) v l x y :
  NoDup (map k l) -> In y l -> k y = v ->
  In x (delete_first (fun z => Nat.eqb (k z) v) l) -> k x <> v.
Proof.
  induction l as [|z r IH]; simpl; [tauto|].
  intros Hnd Hy Ey Hx. inversion Hnd as [|? ? Hni Hnd']; subst.
  destruct (Nat.eqb_spec (k z) (k y)) as [E|E].
  - intros Ex. apply Hni. rewrite E, <- Ex. now apply in_map.
  - destruct Hy as [<-|Hy]; [congruence|]. destruct Hx as [<-|Hx]; [exact E|].
    eapply IH; eauto.
Qed.

Lemma bookings_inc_occupied aid d s :
  bookings (snd (inc_occupied aid d s)) = bookings s.
Proof. reflexivity. Qed.

Theorem cancel_booking_twice u bid s :
  NoDup (map b_id (bookings s)) ->
  let s1 := snd (cancel_booking u bid s) in
  snd (cancel_booking u bid s1) = s1
  /\ (fst (cancel_booking u bid s1) = inl CancelNotFound
      \/ fst (cancel_booking u bid s1) = inl CancelBadStatus).
Proof.
  intros Hnd s1. subst s1. rewrite (cancel_booking_run u bid s).
  destruct (find (owned (u_id u) bid) (bookings s)) as [b|] eqn:Ef.
  2: { cbn [snd fst]. rewrite cancel_booking_run, Ef. simpl. auto. }
  pose proof (find_in _ _ _ Ef) as [Hin Hown].
  assert (Hid : b_id b = bid).
  { unfold owned in Hown. apply andb_true_iff in Hown as [H _]. now apply Nat.eqb_eq. }
  destruct (b_status b) eqn:Es; cbn [snd];
    try (rewrite cancel_booking_run, Ef, Es; simpl; auto; fail).
  - rewrite cancel_booking_run, bookings_inc_occupied. cbn [bookings set_bookings].
    rewrite find_none_intro; [simpl; auto|].
    intros x Hx. destruct (owned (u_id u) bid x) eqn:Ox; [|reflexivity].
    exfalso. unfold owned in Ox. apply andb_true_iff in Ox as [Ox _].
    apply Nat.eqb_eq in Ox. eapply (delete_first_key_gone b_id bid); eauto.
  - rewrite cancel_booking_run, bookings_inc_occupied. cbn [bookings set_bookings].
    set (f := with_refund CancelledUser
                (py_round2 (py_mul (b_amount b) (PFloat (float_lit (9 # 10)))))
                "User cancelled after payment.").
    assert (Hnd' : NoDup (map b_id (update_first (fun x => Nat.eqb (b_id x) (b_id b)) f (bookings s)))).
    { rewrite update_first_ids; [exact Hnd | reflexivity]. }
    assert (Hin' : In (f b) (update_first (fun x => Nat.eqb (b_id x) (b_id b)) f (bookings s))).
    { apply (find_in (fun x => Nat.eqb (b_id x) (b_id b))).
      apply find_update_first_same; [now apply find_key_unique | apply Nat.eqb_refl]. }
    rewrite (find_owned_unique _ _ _ (f b) Hnd' Hin'); [simpl; auto|].
    exact Hown.
Qed.

(** [round(a * 0.9, 2)] for an integer amount [0 < a < 2^40]: the binary64
    product is within far less than half a cent of [0.9 a], so the result is
    the float nearest to [0.9 a]. *)
Lemma refund_int a :
  0 < a < 2 ^ 40 ->
  py_round2 (py_mul (PInt a) (PFloat (float_lit (9 # 10))))
  = PFloat (f64_of_Q (inject_Z a * (9 # 10))).
Proof.
  intros Ha.
  assert (R : repr8 (inject_Z a)) by (apply repr8_int; lia).
  assert (Pa : (1 <= inject_Z a)%Q)
    by (change 1%Q with (inject_Z 1); rewrite <- Zle_Qle; lia).
  assert (Ua : (inject_Z a <= inject_Z (2 ^ 40))%Q) by (rewrite <- Zle_Qle; lia).
  change (inject_Z (2 ^ 40)) with (1099511627776 # 1) in Ua.
  destruct (repr8_cases _ R) as [[E0 _]|[_ (m & e & F & V)]].
  { rewrite E0 in Pa. lra. }
  assert (N : float_lit (9 # 10) = FFin false 8106479329266893 (-53))
    by (vm_compute; reflexivity).
  assert (C : (fval (FFin false 8106479329266893 (-53))
               == 8106479329266893 # 9007199254740992)%Q) by (vm_compute; reflexivity).
  cbn [py_mul to_float]. unfold float_of_int. rewrite F, N. cbn [f64_mul].
  rewrite F in V.
  set (v := (fval (FFin false m e) * fval (FFin false 8106479329266893 (-53)))%Q).
  assert (Hv : (v == inject_Z a * (8106479329266893 # 9007199254740992))%Q)
    by (unfold v; now rewrite V, C).
  assert (Hlo : (pow2 (-1022) <= v)%Q).
  { assert (P : (pow2 (-1022) <= 1 # 2)%Q) by (apply Qle_bool_imp_le; vm_compute; reflexivity).
    rewrite Hv. lra. }
  assert (Hhi : (v < pow2 1023)%Q).
  { assert (P : (1099511627776 # 1 <= pow2 1023)%Q)
      by (apply Qle_bool_imp_le; vm_compute; reflexivity).
    rewrite Hv. lra. }
  assert (Hv0 : Qeq_bool v 0 = false).
  { destruct (Qeq_bool v 0) eqn:Z0; [|reflexivity].
    apply Qeq_bool_iff in Z0. rewrite Hv in Z0. lra. }
  rewrite Hv0.
  destruct (f64_of_Q_rel v Hlo Hhi) as (m2 & e2 & F2 & _ & B).
  change (pow2 (-53)) with (1 # 9007199254740992) in B.
  rewrite F2. cbn [py_round2]. rewrite <- F2.
  assert (Hr : round2 (fval (f64_of_Q v)) = (90 * a) # 100).
  { unfold round2. f_equal. apply rne_near; rewrite inject_Z_mult;
      change (inject_Z 90) with (90 # 1); lra. }
  rewrite Hr.
  destruct (Qeq_bool ((90 * a) # 100) 0) eqn:Z0.
  { apply Qeq_bool_iff in Z0. unfold Qeq in Z0. cbn [Qnum Qden Qmult Pos.mul] in Z0. lia. }
  f_equal. apply f64_of_Q_compat. unfold Qeq. cbn [Qnum Qden Qmult inject_Z Pos.mul]. lia.
Qed.

Theorem cancel_booking_refund u bid s b :
  NoDup (map b_id (bookings s)) ->
  find (owned (u_id u) bid) (bookings s) = Some b ->
  b_status b = Confirmed ->
  let refund := py_round2 (py_mul (b_amount b) (PFloat (float_lit (9 # 10)))) in
  fst (cancel_booking u bid s) = inl CancelFee
  /\ find (owned (u_id u) bid) (bookings (snd (cancel_booking u bid s)))
     = Some (with_refund CancelledUser refund "User cancelled after payment." b)
  /\ (forall a, b_amount b = PInt a -> 0 < a < 2 ^ 40 ->
        refund = PFloat (f64_of_Q (inject_Z a * (9 # 10)))).
Proof.
  intros Hnd Ef Es refund. rewrite cancel_booking_run, Ef, Es. cbn [fst snd].
  split; [reflexivity|]. split.
  - rewrite bookings_inc_occupied. cbn [bookings set_bookings].
    pose proof (find_in _ _ _ Ef) as [Hin Hown].
    set (f := with_refund CancelledUser refund "User cancelled after payment.").
    assert (Hnd' : NoDup (map b_id (update_first (fun x => Nat.eqb (b_id x) (b_id b)) f (bookings s)))).
    { rewrite update_first_ids; [exact Hnd | reflexivity]. }
    assert (Hin' : In (f b) (update_first (fun x => Nat.eqb (b_id x) (b_id b)) f (bookings s))).
    { apply (find_in (fun x => Nat.eqb (b_id x) (b_id b))).
      apply find_update_first_same; [now apply find_key_unique | apply Nat.eqb_refl]. }
    exact (find_owned_unique _ _ _ (f b) Hnd' Hin' Hown).
  - intros a Ea Ha. unfold refund. rewrite Ea. now apply refund_int.
Qed.

(** ** [verify_booking] *)



(** ** [check_expiry_reminders] *)

Lemma filter_none {A} (p : A -> bool) l :
  (forall x, In x l -> p x = false) -> filter p l = [].
Proof.
  induction l as [|x r IH]; simpl; [reflexivity|].
  intros H. rewrite (H x (or_introl eq_refl)). auto.
Qed.

(** With distinct [_id]s, [update_one] by [_id] rewrites every match. *)
Lemma update_first_id_map (f : booking -> booking) v l :
  NoDup (map b_id l) ->
  update_first (fun y => Nat.eqb (b_id y) v) f l
  = map (fun y => if Nat.eqb (b_id y) v then f y else y) l.
Proof.
  induction l as [|x r IH]; simpl; [reflexivity|].
  intros Hnd. inversion Hnd as [|? ? Hni Hnd']; subst.
  destruct (Nat.eqb_spec (b_id x) v) as [E|E].
  - f_equal. symmetry. clear IH Hnd Hnd'. induction r as [|y r' IH']; simpl; [reflexivity|].
    destruct (Nat.eqb_spec (b_id y) v) as [E'|E'].
    + exfalso. apply Hni. simpl. left. congruence.
    + f_equal. apply IH'. intros Hin. apply Hni. simpl. now right.
  - f_equal. now apply IH.
Qed.

Definition reminder_due (now : Z) (b : booking) : bool :=
  status_eqb (b_status b) Active && (b_end b <=? now + 15 * minute_us)
  && (now <? b_end b) && negb (b_reminder_sent b).

Lemma with_reminder_idem b : with_reminder (with_reminder b) = with_reminder b.
Proof. destruct b; reflexivity. Qed.

Lemma reminder_loop sel s :
  NoDup (map b_id (bookings s)) ->
  let s' := snd (iterM (fun b => notify (b_user b) MsgReminder ;;;
                                  update_booking (b_id b) with_reminder) sel s) in
  bookings s'
  = map (fun y => if existsb (fun x => Nat.eqb (b_id x) (b_id y)) sel
                  then with_reminder y else y) (bookings s).
Proof.
  revert s. induction sel as [|x r IH]; intros s Hnd s'; subst s'; simpl.
  - symmetry. apply map_id.
  - unfold bind at 1, notify, update_booking, modify, bind. simpl.
    rewrite IH.
    + simpl. rewrite update_first_id_map by exact Hnd. rewrite map_map.
      apply map_ext. intros y.
      destruct (Nat.eqb_spec (b_id y) (b_id x)) as [E|E].
      * rewrite E, Nat.eqb_refl. simpl.
        destruct (existsb _ r); reflexivity.
      * replace (Nat.eqb (b_id x) (b_id y)) with false by (symmetry; apply Nat.eqb_neq; congruence).
        reflexivity.
    + simpl. rewrite update_first_ids; [exact Hnd | reflexivity].
Qed.

Theorem check_expiry_reminders_idempotent now s :
  NoDup (map b_id (bookings s)) ->
  let s1 := snd (check_expiry_reminders now s) in
  check_expiry_reminders now s1 = (inl tt, s1).
Proof.
  intros Hnd s1.
  assert (Hb : bookings s1 =
    map (fun y => if existsb (fun x => Nat.eqb (b_id x) (b_id y))
                       (filter (reminder_due now) (bookings s))
                  then with_reminder y else y) (bookings s)).
  { subst s1. unfold check_expiry_reminders, bind at 1, gets. cbn [fst snd].
    exact (reminder_loop _ s Hnd). }
  unfold check_expiry_reminders at 1, bind at 1, gets.
  fold (reminder_due now).
  rewrite (filter_none (reminder_due now) (bookings s1)); [reflexivity|].
  intros z Hz. rewrite Hb in Hz. apply in_map_iff in Hz as [y [<- Hy]].
  destruct (existsb _ _) eqn:Ex.
  - unfold reminder_due. simpl. now rewrite !andb_false_r.
  - destruct (reminder_due now y) eqn:Ey; [|reflexivity].
    exfalso. assert (Hin : In y (filter (reminder_due now) (bookings s)))
      by (apply filter_In; auto).
    assert (Htrue : existsb (fun x => Nat.eqb (b_id x) (b_id y))
                      (filter (reminder_due now) (bookings s)) = true).
    { apply existsb_exists. exists y. split; [exact Hin | apply Nat.eqb_refl]. }
    congruence.
Qed.

(** ** [unlock_slot] *)

Lemma delete_first_unique_gone {A B} (k : A -> B) (p : A -> bool) key l y :
  NoDup (map k l) -> (forall x, p x = true -> k x = key) ->
  In y (delete_first p l) -> p y = false.
Proof.
  induction l as [|x r IH]; simpl; [tauto|].
  intros Hnd Hk Hy. inversion Hnd as [|? ? Hni Hnd']; subst.
  destruct (p x) eqn:Ex.
  - destruct (p y) eqn:Ey; [|reflexivity]. exfalso. apply Hni.
    rewrite (Hk x Ex), <- (Hk y Ey). now apply in_map.
  - destruct Hy as [<-|Hy]; [exact Ex|]. now apply IH.
Qed.

Theorem unlock_slot_only_own u aid sid s :
  lock_inv s ->
  let s' := snd (unlock_slot u aid sid s) in
  (forall l, In l (slot_locks s) -> lock_id l <> (aid, sid) \/ l_user l <> u_id u ->
             In l (slot_locks s'))
  /\ (forall l, In l (slot_locks s') ->
                In l (slot_locks s) /\ ~ (lock_id l = (aid, sid) /\ l_user l = u_id u))
  /\ lock_inv s'.
Proof.
  intros Hinv s'. subst s'. unfold unlock_slot, modify. cbn [snd slot_locks set_locks].
  set (p := fun l => lock_key aid sid l && Nat.eqb (l_user l) (u_id u)).
  assert (Hp : forall l, p l = true <-> lock_id l = (aid, sid) /\ l_user l = u_id u).
  { intros l. subst p. cbv beta. rewrite andb_true_iff, lock_key_id, Nat.eqb_eq. tauto. }
  split; [|split].
  - intros l Hl Hne. apply in_delete_first_other; [exact Hl|].
    destruct (p l) eqn:E; [|reflexivity]. apply Hp in E. tauto.
  - intros l Hl. split; [exact (in_delete_first _ _ _ Hl)|].
    intros Hk. apply Hp in Hk.
    assert (Hf : p l = false).
    { apply (delete_first_unique_gone lock_id p (aid, sid) (slot_locks s)); auto.
      intros x Hx. now apply Hp in Hx. }
    congruence.
  - unfold lock_inv. cbn [slot_locks]. now apply NoDup_map_delete_first.
Qed.

(** ** [pay_booking] *)

Lemma update_first_fixed {A} (p : A -> bool) f l x :
  find p l = Some x -> f x = x -> update_first p f l = l.
Proof.
  induction l as [|y r IH]; simpl; [discriminate|].
  destruct (p y).
  - intros H Hf. injection H as ->. now rewrite Hf.
  - intros H Hf. now rewrite IH.
Qed.

Theorem pay_booking_twice u bid s b :
  find (owned (u_id u) bid) (bookings s) = Some b ->
  let s1 := snd (pay_booking u bid s) in
  let s2 := snd (pay_booking u bid s1) in
  find (owned (u_id u) bid) (bookings s1) = Some (with_status Confirmed b)
  /\ bookings s2 = bookings s1
  /\ notifications s2 = notifications s ++
       [mkNotification (u_id u) MsgPaymentConfirmed;
        mkNotification (u_id u) MsgPaymentConfirmed]
  /\ areas s2 = areas s.
Proof.
  intros Ef s1 s2.
  assert (Hown : forall x, owned (u_id u) bid (with_status Confirmed x) = owned (u_id u) bid x)
    by reflexivity.
  assert (Hf1 : find (owned (u_id u) bid) (bookings s1) = Some (with_status Confirmed b)).
  { subst s1. unfold pay_booking, bind, gets, modify, notify. cbn [snd fst].
    rewrite Ef. cbn [bookings set_bookings set_notifications].
    apply find_update_first_same; [exact Ef|].
    rewrite Hown. exact (proj2 (find_in _ _ _ Ef)). }
  assert (Hs1 : notifications s1 = notifications s ++
                  [mkNotification (u_id u) MsgPaymentConfirmed] /\ areas s1 = areas s).
  { subst s1. unfold pay_booking, bind, gets, modify, notify. cbn [snd fst].
    rewrite Ef. split; reflexivity. }
  split; [exact Hf1|].
  subst s2. unfold pay_booking, bind, gets, modify, notify. cbn [snd fst].
  rewrite Hf1. cbn [bookings areas notifications set_bookings set_notifications].
  split; [|split].
  - apply (update_first_fixed _ _ _ _ Hf1). destruct b; reflexivity.
  - destruct Hs1 as [Hn _]. unfold modify. cbn [snd notifications set_notifications set_bookings]. rewrite Hn, <- app_assoc. reflexivity.
  - exact (proj2 Hs1).
Qed.

(** ** [set_preference] *)




(** ** [user_dashboard] and [index] *)

Lemma insert_by_sorted {A} (le : A -> A -> bool) x l :
  (forall a b, le a b = false -> le b a = true) ->
  Sorted (fun a b => le a b = true) l -> Sorted (fun a b => le a b = true) (insert_by le x l).
Proof.
  intros Htot. induction l as [|y r IH]; simpl; intros Hs.
  - repeat constructor.
  - destruct (le x y) eqn:E.
    + constructor; [exact Hs | constructor; exact E].
    + apply Sorted_inv in Hs as [Hr Hhd]. constructor; [now apply IH|].
      destruct r as [|z r']; simpl.
      * constructor. now apply Htot.
      * apply HdRel_inv in Hhd. destruct (le x z); constructor; [now apply Htot | exact Hhd].
Qed.

Lemma sorted_impl {A} (R R' : A -> A -> Prop) l :
  (forall x y, R x y -> R' x y) -> Sorted R l -> Sorted R' l.
Proof.
  intros H Hs. induction Hs as [|x r Hr IH Hhd]; constructor; [exact IH|].
  destruct Hhd; constructor. now apply H.
Qed.

Lemma sort_by_sorted {A} (le : A -> A -> bool) l :
  (forall a b, le a b = false -> le b a = true) ->
  Sorted (fun a b => le a b = true) (sort_by le l).
Proof.
  intros Htot. unfold sort_by. induction l as [|y r IH]; simpl; [constructor|].
  now apply insert_by_sorted.
Qed.

Lemma start_desc_total a b : start_desc a b = false -> start_desc b a = true.
Proof. unfold start_desc. rewrite Z.leb_gt, Z.leb_le. lia. Qed.

Lemma check_in_desc_total a b : check_in_desc a b = false -> check_in_desc b a = true.
Proof.
  unfold check_in_desc.
  destruct (b_check_in a), (b_check_in b); try reflexivity; try discriminate.
  rewrite Z.leb_gt, Z.leb_le. lia.
Qed.

Lemma check_in_desc_refl a : check_in_desc a a = true.
Proof. unfold check_in_desc. destruct (b_check_in a); [apply Z.leb_refl | reflexivity]. Qed.

Lemma check_in_desc_trans a b c :
  check_in_desc a b = true -> check_in_desc b c = true -> check_in_desc a c = true.
Proof.
  unfold check_in_desc.
  destruct (b_check_in a), (b_check_in b), (b_check_in c); try reflexivity; try discriminate.
  rewrite !Z.leb_le. lia.
Qed.

Lemma status_eqb_active st : status_eqb st Active = true <-> st = Active.
Proof. destruct st; simpl; split; congruence. Qed.

(** The first booking of the [check_in_time]-descending order comes before
    every other one. *)
Lemma hd_sort_check_in l a :
  hd_error (sort_by check_in_desc l) = Some a ->
  In a l /\ forall b, In b l -> check_in_desc a b = true.
Proof.
  intros Hd.
  assert (Hs := sort_by_sorted check_in_desc l check_in_desc_total).
  destruct (sort_by check_in_desc l) as [|a' r] eqn:E; [discriminate|].
  injection Hd as ->.
  assert (Hin : forall x, In x l <-> In x (a :: r)) by (intros x; rewrite <- E; symmetry; apply in_sort_by).
  split; [apply Hin; now left|].
  apply Sorted_StronglySorted in Hs; [|intros x y z; apply check_in_desc_trans].
  apply StronglySorted_inv in Hs as [_ Hall].
  intros b Hb. apply Hin in Hb as [<-|Hb]; [apply check_in_desc_refl|].
  rewrite Forall_forall in Hall. now apply Hall.
Qed.

Theorem user_dashboard_view u now s bs la :
  is_staff u = false ->
  fst (user_dashboard u now s) = inl (Some (bs, la)) ->
  let s' := snd (check_expiry_reminders now (snd (check_no_shows None now s))) in
  snd (user_dashboard u now s) = s'
  /\ (forall b, In b bs <-> In b (bookings s') /\ b_user b = u_id u)
  /\ Sorted (fun x y => b_start y <= b_start x) bs
  /\ (forall a, la = Some a ->
        In a (bookings s') /\ b_user a = u_id u /\ b_status a = Active
        /\ forall b, In b (bookings s') -> b_user b = u_id u -> b_status b = Active ->
                     check_in_desc a b = true)
  /\ (la = None -> forall b, In b (bookings s') -> b_user b = u_id u -> b_status b <> Active).
Proof.
  intros Hst Hres s'. unfold user_dashboard in *. rewrite Hst in *.
  unfold bind, gets, ret in *. subst s'.
  destruct (check_no_shows None now s) as [[[]|e] s0]; [|discriminate]. cbn [snd fst] in *.
  destruct (check_expiry_reminders now s0) as [[[]|e] s1]; [|discriminate]. cbn [snd fst] in *.
  injection Hres as <- <-.
  split; [reflexivity|]. split; [|split; [|split]].
  - intros b. rewrite in_sort_by, filter_In, Nat.eqb_eq. reflexivity.
  - eapply sorted_impl; [|apply (sort_by_sorted start_desc _ start_desc_total)].
    intros x y H. unfold start_desc in H. now apply Z.leb_le.
  - intros a Ha. apply hd_sort_check_in in Ha as [Hin Hall].
    apply filter_In in Hin as [Hin Hp]. apply andb_true_iff in Hp as [Hu Ha].
    apply Nat.eqb_eq in Hu. apply status_eqb_active in Ha.
    split; [exact Hin|]. split; [exact Hu|]. split; [exact Ha|].
    intros b Hb Hbu Hba. apply Hall. apply filter_In. split; [exact Hb|].
    now rewrite Hbu, Hba, Nat.eqb_refl.
  - intros Hn b Hb Hbu Hba.
    destruct (sort_by check_in_desc _) as [|x r] eqn:E; [|discriminate].
    assert (Hin : In b (sort_by check_in_desc
                          (filter (fun b => Nat.eqb (b_user b) (u_id u)
                                            && status_eqb (b_status b) Active) (bookings s1)))).
    { apply in_sort_by, filter_In. split; [exact Hb|]. now rewrite Hbu, Hba, Nat.eqb_refl. }
    rewrite E in Hin. exact Hin.
Qed.

Lemma check_expiry_reminders_ok now s : fst (check_expiry_reminders now s) = inl tt.
Proof.
  unfold check_expiry_reminders, bind at 1, gets.
  generalize (filter (fun b => status_eqb (b_status b) Active && (b_end b <=? now + 15 * minute_us)
                              && (now <? b_end b) && negb (b_reminder_sent b)) (bookings s)).
  intros l. revert s. induction l as [|x r IH]; intros s; [reflexivity|].
  simpl. unfold bind at 1 2, notify, update_booking, modify. apply IH.
Qed.

Lemma check_expiry_reminders_areas now s :
  areas (snd (check_expiry_reminders now s)) = areas s.
Proof.
  unfold check_expiry_reminders, bind at 1, gets. cbn [snd fst].
  generalize (filter (fun b => status_eqb (b_status b) Active && (b_end b <=? now + 15 * minute_us)
                              && (now <? b_end b) && negb (b_reminder_sent b)) (bookings s)).
  intros l. revert s. induction l as [|x r IH]; intros s; [reflexivity|].
  simpl. unfold bind at 1 2, notify, update_booking, modify. rewrite IH. reflexivity.
Qed.

(** ** [check_no_shows] restricted to one area ([manager_dashboard]) *)

Lemma no_show_loop_areas bs aid s a :
  (forall c, In c bs -> b_area c = aid) -> In a (areas s) -> a_id a <> aid ->
  In a (areas (snd (iterM no_show_one bs s))).
Proof.
  revert s. induction bs as [|c r IH]; intros s Hc Hin Hne; simpl; [exact Hin|].
  unfold bind.
  assert (H : In a (areas (snd (no_show_one c s)))).
  { rewrite (proj1 (proj2 (no_show_one_core c s))).
    apply in_update_first_other; [exact Hin|]. apply Nat.eqb_neq.
    rewrite (Hc c (or_introl eq_refl)). exact Hne. }
  destruct (no_show_one c s) as [[[]|e] s1]; simpl in *; [|exact H].
  apply IH; auto.
Qed.

Theorem check_no_shows_area_scoped aid now s :
  NoDup (map b_id (bookings s)) ->
  let s' := snd (check_no_shows (Some aid) now s) in
  (forall b, In b (bookings s) -> expired (Some aid) now b = false -> In b (bookings s'))
  /\ (forall a, In a (areas s) -> a_id a <> aid -> In a (areas s')).
Proof.
  intros Hnd s'. subst s'. unfold check_no_shows, bind at 1, gets. cbn [fst snd].
  split.
  - intros b Hb Hexp. apply no_show_loop_keeps; [exact Hb|].
    intros c Hc E. apply filter_In in Hc as [Hc Hcexp].
    rewrite (in_key_unique b_id _ b c Hnd Hb Hc E) in Hexp. congruence.
  - intros a Ha Hne. apply (no_show_loop_areas _ aid); [|exact Ha|exact Hne].
    intros c Hc. apply filter_In in Hc as [_ Hcexp]. unfold expired in Hcexp.
    apply andb_true_iff in Hcexp as [_ Ha']. now apply Nat.eqb_eq.
Qed.

(** ** The [users] collection *)

Definition uinv (s : ustore) : Prop :=
  NoDup (map ud_email (users s)) /\ NoDup (map ud_id (users s))
  /\ forall d, In d (users s) -> (ud_id d < next_uid s)%nat.

Lemma email_eqb_eq x y : email_eqb x y = true <-> x = y.
Proof.
  destruct x as [a|], y as [b|]; simpl; try (split; congruence).
  rewrite String.eqb_eq. split; congruence.
Qed.

Lemma insert_user_inv email is_admin v s :
  uinv s -> existsb (fun d => email_eqb (ud_email d) email) (users s) = false ->
  uinv (insert_user (mkUserDoc (next_uid s) email is_admin v None) s).
Proof.
  intros (He & Hi & Hlt) Hex. unfold insert_user. split; [|split]; cbn [users next_uid].
  - apply NoDup_map_snoc; [exact He|]. cbn [ud_email]. intros Hin.
    apply in_map_iff in Hin as [d [Ed Hd]].
    assert (Ht : existsb (fun d => email_eqb (ud_email d) email) (users s) = true).
    { apply existsb_exists. exists d. split; [exact Hd|]. now apply email_eqb_eq. }
    congruence.
  - apply NoDup_map_snoc; [exact Hi|]. cbn [ud_id]. intros Hin.
    apply in_map_iff in Hin as [d [Ed Hd]]. specialize (Hlt d Hd). lia.
  - intros d Hd. apply in_app_or in Hd as [Hd|[<-|[]]]; [specialize (Hlt d Hd)|]; simpl; lia.
Qed.

Theorem create_user_keeps_uinv email password role u s :
  uinv s ->
  uinv (snd (register email password s))
  /\ uinv (snd (admin_create_user u email password role s))
  /\ (forall d, In d (users (snd (register email password s))) ->
                ud_is_admin d = true -> In d (users s)).
Proof.
  intros Hs. split; [|split].
  - unfold register. destruct (existsb _ _) eqn:Ex; [exact Hs|].
    destruct password; [now apply insert_user_inv | exact Hs].
  - unfold admin_create_user. destruct (negb (u_is_admin u)); [exact Hs|].
    destruct (existsb _ _) eqn:Ex; [exact Hs|].
    destruct password; [now apply insert_user_inv | exact Hs].
  - intros d. unfold register. destruct (existsb _ _); [auto|].
    destruct password; [|auto]. cbn [snd users insert_user].
    intros Hd Ha. apply in_app_or in Hd as [Hd|[<-|[]]]; [exact Hd | discriminate].
Qed.

(** At most one user manages an area ([assign_manager] keeps it so). *)
Definition managers_unique (s : ustore) : Prop :=
  forall d1 d2 a, In d1 (users s) -> In d2 (users s) ->
    ud_managed d1 = Some a -> ud_managed d2 = Some a -> ud_id d1 = ud_id d2.

Lemma in_update_first_hit {A} (p : A -> bool) (f : A -> A) l y :
  In y (update_first p f l) -> In y l \/ exists x, In x l /\ p x = true /\ y = f x.
Proof.
  induction l as [|x r IH]; simpl; [tauto|].
  destruct (p x) eqn:E; simpl.
  - intros [<-|H]; [right; exists x; auto | left; auto].
  - intros [<-|H]; [left; auto|]. destruct (IH H) as [H'|[x' [Hx' Hp]]]; [left; auto|].
    right. exists x'. auto.
Qed.

Definition manages (aid : nat) (x : user_doc) : bool :=
  match ud_managed x with Some a => Nat.eqb a aid | None => false end.

(** The first step of [assign_manager] leaves nobody managing the area. *)
Lemma unset_manager_none aid l y :
  NoDup (map ud_id l) ->
  (forall d1 d2, In d1 l -> In d2 l -> manages aid d1 = true -> manages aid d2 = true ->
                 ud_id d1 = ud_id d2) ->
  In y (update_first (manages aid) (set_managed None) l) -> manages aid y = false.
Proof.
  induction l as [|x r IH]; simpl; [tauto|].
  intros Hnd Hu. inversion Hnd as [|? ? Hni Hnd']; subst.
  destruct (manages aid x) eqn:Ex; simpl.
  - intros [<-|Hy]; [reflexivity|].
    destruct (manages aid y) eqn:Ey; [|reflexivity]. exfalso. apply Hni.
    rewrite (Hu x y (or_introl eq_refl) (or_intror Hy) Ex Ey). now apply in_map.
  - intros [<-|Hy]; [exact Ex|]. apply IH; auto.
Qed.

(** What the unset step keeps of a document. *)
Lemma unset_manager_trace aid l y :
  In y (update_first (manages aid) (set_managed None) l) ->
  exists x, In x l /\ ud_id y = ud_id x /\ ud_email y = ud_email x
            /\ (ud_managed y = ud_managed x \/ ud_managed y = None).
Proof.
  intros Hy. apply in_update_first_hit in Hy as [Hy|[x [Hx [_ ->]]]].
  - exists y. auto.
  - exists x. simpl. auto.
Qed.

Theorem assign_manager_unique u aid email s :
  uinv s -> managers_unique s ->
  let s' := snd (assign_manager u aid email s) in
  managers_unique s'
  /\ map ud_id (users s') = map ud_id (users s)
  /\ (fst (assign_manager u aid email s) = AssignOk ->
      exists y, In y (users s') /\ ud_email y = email /\ ud_managed y = Some aid).
Proof.
  intros (He & Hi & Hlt) Hmu s'. subst s'. unfold assign_manager.
  destruct (negb (u_is_admin u)); [split; [exact Hmu|split; [reflexivity|discriminate]]|].
  destruct (find (fun d => email_eqb (ud_email d) email) (users s)) as [d|] eqn:Ef;
    [|split; [exact Hmu|split; [reflexivity|discriminate]]].
  apply find_in in Ef as [Hd Hde]. apply email_eqb_eq in Hde.
  cbn [fst snd update_users users].
  set (l1 := update_first (fun x => match ud_managed x with
                                    | Some a => Nat.eqb a aid
                                    | None => false end) (set_managed None) (users s)).
  change (update_first _ (set_managed None) (users s)) with
    (update_first (manages aid) (set_managed None) (users s)) in l1.
  assert (Hids1 : map ud_id l1 = map ud_id (users s)) by (apply map_update_first; reflexivity).
  assert (Hnone : forall y, In y l1 -> manages aid y = false).
  { intros y Hy. apply (unset_manager_none aid (users s)); auto.
    intros d1 d2 H1 H2 E1 E2. unfold manages in E1, E2.
    destruct (ud_managed d1) as [a1|] eqn:M1; [|discriminate].
    destruct (ud_managed d2) as [a2|] eqn:M2; [|discriminate].
    apply Nat.eqb_eq in E1, E2. subst. eapply Hmu; eauto. }
  assert (Hman : forall y, In y l1 -> manages aid y = false <-> ud_managed y <> Some aid).
  { intros y _. unfold manages. destruct (ud_managed y) as [a|].
    - rewrite Nat.eqb_neq. split; congruence.
    - split; [discriminate|reflexivity]. }
  split; [|split].
  - intros y1 y2 a H1 H2 M1 M2.
    apply in_update_first_hit in H1 as [H1|[x1 [Hx1 [Ep1 ->]]]];
    apply in_update_first_hit in H2 as [H2|[x2 [Hx2 [Ep2 ->]]]].
    + destruct (Nat.eq_dec a aid) as [->|Ha].
      * exfalso. exact (proj1 (Hman y1 H1) (Hnone y1 H1) M1).
      * destruct (unset_manager_trace aid _ _ H1) as [x1 (Hx1 & I1 & _ & [E1|E1])];
          [|congruence].
        destruct (unset_manager_trace aid _ _ H2) as [x2 (Hx2 & I2 & _ & [E2|E2])];
          [|congruence].
        rewrite I1, I2. apply (Hmu x1 x2 a Hx1 Hx2); congruence.
    + simpl in M2. injection M2 as <-.
      exfalso. exact (proj1 (Hman y1 H1) (Hnone y1 H1) M1).
    + simpl in M1. injection M1 as <-.
      exfalso. exact (proj1 (Hman y2 H2) (Hnone y2 H2) M2).
    + apply Nat.eqb_eq in Ep1, Ep2. simpl. congruence.
  - rewrite map_update_first by reflexivity. exact Hids1.
  - intros _.
    assert (Hin1 : In (ud_id d) (map ud_id l1)) by (rewrite Hids1; now apply in_map).
    apply in_map_iff in Hin1 as [x1 [Ex1 Hx1]].
    destruct (find (fun x => Nat.eqb (ud_id x) (ud_id d)) l1) as [x|] eqn:Ef1.
    2: { pose proof (find_none _ _ Ef1 x1 Hx1) as Hf. cbv beta in Hf. rewrite Ex1, Nat.eqb_refl in Hf. discriminate. }
    exists (set_managed (Some aid) x). split; [|split; [|reflexivity]].
    + apply (find_in (fun x => Nat.eqb (ud_id x) (ud_id d))).
      apply find_update_first_same; [exact Ef1|]. simpl.
      apply find_in in Ef1 as [_ Ep]. exact Ep.
    + apply find_in in Ef1 as [Hx Ep]. apply Nat.eqb_eq in Ep.
      destruct (unset_manager_trace aid _ _ Hx) as [z (Hz & Iz & Mz & _)].
      simpl. rewrite Mz, <- Hde. f_equal.
      apply (in_key_unique ud_id (users s) z d Hi Hz Hd). congruence.
Qed.

(** ** [profile] *)

Theorem profile_vehicle uid vehicle_in s d :
  find (fun x => Nat.eqb (ud_id x) uid) (users s) = Some d ->
  let s' := profile uid vehicle_in s in
  (forall v, doc_is_staff d = true -> vehicle_number d = Some v ->
   v <> EmptyString -> v <> "Not Set"%string ->
   map (fun x => (ud_id x, ud_vehicle x)) (users s')
   = map (fun x => (ud_id x, ud_vehicle x)) (users s))
  /\ ((doc_is_staff d = false \/ vehicle_number d = None
       \/ vehicle_number d = Some EmptyString \/ vehicle_number d = Some "Not Set"%string) ->
      exists d', find (fun x => Nat.eqb (ud_id x) uid) (users s') = Some d'
                 /\ ud_id d' = ud_id d /\ ud_email d' = ud_email d
                 /\ vehicle_number d' = vehicle_in).
Proof.
  intros Ef s'. subst s'. unfold profile. rewrite Ef.
  assert (Hid : forall v, (fun x => Nat.eqb (ud_id x) uid) (set_vehicle v d) = true).
  { intros v. simpl. exact (proj2 (find_in _ _ _ Ef)). }
  split.
  - intros v Hst Ev H1 H2. rewrite Hst, Ev. cbn [andb].
    apply String.eqb_neq in H1, H2. rewrite H1, H2. cbn [negb andb].
    cbn [users update_users].
    rewrite (update_first_fixed _ _ _ _ Ef); [reflexivity|].
    unfold vehicle_number in Ev. destruct d as [i e a vf m]; cbn in *.
    destruct vf; try discriminate; injection Ev as Ev; subst; [|reflexivity].
    rewrite String.eqb_refl in H2. discriminate.
  - intros Hc.
    assert (Hk : doc_is_staff d && match vehicle_number d with
                   | Some v => negb (String.eqb v "") && negb (String.eqb v "Not Set")
                   | None => false end = false).
    { destruct Hc as [E|[E|[E|E]]]; rewrite E; [reflexivity|..]; simpl; apply andb_false_r. }
    rewrite Hk. cbn [users update_users].
    eexists. split; [apply find_update_first_same; [exact Ef|apply Hid]|].
    simpl. split; [reflexivity|split; [reflexivity|]].
    destruct vehicle_in; reflexivity.
Qed.

(** ** [int(n * 0.7)] *)

Lemma round_shift_bounds x e :
  0 <= x -> 0 < e ->
  x / 2 ^ e <= round_shift x e /\ round_shift x e * 2 ^ e <= x + 2 ^ e.
Proof.
  intros Hx He. unfold round_shift.
  rewrite Z.shiftr_div_pow2, Z.shiftl_mul_pow2 by lia.
  assert (Hp : 0 < 2 ^ e) by (apply Z.pow_pos_nonneg; lia).
  pose proof (Z.mul_div_le x (2 ^ e) Hp) as Hq.
  set (q := x / 2 ^ e) in *.
  destruct (_ <? _); [split; nia|]. destruct (_ <? _); [split; nia|].
  destruct (Z.even q); split; nia.
Qed.

Lemma int_times_07_nonneg_small n :
  0 <= n < 2 ^ 53 -> exists k, int_times_07_nonneg n = Some k /\ 0 <= k <= n.
Proof.
  intros Hn. unfold int_times_07_nonneg.
  assert (Hr1 : round53 n = (n, 0)).
  { unfold round53. replace (Z.log2 n - 52 <=? 0) with true; [reflexivity|].
    symmetry. apply Z.leb_le.
    destruct (Z.eq_dec n 0) as [->|Hn0]; [simpl; lia|].
    assert (Z.log2 n < 53) by (apply Z.log2_lt_pow2; lia). lia. }
  rewrite Hr1. rewrite Z.pow_0_r, Z.mul_1_r.
  assert (H53 : 2 ^ 53 < 2 ^ 1024) by (apply Z.pow_lt_mono_r; lia).
  replace (2 ^ 1024 <=? n) with false by (symmetry; apply Z.leb_gt; lia).
  unfold round53. set (x := n * double_07).
  assert (HD : double_07 + 1 <= 2 ^ 52) by (apply Z.leb_le; reflexivity).
  assert (HD0 : 0 < double_07) by (unfold double_07; reflexivity).
  assert (Hx : 0 <= x) by (subst x; nia).
  assert (H52 : 0 < 2 ^ 52) by reflexivity.
  destruct (Z.log2 x - 52 <=? 0) eqn:Ee.
  - eexists. split; [reflexivity|]. rewrite Z.add_0_r, Z.pow_0_r, Z.mul_1_r. split.
    + apply Z.div_pos; lia.
    + apply Z.div_le_upper_bound; [lia|]. subst x. nia.
  - apply Z.leb_gt in Ee. set (e := Z.log2 x - 52) in *.
    destruct (round_shift_bounds x e Hx Ee) as [Hlo Hhi].
    assert (Hxpos : 0 < x).
    { destruct (Z.eq_dec x 0) as [E|E]; [|lia]. assert (e = -52) by (unfold e; rewrite E; reflexivity). lia. }
    assert (Hpe : 2 ^ e * 2 ^ 52 <= x).
    { rewrite <- Z.pow_add_r by lia. replace (e + 52) with (Z.log2 x) by lia.
      now apply Z.log2_spec. }
    assert (Hpe0 : 0 < 2 ^ e) by (apply Z.pow_pos_nonneg; lia).
    eexists. split; [reflexivity|]. rewrite Z.add_0_l. split.
    + apply Z.div_pos; [|lia].
      assert (0 <= x / 2 ^ e) by (apply Z.div_pos; lia). nia.
    + apply Z.div_le_upper_bound; [lia|]. subst x. nia.
Qed.

Lemma int_times_07_small c :
  - 2 ^ 53 < c < 2 ^ 53 ->
  exists car, int_times_07 c = Some car /\ Z.min c 0 <= car <= Z.max c 0.
Proof.
  intros Hc. unfold int_times_07. destruct (c <? 0) eqn:E.
  - apply Z.ltb_lt in E. destruct (int_times_07_nonneg_small (- c)) as [k [Ek Hk]]; [lia|].
    rewrite Ek. exists (- k). split; [reflexivity|lia].
  - apply Z.ltb_ge in E. destruct (int_times_07_nonneg_small c) as [k [Ek Hk]]; [lia|].
    exists k. split; [exact Ek|lia].
Qed.

Lemma int_times_07_overflow c : 2 ^ 1024 <= c -> int_times_07 c = None.
Proof.
  intros Hc.
  assert (Hpos : 0 < c) by (pose proof (Z.pow_pos_nonneg 2 1024); lia).
  unfold int_times_07. replace (c <? 0) with false by (symmetry; apply Z.ltb_ge; lia).
  unfold int_times_07_nonneg, round53.
  assert (Hl : 1024 <= Z.log2 c).
  { rewrite <- (Z.log2_pow2 1024) by lia. now apply Z.log2_le_mono. }
  replace (Z.log2 c - 52 <=? 0) with false by (symmetry; apply Z.leb_gt; lia).
  set (e := Z.log2 c - 52).
  destruct (round_shift_bounds c e) as [Hlo _]; [lia|lia|].
  assert (Hpe : 0 < 2 ^ e) by (apply Z.pow_pos_nonneg; lia).
  assert (Hq : 2 ^ 52 <= c / 2 ^ e).
  { apply Z.div_le_lower_bound; [exact Hpe|].
    rewrite <- Z.pow_add_r by lia. replace (e + 52) with (Z.log2 c) by lia.
    now apply Z.log2_spec. }
  replace (2 ^ 1024 <=? round_shift c e * 2 ^ e) with true; [reflexivity|].
  symmetry. apply Z.leb_le.
  transitivity (2 ^ 52 * 2 ^ e); [|nia].
  rewrite <- Z.pow_add_r by lia. apply Z.pow_le_mono_r; lia.
Qed.

(** ** The slots of a new area *)

Lemma length_range1 n : List.length (range1 n) = Z.to_nat n.
Proof. unfold range1. now rewrite length_map, length_seq. Qed.

(** A slot name that makes [int(...)] of its level prefix fail aborts the
    no-show handling of any booking that holds it. *)
Lemma no_show_one_level_error b sid s :
  (forall t, level_of sid t = (inr ValueError, t)) -> In sid (b_slot_ids b) ->
  fst (no_show_one b s) = inr ValueError.
Proof.
  intros Hl Hin. unfold no_show_one, bind at 1 2. simpl.
  apply (iterM_raises _ _ sid); [| |exact Hin].
  - intros sid' s1 e1. apply notify_level_only.
  - intros s1. exists ValueError. unfold notify_level, bind at 1. rewrite Hl. reflexivity.
Qed.

Lemma level_of_new_area_slot aid car bike sl t :
  In sl (new_area_slots aid car bike) -> level_of (s_number sl) t = (inr ValueError, t).
Proof.
  unfold new_area_slots. intros Hsl.
  apply in_app_or in Hsl as [Hsl|Hsl]; apply in_map_iff in Hsl as [num [<- _]];
    reflexivity.
Qed.

Theorem new_area_slot_aborts_no_shows aid car bike area_filter now s b sl :
  In b (bookings s) -> expired area_filter now b = true ->
  In sl (new_area_slots aid car bike) -> In (s_number sl) (b_slot_ids b) ->
  fst (check_no_shows area_filter now s) = inr ValueError.
Proof.
  intros Hb Hexp Hsl Hin. unfold check_no_shows, bind at 1, gets. cbn [fst snd].
  apply (iterM_raises _ _ b).
  - intros y t e. apply no_show_one_only.
  - intros t. exists ValueError. apply (no_show_one_level_error b (s_number sl)); [|exact Hin].
    intros t'. now apply (level_of_new_area_slot aid car bike).
  - apply filter_In. auto.
Qed.

(** ** The slots of [seed_data] *)

Definition relabel (aid : nat) (sl : slot) : slot :=
  mkSlot aid (s_level sl) (s_number sl) (s_is_bike sl).

Lemma seed_area_slots_relabel aid c :
  seed_area_slots aid c = option_map (map (relabel aid)) (seed_area_slots 0 c).
Proof.
  unfold seed_area_slots. destruct (int_times_07 c) as [car|]; [|reflexivity].
  cbn [option_map]. f_equal. rewrite map_app, map_map. f_equal.
  unfold seed_car_slots. induction (range1 (seed_levels c)) as [|lv r IH]; [reflexivity|].
  cbn [flat_map]. rewrite map_app, map_map, IH. reflexivity.
Qed.

Fixpoint nodup_str (l : list string) : bool :=
  match l with
  | [] => true
  | x :: r => negb (existsb (String.eqb x) r) && nodup_str r
  end.

Lemma nodup_str_NoDup l : nodup_str l = true -> NoDup l.
Proof.
  induction l as [|x r IH]; simpl; [constructor|].
  intros H. apply andb_true_iff in H as [Hx Hr]. constructor; [|now apply IH].
  intros Hin. apply negb_true_iff in Hx.
  assert (existsb (String.eqb x) r = true)
    by (apply existsb_exists; exists x; split; [exact Hin | apply String.eqb_refl]).
  congruence.
Qed.

Definition seed_check (c : Z) : bool :=
  match seed_area_slots 0 c with
  | Some sls => Nat.eqb (List.length sls) (Z.to_nat c) && nodup_str (map s_number sls)
  | None => false
  end.

Lemma seed_check_all :
  forallb seed_check (map (fun i => 50 + Z.of_nat i) (seq 0 201)) = true.
Proof. vm_compute. reflexivity. Qed.

Theorem seed_area_slots_count aid c :
  50 <= c <= 250 ->
  exists sls, seed_area_slots aid c = Some sls
    /\ Z.of_nat (List.length sls) = c
    /\ NoDup (map s_number sls)
    /\ forall sl, In sl sls -> s_area sl = aid.
Proof.
  intros Hc.
  assert (Hck : seed_check c = true).
  { pose proof seed_check_all as H. rewrite forallb_forall in H. apply H.
    apply in_map_iff. exists (Z.to_nat (c - 50)). split; [lia|].
    apply in_seq. lia. }
  unfold seed_check in Hck. rewrite seed_area_slots_relabel.
  destruct (seed_area_slots 0 c) as [sls|]; [|discriminate].
  apply andb_true_iff in Hck as [Hl Hn]. apply Nat.eqb_eq in Hl.
  exists (map (relabel aid) sls). split; [reflexivity|]. split; [|split].
  - rewrite length_map, Hl. lia.
  - rewrite map_map. exact (nodup_str_NoDup _ Hn).
  - intros sl Hsl. apply in_map_iff in Hsl as [x [<- _]]. reflexivity.
Qed.

Lemma seed_levels_cases c :
  seed_levels c = 1 \/ seed_levels c = 2 \/ seed_levels c = 3 \/ seed_levels c = 4.
Proof. unfold seed_levels. destruct (c <? 70); [|destruct (c <? 120); [|destruct (c <? 180)]]; auto. Qed.

Lemma in_range1 i n : In i (range1 n) <-> 1 <= i <= n.
Proof.
  unfold range1. rewrite in_map_iff. split.
  - intros [k [<- Hk]]. apply in_seq in Hk. lia.
  - intros Hi. exists (Z.to_nat (i - 1)). split; [lia|]. apply in_seq. lia.
Qed.

Theorem seed_slot_level_of aid c sls t :
  seed_area_slots aid c = Some sls ->
  forall sl, In sl sls ->
    1 <= s_level sl <= seed_levels c
    /\ level_of (s_number sl) t
       = (if s_is_bike sl then inr ValueError else inl (s_level sl), t).
Proof.
  unfold seed_area_slots. destruct (int_times_07 c) as [car|]; [|discriminate].
  intros H. injection H as <-. intros sl Hsl.
  pose proof (seed_levels_cases c) as Hlv.
  apply in_app_or in Hsl as [Hsl|Hsl].
  - unfold seed_car_slots in Hsl. apply in_flat_map in Hsl as [lv [Hlv' Hsl]].
    apply in_map_iff in Hsl as [num [<- _]]. apply in_range1 in Hlv'. cbn [s_level].
    split; [exact Hlv'|].
    assert (Hl : lv = 1 \/ lv = 2 \/ lv = 3 \/ lv = 4) by lia.
    destruct Hl as [E|[E|[E|E]]]; subst lv; reflexivity.
  - apply in_map_iff in Hsl as [num [<- _]]. cbn [s_level].
    split; [lia|reflexivity].
Qed.

(** ** The peak hour of [admin_analytics] *)

Definition max_step (best kv : Z * Z) : Z * Z := if snd best <? snd kv then kv else best.

Lemma fold_max r b :
  StronglySorted (fun x y => fst x < fst y) (b :: r) ->
  let best := fold_left max_step r b in
  (best = b \/ In best r)
  /\ snd b <= snd best
  /\ (forall x, In x r -> snd x <= snd best)
  /\ (fst b < fst best -> snd b < snd best)
  /\ (forall x, In x r -> fst x < fst best -> snd x < snd best).
Proof.
  revert b. induction r as [|y r IH]; intros b Hs best; subst best; simpl.
  - split; [now left|]. split; [lia|]. split; [tauto|]. split; [lia|tauto].
  - apply StronglySorted_inv in Hs as [Hs Hb]. inversion Hb as [|? ? Hby Hbr]; subst.
    apply StronglySorted_inv in Hs as Hs'. destruct Hs' as [Hr Hyr].
    destruct (snd b <? snd y) eqn:E.
    + assert (Em : max_step b y = y) by (unfold max_step; now rewrite E). rewrite Em.
      apply Z.ltb_lt in E.
      destruct (IH y Hs) as (H1 & H2 & H3 & H4 & H5).
      split; [destruct H1 as [E1|H1]; [right; left; symmetry; exact E1 | right; now right]|].
      split; [lia|]. split.
      * intros x [<-|Hx]; [lia | now apply H3].
      * split; [intros _; lia|]. intros x [<-|Hx] Hlt; [now apply H4 | now apply H5].
    + assert (Em : max_step b y = b) by (unfold max_step; now rewrite E). rewrite Em.
      apply Z.ltb_ge in E.
      destruct (IH b ltac:(constructor; [exact Hr|exact Hbr])) as (H1 & H2 & H3 & H4 & H5).
      split; [destruct H1 as [E1|H1]; [now left | right; now right]|].
      split; [lia|]. split.
      * intros x [<-|Hx]; [lia | now apply H3].
      * split; [exact H4|]. intros x [<-|Hx] Hlt; [|now apply H5].
        assert (Hlt' : fst b < fst (fold_left max_step r b)) by lia.
        specialize (H4 Hlt'). lia.
Qed.

Lemma dict_set_map (f : Z -> Z) k v L :
  NoDup L -> In k L ->
  dict_set k v (map (fun h => (h, f h)) L) = map (fun h => (h, if h =? k then v else f h)) L.
Proof.
  induction L as [|h L IH]; simpl; [tauto|].
  intros Hnd Hk. inversion Hnd as [|? ? Hni Hnd']; subst.
  destruct (Z.eqb_spec h k) as [->|Hne].
  - f_equal. symmetry. apply map_ext_in. intros h' Hh'.
    destruct (Z.eqb_spec h' k); [congruence|reflexivity].
  - f_equal. apply IH; [exact Hnd'|]. destruct Hk; [congruence|assumption].
Qed.

Definition hours : list Z := map Z.of_nat (seq 0 24).

Definition hour_count (raw : list (Z * Z)) (a h : Z) : Z :=
  fold_left (fun acc kv => if fst kv =? h then snd kv else acc) raw a.

Lemma hours_NoDup : NoDup hours.
Proof. vm_compute. repeat constructor; simpl; lia. Qed.

Lemma hourly_fold raw (f : Z -> Z) :
  (forall kv, In kv raw -> In (fst kv) hours) ->
  fold_left (fun d it => dict_set (fst it) (snd it) d) raw (map (fun h => (h, f h)) hours)
  = map (fun h => (h, hour_count raw (f h) h)) hours.
Proof.
  revert f. induction raw as [|kv r IH]; intros f Hk; [reflexivity|].
  cbn [fold_left]. rewrite dict_set_map.
  - rewrite (IH (fun h => if h =? fst kv then snd kv else f h)).
    + apply map_ext. intros h. unfold hour_count. simpl. now rewrite Z.eqb_sym.
    + intros kv' Hkv'. apply Hk. now right.
  - exact hours_NoDup.
  - apply Hk. now left.
Qed.

Lemma hour_count_spec raw a h :
  NoDup (map fst raw) ->
  (forall c, In (h, c) raw -> hour_count raw a h = c)
  /\ ((forall c, ~ In (h, c) raw) -> hour_count raw a h = a).
Proof.
  unfold hour_count. revert a. induction raw as [|[k v] r IH]; intros a Hnd; simpl.
  - split; [tauto|reflexivity].
  - inversion Hnd as [|? ? Hni Hnd']; subst. simpl in Hni.
    destruct (Z.eqb_spec k h) as [->|Hne].
    + split.
      * intros c [E|Hc].
        -- injection E as <-. apply (proj2 (IH v Hnd')). intros c Hc.
           apply Hni. now apply (in_map fst) in Hc.
        -- exfalso. apply Hni. now apply (in_map fst) in Hc.
      * intros Hn. exfalso. exact (Hn v (or_introl eq_refl)).
    + split.
      * intros c [E|Hc]; [injection E; congruence|]. now apply (IH a Hnd').
      * intros Hn. apply (IH a Hnd'). intros c Hc. exact (Hn c (or_intror Hc)).
Qed.

Lemma sum_values_ge l y :
  (forall x, In x l -> 0 <= snd x) -> In y l -> snd y <= sum_values l.
Proof.
  induction l as [|x r IH]; simpl; [tauto|].
  intros Hpos [<-|Hy].
  - assert (0 <= sum_values r).
    { clear IH. induction r as [|z r' IH']; simpl; [lia|].
      pose proof (Hpos z (or_intror (or_introl eq_refl))).
      assert (0 <= sum_values r'); [|lia]. apply IH'. intros w [<-|Hw]; [|].
      - apply Hpos. now left.
      - apply Hpos. right. now right. }
    lia.
  - pose proof (Hpos x (or_introl eq_refl)). pose proof (IH (fun z Hz => Hpos z (or_intror Hz)) Hy).
    lia.
Qed.

Lemma hour_count_cases raw a h :
  hour_count raw a h = a \/ exists kv, In kv raw /\ hour_count raw a h = snd kv.
Proof.
  unfold hour_count. revert a. induction raw as [|kv r IH]; intros a; simpl; [now left|].
  destruct (IH (if fst kv =? h then snd kv else a)) as [E|[kv' [Hkv' E]]].
  - rewrite E. destruct (fst kv =? h); [right; exists kv; auto | now left].
  - right. exists kv'. auto.
Qed.

(** Whether some pair of [raw] has key [h]. *)
Lemma classic_raw (raw : list (Z * Z)) h :
  (exists c, In (h, c) raw) \/ (forall c, ~ In (h, c) raw).
Proof.
  induction raw as [|[k v] r IH]; simpl; [right; tauto|].
  destruct (Z.eq_dec k h) as [->|Hne]; [left; exists v; now left|].
  destruct IH as [[c Hc]|Hn]; [left; exists c; now right|].
  right. intros c [E|Hc]; [injection E; congruence | exact (Hn c Hc)].
Qed.

Lemma max_key_spec b r :
  StronglySorted (fun x y => fst x < fst y) (b :: r) ->
  let best := fold_left max_step r b in
  In best (b :: r)
  /\ forall x, In x (b :: r) -> snd x <= snd best /\ (fst x < fst best -> snd x < snd best).
Proof.
  intros Hs best. destruct (fold_max r b Hs) as (H1 & H2 & H3 & H4 & H5).
  split; [destruct H1 as [E|H1]; [left; symmetry; exact E | now right]|].
  intros x [<-|Hx]; [split; [exact H2|exact H4]|]. split; [now apply H3 | now apply H5].
Qed.

Lemma hours_sorted (f : Z -> Z) :
  StronglySorted (fun x y => fst x < fst y) (map (fun h => (h, f h)) hours).
Proof. vm_compute. repeat constructor. Qed.

Theorem peak_hour_earliest_max raw :
  NoDup (map fst raw) ->
  (forall h c, In (h, c) raw -> 0 <= h <= 23 /\ 0 < c) ->
  (raw = [] -> peak_hour raw = 0)
  /\ (raw <> [] ->
      exists c, In (peak_hour raw, c) raw
        /\ forall h c', In (h, c') raw -> c' <= c /\ (h < peak_hour raw -> c' < c)).
Proof.
  intros Hnd Hraw.
  assert (Hin : forall kv, In kv raw -> In (fst kv) hours).
  { intros [h c] Hkv. destruct (Hraw h c Hkv) as [Hh _]. unfold hours.
    apply in_map_iff. exists (Z.to_nat h). split; [simpl; lia|]. apply in_seq. lia. }
  assert (Hd : hourly_data raw = map (fun h => (h, hour_count raw 0 h)) hours).
  { unfold hourly_data. rewrite <- (hourly_fold raw (fun _ => 0) Hin).
    unfold hours. now rewrite map_map. }
  set (cnt := hour_count raw 0) in *.
  assert (Hcnt : forall h c, In (h, c) raw -> cnt h = c)
    by (intros h c; apply (hour_count_spec raw 0 h Hnd)).
  assert (Hcnt0 : forall h, (forall c, ~ In (h, c) raw) -> cnt h = 0)
    by (intros h; apply (hour_count_spec raw 0 h Hnd)).
  assert (Hnn : forall h, 0 <= cnt h).
  { intros h. destruct (hour_count_cases raw 0 h) as [E|[kv [Hkv E]]];
      fold cnt in E; rewrite E; [lia|].
    destruct kv as [k v]. pose proof (Hraw k v Hkv). simpl. lia. }
  unfold peak_hour. rewrite Hd. split.
  - intros ->. reflexivity.
  - intros Hne. destruct raw as [|[h0 c0] r0] eqn:Er; [congruence|]. rewrite <- Er in *.
    assert (Hh0 : In (h0, c0) raw) by (rewrite Er; now left).
    assert (Hall : forall h, In h hours -> In (h, cnt h) (map (fun h => (h, cnt h)) hours))
      by (intros h Hh; now apply (in_map (fun h => (h, cnt h)))).
    assert (Hsum : 0 < sum_values (map (fun h => (h, cnt h)) hours)).
    { pose proof (Hcnt h0 c0 Hh0) as E0. pose proof (Hraw h0 c0 Hh0) as [_ Hc0].
      pose proof (sum_values_ge (map (fun h => (h, cnt h)) hours) (h0, cnt h0)) as Hge.
      cbn [snd] in Hge. assert (cnt h0 <= sum_values (map (fun h => (h, cnt h)) hours)); [|lia].
      apply Hge; [|apply Hall; exact (Hin (h0, c0) Hh0)].
      intros x Hx. apply in_map_iff in Hx as [h [<- _]]. apply Hnn. }
    apply Z.ltb_lt in Hsum. rewrite Hsum.
    pose proof (hours_sorted cnt) as Hss.
    destruct (map (fun h => (h, cnt h)) hours) as [|b0 r] eqn:Eh; [discriminate|].
    pose proof (max_key_spec b0 r Hss) as Hmax.
    unfold max_key. fold max_step.
    destruct Hmax as [Hbest Hle]. set (best := fold_left max_step r b0) in *.
    assert (Eb : best = (fst best, cnt (fst best))).
    { rewrite <- Eh in Hbest. apply in_map_iff in Hbest as [h [<- _]]. reflexivity. }
    clearbody best. destruct best as [pb cb]. injection Eb as Ecb. subst cb.
    cbn [fst snd] in *.
    assert (Hpos : 0 < cnt pb).
    { pose proof (Hraw h0 c0 Hh0) as [_ Hc0].
      assert (H0 : In (h0, cnt h0) (b0 :: r)) by (apply Hall, (Hin (h0, c0) Hh0)).
      destruct (Hle _ H0) as [Hl _]. cbn [snd] in Hl. rewrite (Hcnt h0 c0 Hh0) in Hl. lia. }
    exists (cnt pb). split.
    + destruct (classic_raw raw pb) as [[c Hc]|Hn].
      * rewrite (Hcnt _ _ Hc). exact Hc.
      * rewrite (Hcnt0 _ Hn) in Hpos. lia.
    + intros h c' Hc'. rewrite <- (Hcnt h c' Hc').
      assert (Hx : In (h, cnt h) (b0 :: r)) by (apply Hall, (Hin (h, c') Hc')).
      destruct (Hle _ Hx) as [H1 H2]. cbn [fst snd] in H1, H2. split; [exact H1|exact H2].
Qed.

(** ** Witnesses *)

Lemma get_area_slots_available_bookable_witness :
  let s1 := snd (get_area_slots (Some (u_id rider)) 1 (TimeAt t_2026) 1 t_2026 db_slots) in
  let r := fst (book_spot rider (mkBookReq (Some 1%nat) (TimeAt t_2026) 1 (Some "C-01"%string))
                  "A1B2C3D4" "E5F6A7B8" s1) in
  r <> inl (BookFail SlotCollision) /\ r <> inl (BookFail SlotLocked).
Proof.
  apply (get_area_slots_available_bookable rider 1 t_2026 1 t_2026 db_slots
           [(slot_c01, StAvailable)] "C-01" "A1B2C3D4" "E5F6A7B8").
  - vm_compute. reflexivity.
  - intros sid Hsid. vm_compute in Hsid. destruct Hsid as [Hs|[]]. subst sid.
    exists slot_c01. split; [left; reflexivity | reflexivity].
Defined.

Lemma lock_slot_then_view_witness :
  StSelected = StOccupied
  \/ (Some 1%nat = Some (u_id rider) /\ StSelected = StSelected)
  \/ (Some 1%nat <> Some (u_id rider) /\ StSelected = StLocked).
Proof.
  apply (lock_slot_then_view rider t_2026 1 "C-01" db_slots (Some 1%nat) (TimeAt t_2026) 1
           [(slot_c01, StSelected)] slot_c01 StSelected).
  - vm_compute. constructor.
  - vm_compute. reflexivity.
  - vm_compute. reflexivity.
  - left. reflexivity.
  - reflexivity.
Defined.

Lemma cancel_booking_twice_witness :
  let s1 := snd (cancel_booking rider 0 db_booked) in
  snd (cancel_booking rider 0 s1) = s1
  /\ (fst (cancel_booking rider 0 s1) = inl CancelNotFound
      \/ fst (cancel_booking rider 0 s1) = inl CancelBadStatus).
Proof.
  apply cancel_booking_twice. vm_compute. repeat constructor. simpl. tauto.
Defined.

Lemma cancel_booking_refund_witness :
  let refund := py_round2 (py_mul (b_amount booked) (PFloat (float_lit (9 # 10)))) in
  fst (cancel_booking rider 0 db_booked) = inl CancelFee
  /\ find (owned (u_id rider) 0) (bookings (snd (cancel_booking rider 0 db_booked)))
     = Some (with_refund CancelledUser refund "User cancelled after payment." booked)
  /\ (forall a, b_amount booked = PInt a -> 0 < a < 2 ^ 40 ->
        refund = PFloat (f64_of_Q (inject_Z a * (9 # 10)))).
Proof.
  apply (cancel_booking_refund rider 0 db_booked booked).
  - vm_compute. repeat constructor. simpl. tauto.
  - vm_compute. reflexivity.
  - reflexivity.
Defined.



Lemma check_expiry_reminders_idempotent_witness :
  let s1 := snd (check_expiry_reminders (t_2026 + 50 * minute_us) db_parked) in
  check_expiry_reminders (t_2026 + 50 * minute_us) s1 = (inl tt, s1).
Proof.
  apply check_expiry_reminders_idempotent. vm_compute. repeat constructor. simpl. tauto.
Defined.

Lemma unlock_slot_only_own_witness :
  let s' := snd (unlock_slot other_rider 1 "C-01" db_stale) in
  (forall l, In l (slot_locks db_stale) -> lock_id l <> (1%nat, "C-01"%string)
             \/ l_user l <> u_id other_rider -> In l (slot_locks s'))
  /\ (forall l, In l (slot_locks s') ->
                In l (slot_locks db_stale)
                /\ ~ (lock_id l = (1%nat, "C-01"%string) /\ l_user l = u_id other_rider))
  /\ lock_inv s'.
Proof.
  apply unlock_slot_only_own. vm_compute. repeat constructor. simpl. tauto.
Defined.

Lemma pay_booking_twice_witness :
  let s1 := snd (pay_booking rider 0 db_booked) in
  let s2 := snd (pay_booking rider 0 s1) in
  find (owned (u_id rider) 0) (bookings s1) = Some (with_status Confirmed booked)
  /\ bookings s2 = bookings s1
  /\ notifications s2 = notifications db_booked ++
       [mkNotification (u_id rider) MsgPaymentConfirmed;
        mkNotification (u_id rider) MsgPaymentConfirmed]
  /\ areas s2 = areas db_booked.
Proof.
  apply pay_booking_twice. vm_compute. reflexivity.
Defined.


Lemma user_dashboard_view_witness :
  let s' := snd (check_expiry_reminders (t_2026 + 10 * minute_us)
                   (snd (check_no_shows None (t_2026 + 10 * minute_us) db_parked))) in
  snd (user_dashboard other_rider (t_2026 + 10 * minute_us) db_parked) = s'
  /\ (forall b, In b [parked] <-> In b (bookings s') /\ b_user b = u_id other_rider)
  /\ Sorted (fun x y => b_start y <= b_start x) [parked]
  /\ (forall a, Some parked = Some a ->
        In a (bookings s') /\ b_user a = u_id other_rider /\ b_status a = Active
        /\ forall b, In b (bookings s') -> b_user b = u_id other_rider ->
                     b_status b = Active -> check_in_desc a b = true)
  /\ (Some parked = None -> forall b, In b (bookings s') -> b_user b = u_id other_rider ->
                                      b_status b <> Active).
Proof.
  apply user_dashboard_view.
  - reflexivity.
  - vm_compute. reflexivity.
Defined.

Lemma check_no_shows_area_scoped_witness :
  let s' := snd (check_no_shows (Some 1%nat) (t_2026 + 30 * minute_us) db_noshow) in
  (forall b, In b (bookings db_noshow) -> expired (Some 1%nat) (t_2026 + 30 * minute_us) b = false ->
             In b (bookings s'))
  /\ (forall a, In a (areas db_noshow) -> a_id a <> 1%nat -> In a (areas s')).
Proof.
  apply check_no_shows_area_scoped. vm_compute.
  repeat constructor; intros H; simpl in H; intuition discriminate.
Defined.

Lemma seed_users_uinv : uinv seed_users.
Proof.
  split; [|split].
  - simpl. repeat constructor; simpl; intuition discriminate.
  - simpl. repeat constructor; simpl; intuition discriminate.
  - intros d Hd. simpl in Hd.
    destruct Hd as [Hd|[Hd|[Hd|[]]]]; subst d; simpl; lia.
Qed.

Lemma seed_users_managers_unique : managers_unique seed_users.
Proof.
  intros d1 d2 a H1 H2 M1 M2. simpl in H1, H2.
  destruct H1 as [H1|[H1|[H1|[]]]]; destruct H2 as [H2|[H2|[H2|[]]]];
    subst d1 d2; simpl in *; congruence.
Qed.

Lemma create_user_keeps_uinv_witness :
  uinv (snd (register (Some "new@gmail.com"%string) (Some "pw"%string) seed_users))
  /\ uinv (snd (admin_create_user admin_user (Some "new@gmail.com"%string) (Some "pw"%string)
                  (Some "admin"%string) seed_users))
  /\ (forall d, In d (users (snd (register (Some "new@gmail.com"%string) (Some "pw"%string)
                                  seed_users))) ->
                ud_is_admin d = true -> In d (users seed_users)).
Proof.
  apply create_user_keeps_uinv. exact seed_users_uinv.
Defined.

Lemma assign_manager_unique_witness :
  let s' := snd (assign_manager admin_user 5 (Some "demo1@gmail.com"%string) seed_users) in
  managers_unique s'
  /\ map ud_id (users s') = map ud_id (users seed_users)
  /\ (fst (assign_manager admin_user 5 (Some "demo1@gmail.com"%string) seed_users) = AssignOk ->
      exists y, In y (users s') /\ ud_email y = Some "demo1@gmail.com"%string
                /\ ud_managed y = Some 5%nat).
Proof.
  apply assign_manager_unique.
  - exact seed_users_uinv.
  - exact seed_users_managers_unique.
Defined.

Lemma profile_vehicle_witness :
  let d := mkUserDoc 1 (Some "demo1@gmail.com"%string) false (VStr "MH-03-BK-9999") None in
  let s' := profile 1 (Some "MH-03-XY-1234"%string) seed_users in
  (forall v, doc_is_staff d = true -> vehicle_number d = Some v ->
   v <> EmptyString -> v <> "Not Set"%string ->
   map (fun x => (ud_id x, ud_vehicle x)) (users s')
   = map (fun x => (ud_id x, ud_vehicle x)) (users seed_users))
  /\ ((doc_is_staff d = false \/ vehicle_number d = None
       \/ vehicle_number d = Some EmptyString \/ vehicle_number d = Some "Not Set"%string) ->
      exists d', find (fun x => Nat.eqb (ud_id x) 1) (users s') = Some d'
                 /\ ud_id d' = ud_id d /\ ud_email d' = ud_email d
                 /\ vehicle_number d' = Some "MH-03-XY-1234"%string).
Proof.
  apply profile_vehicle. reflexivity.
Defined.

Lemma new_area_slot_aborts_no_shows_witness :
  fst (check_no_shows None (t_2026 + 30 * minute_us) db_booked) = inr ValueError.
Proof.
  apply (new_area_slot_aborts_no_shows 1 1 0 None (t_2026 + 30 * minute_us) db_booked
           booked slot_c01).
  - left. reflexivity.
  - vm_compute. reflexivity.
  - vm_compute. left. reflexivity.
  - left. reflexivity.
Defined.

Lemma seed_area_slots_count_witness :
  exists sls, seed_area_slots 0 137 = Some sls
    /\ Z.of_nat (List.length sls) = 137
    /\ NoDup (map s_number sls)
    /\ forall sl, In sl sls -> s_area sl = 0%nat.
Proof.
  apply seed_area_slots_count. lia.
Defined.

Lemma seed_slot_level_of_witness :
  (1 <= s_level (mkSlot 0 1 "B-01" true) <= seed_levels 3)
  /\ level_of "B-01" db_area20 = (inr ValueError, db_area20).
Proof.
  exact (seed_slot_level_of 0 3
           [mkSlot 0 1 "L1-C01" false; mkSlot 0 1 "L1-C02" false; mkSlot 0 1 "B-01" true]
           db_area20 ltac:(vm_compute; reflexivity)
           (mkSlot 0 1 "B-01" true) ltac:(right; right; left; reflexivity)).
Defined.

Lemma peak_hour_earliest_max_witness :
  ([(9, 3); (14, 5); (18, 5)] = [] -> peak_hour [(9, 3); (14, 5); (18, 5)] = 0)
  /\ ([(9, 3); (14, 5); (18, 5)] <> [] ->
      exists c, In (peak_hour [(9, 3); (14, 5); (18, 5)], c) [(9, 3); (14, 5); (18, 5)]
        /\ forall h c', In (h, c') [(9, 3); (14, 5); (18, 5)] ->
             c' <= c /\ (h < peak_hour [(9, 3); (14, 5); (18, 5)] -> c' < c)).
Proof.
  apply peak_hour_earliest_max.
  - simpl. repeat constructor; simpl; intuition lia.
  - intros h c H. simpl in H.
    destruct H as [H|[H|[H|[]]]]; injection H; intros; subst; lia.
Defined.
